(** * fleeting-plugin-upcloud: the instance-group lifecycle controller

    A shallow embedding of [InstanceGroup] (package main) and of the parts of
    the UpCloud and fleeting APIs it touches.

    - Go [string] is [string], Go [int] is [Z], [[]T] is [list T], a pointer
      that may be nil is an [option].
    - A Go [error] is a value of the inductive [error]; a nil error is [None].
    - A call [(v, err) := f(...)] returns a sum: [inl v] or [inr err].
    - Every method that talks to the outside world (the UpCloud service, the
      logger, math/rand, the observer callback of [Update]) is a program
      [Prog A]: a tree of external actions.  [run] executes such a program
      against an arbitrary environment and returns the result, the new
      environment and the list of actions performed, in order.
    - [Decrease] starts one goroutine per instance; its model is a pool of
      tasks advanced one atomic step at a time by an arbitrary schedule. *)

From stdpp Require Import base list strings.
From Stdlib Require Import ZArith.

Local Open Scope Z_scope.

(** ** Errors *)

(** [errorString] is what [errors.New] and [fmt.Errorf] without [%w] build;
    [wrapError] is what [fmt.Errorf] with one [%w] verb builds: a message and
    the wrapped error. *)
Inductive error : Type :=
| errorString (s : string)
| wrapError (msg : string) (err : error).

Definition Error (e : error) : string :=
  match e with
  | errorString s => s
  | wrapError msg _ => msg
  end.

Definition Unwrap (e : error) : option error :=
  match e with
  | errorString _ => None
  | wrapError _ err => Some err
  end.

#[global] Instance error_eq_dec : EqDecision error.
Proof. solve_decision. Defined.

(** ** Package upcloud (github.com/UpCloudLtd/upcloud-go-api/v8/upcloud)

    The package is a dependency, not part of the sources.  The records have
    the fields the plugin reads or writes, under the names it uses. *)
Module upcloud.

(** Modelled from the spec: the server states of the provider, named there
    "started", "stopped", "error" and "maintenance". *)
Definition ServerStateStarted : string := "started".
Definition ServerStateStopped : string := "stopped".
Definition ServerStateMaintenance : string := "maintenance".
Definition ServerStateError : string := "error".

(** Modelled from the spec: the address families and the access kinds of a
    server's addresses (IPv4 and IPv6; public and private, and the utility
    network of the provider). *)
Definition IPAddressFamilyIPv4 : string := "IPv4".
Definition IPAddressFamilyIPv6 : string := "IPv6".

Definition IPAddressAccessPrivate : string := "private".
Definition IPAddressAccessPublic : string := "public".
Definition IPAddressAccessUtility : string := "utility".

(** Modelled from the spec: the kinds of network interface of a creation
    request, public and private. *)
Definition NetworkTypePrivate : string := "private".
Definition NetworkTypePublic : string := "public".

Inductive Boolean : Type := Empty | False | True.

Record Label : Type := { Key : string; Value : string }.

Record Account : Type := { UserName : string }.

Record Server : Type := { UUID : string; State : string }.

Record Servers : Type := { Servers_Servers : list Server }.

Record IPAddress : Type :=
  { Access : string; Address : string; Family : string }.

(** [ServerDetails] embeds [Server]. *)
Record ServerDetails : Type :=
  { ServerDetails_Server : Server; IPAddresses : list IPAddress }.

End upcloud.

(** ** Package request (upcloud-go-api/v8/upcloud/request)

    A dependency as well; the requests have the fields the plugin sets. *)
Module request.

(** Modelled from the spec: the hard stop of a server and the cloning of the
    template storage. *)
Definition ServerStopTypeHard : string := "hard".
Definition CreateServerStorageDeviceActionClone : string := "clone".

Inductive QueryFilter : Type :=
| FilterLabel (Label : upcloud.Label).

Record GetServersWithFiltersRequest : Type :=
  { Filters : list QueryFilter }.

Record CreateServerStorageDevice : Type :=
  { Action : string; Storage : string; Title : string; Size : Z;
    Tier : string }.

Record CreateServerIPAddress : Type := { Family : string }.

Record CreateServerInterface : Type :=
  { IPAddresses : list CreateServerIPAddress; Type_ : string }.

Record CreateServerNetworking : Type :=
  { Interfaces : list CreateServerInterface }.

Record LoginUser : Type :=
  { LoginUser_Username : string; SSHKeys : list string }.

Record CreateServerRequest : Type :=
  { Hostname : string;
    CreateServerRequest_Title : string;
    Plan : string;
    Zone : string;
    Metadata : upcloud.Boolean;
    Labels : option (list upcloud.Label);
    StorageDevices : list CreateServerStorageDevice;
    Networking : option CreateServerNetworking;
    CreateServerRequest_LoginUser : option LoginUser;
    UserData : string }.

Record StopServerRequest : Type :=
  { StopServerRequest_UUID : string; StopType : string }.

Record WaitForServerStateRequest : Type :=
  { WaitForServerStateRequest_UUID : string; DesiredState : string }.

Record DeleteServerAndStoragesRequest : Type :=
  { DeleteServerAndStoragesRequest_UUID : string }.

Record GetServerDetailsRequest : Type :=
  { GetServerDetailsRequest_UUID : string }.

End request.

(** ** Package provider (gitlab.com/gitlab-org/fleeting/fleeting/provider) *)
Module provider.

Inductive State : Type :=
| StateCreating
| StateRunning
| StateDeleting
| StateDeleted
| StateTimeout.

(** Modelled from the spec: [type Protocol string] with the fallback protocol
    "ssh". *)
Definition ProtocolSSH : string := "ssh".
Definition ProtocolWinRM : string := "winrm".

Record ConnectorConfig : Type :=
  { OS : string;
    Arch : string;
    Protocol : string;
    ProtocolPort : Z;
    Username : string;
    Password : string;
    Key : list Byte.byte;
    UseStaticCredentials : bool;
    Keepalive : Z; Timeout : Z }.

Record Settings : Type := { Settings_ConnectorConfig : ConnectorConfig }.

(** [ConnectInfo] embeds [ConnectorConfig]. *)
Record ConnectInfo : Type :=
  { ConnectInfo_ConnectorConfig : ConnectorConfig;
    ID : string;
    ExternalAddr : string;
    InternalAddr : string;
    Expires : option Z }.

Definition zeroConnectorConfig : ConnectorConfig :=
  {| OS := ""; Arch := ""; Protocol := ""; ProtocolPort := 0;
     Username := ""; Password := ""; Key := []; UseStaticCredentials := false;
     Keepalive := 0; Timeout := 0 |}.

End provider.

#[global] Instance State_eq_dec : EqDecision provider.State.
Proof. solve_decision. Defined.

(** ** Package client (upcloud-go-api/v8/upcloud/client)

    What [client.New] is given: the authentication the client will use. *)
Module client.

Inductive Client : Type :=
| BearerAuth (token : string) (timeoutSeconds : Z)
| BasicAuth (username password : string) (timeoutSeconds : Z).

End client.

(** ** Package main: constants and the group *)

Definition groupLabelKey : string := "fleeting-group".
Definition defaultPlan : string := "1xCPU-2GB".
Definition defaultNamePrefix : string := "fleeting".
Definition defaultMaxSize : Z := 100.

(** [InstanceGroup].  The fields [log] and [svc] are handles to the outside
    world; the programs below reach them through actions. *)
Record InstanceGroup : Type :=
  { Token : string;
    Username : string;
    Password : string;
    Zone : string;
    Template : string;
    Name : string;
    Plan : string;
    StorageSize : Z;
    StorageTier : string;
    NamePrefix : string;
    MaxSize : Z;
    UsePrivateNetwork : bool;
    UserData : string;
    settings : provider.Settings;
    publicKey : string }.

Definition set_Plan (g : InstanceGroup) (v : string) : InstanceGroup :=
  {| Token := Token g; Username := Username g; Password := Password g;
     Zone := Zone g; Template := Template g; Name := Name g;
     Plan := v;
     StorageSize := StorageSize g; StorageTier := StorageTier g;
     NamePrefix := NamePrefix g; MaxSize := MaxSize g;
     UsePrivateNetwork := UsePrivateNetwork g; UserData := UserData g;
     settings := settings g; publicKey := publicKey g |}.

Definition set_NamePrefix (g : InstanceGroup) (v : string) : InstanceGroup :=
  {| Token := Token g; Username := Username g; Password := Password g;
     Zone := Zone g; Template := Template g; Name := Name g;
     Plan := Plan g;
     StorageSize := StorageSize g; StorageTier := StorageTier g;
     NamePrefix := v; MaxSize := MaxSize g;
     UsePrivateNetwork := UsePrivateNetwork g; UserData := UserData g;
     settings := settings g; publicKey := publicKey g |}.

Definition set_MaxSize (g : InstanceGroup) (v : Z) : InstanceGroup :=
  {| Token := Token g; Username := Username g; Password := Password g;
     Zone := Zone g; Template := Template g; Name := Name g;
     Plan := Plan g;
     StorageSize := StorageSize g; StorageTier := StorageTier g;
     NamePrefix := NamePrefix g; MaxSize := v;
     UsePrivateNetwork := UsePrivateNetwork g; UserData := UserData g;
     settings := settings g; publicKey := publicKey g |}.

(** [s == ""] *)
Definition isEmpty (s : string) : bool := bool_decide (s = "").

(** [validate] checks the required fields and applies the defaults.  The
    receiver is a pointer: the group after the call is returned next to the
    error. *)
Definition validate (g : InstanceGroup) : option error * InstanceGroup :=
  if isEmpty (Token g) && (isEmpty (Username g) || isEmpty (Password g)) then
    (Some (errorString "either token or both username and password are required"), g)
  else if isEmpty (Zone g) then
    (Some (errorString "zone is required"), g)
  else if isEmpty (Template g) then
    (Some (errorString "template is required"), g)
  else if isEmpty (Name g) then
    (Some (errorString "name is required"), g)
  else
    let g := if isEmpty (Plan g) then set_Plan g defaultPlan else g in
    let g := if isEmpty (NamePrefix g) then set_NamePrefix g defaultNamePrefix else g in
    let g := if bool_decide (MaxSize g = 0) then set_MaxSize g defaultMaxSize else g in
    (None, g).

(** [newClient]: bearer token if [Token] is set, otherwise basic auth. *)
Definition newClient (g : InstanceGroup) : client.Client :=
  if negb (isEmpty (Token g)) then client.BearerAuth (Token g) 30
  else client.BasicAuth (Username g) (Password g) 30.

(** [mapServerState] converts an UpCloud server state to a [provider.State]. *)
Definition mapServerState (s : string) : provider.State :=
  if bool_decide (s = upcloud.ServerStateStarted) then provider.StateRunning
  else if bool_decide (s = upcloud.ServerStateStopped)
          || bool_decide (s = upcloud.ServerStateError) then provider.StateDeleted
  else provider.StateCreating.

(** ** The outside world

    [upcloudSvc] is the subset of the UpCloud API used by [InstanceGroup]; an
    implementation is a state type [S] with one transition per method (the
    fields are named after the function fields of the test double).  [Env]
    adds what else the controller calls out to: the source of math/rand and
    the observer that [Update] reports to. *)
Class upcloudSvc (S : Type) : Type :=
  { getAccount : S -> (upcloud.Account + error) * S;
    getServersWithFilters :
      request.GetServersWithFiltersRequest -> S -> (upcloud.Servers + error) * S;
    createServer :
      request.CreateServerRequest -> S -> (upcloud.ServerDetails + error) * S;
    stopServer :
      request.StopServerRequest -> S -> (upcloud.ServerDetails + error) * S;
    waitForServerState :
      request.WaitForServerStateRequest -> S -> (upcloud.ServerDetails + error) * S;
    deleteServerAndStorages :
      request.DeleteServerAndStoragesRequest -> S -> option error * S;
    getServerDetails :
      request.GetServerDetailsRequest -> S -> (upcloud.ServerDetails + error) * S }.

Class Env (S : Type) : Type :=
  { env_svc :: upcloudSvc S;
    (** the next raw value of the random source, a non-negative integer *)
    randNext : S -> N * S;
    (** the effect of one observer call *)
    observe : string -> provider.State -> S -> S }.

(** hclog levels and key/value arguments *)
Inductive Level : Type := LevelInfo | LevelWarn | LevelError.

Inductive LogArg : Type :=
| LStr (s : string)
| LErr (e : error).

(** The external actions of the controller and the type each one answers
    with. *)
Inductive action : Type :=
| GetAccount
| GetServersWithFilters (r : request.GetServersWithFiltersRequest)
| CreateServer (r : request.CreateServerRequest)
| StopServer (r : request.StopServerRequest)
| WaitForServerState (r : request.WaitForServerStateRequest)
| DeleteServerAndStorages (r : request.DeleteServerAndStoragesRequest)
| GetServerDetails (r : request.GetServerDetailsRequest)
| Log (level : Level) (msg : string) (args : list LogArg)
| Intn (n : Z)
| Observe (instance : string) (state : provider.State).

Definition result (a : action) : Type :=
  match a with
  | GetAccount => (upcloud.Account + error)%type
  | GetServersWithFilters _ => (upcloud.Servers + error)%type
  | CreateServer _ => (upcloud.ServerDetails + error)%type
  | StopServer _ => (upcloud.ServerDetails + error)%type
  | WaitForServerState _ => (upcloud.ServerDetails + error)%type
  | DeleteServerAndStorages _ => option error
  | GetServerDetails _ => (upcloud.ServerDetails + error)%type
  | Log _ _ _ => unit
  | Intn _ => Z
  | Observe _ _ => unit
  end.

(** An action together with its answer, as it appears in a trace. *)
Inductive Event : Type :=
| EvGetAccount (res : upcloud.Account + error)
| EvGetServersWithFilters (r : request.GetServersWithFiltersRequest)
    (res : upcloud.Servers + error)
| EvCreateServer (r : request.CreateServerRequest)
    (res : upcloud.ServerDetails + error)
| EvStopServer (r : request.StopServerRequest)
    (res : upcloud.ServerDetails + error)
| EvWaitForServerState (r : request.WaitForServerStateRequest)
    (res : upcloud.ServerDetails + error)
| EvDeleteServerAndStorages (r : request.DeleteServerAndStoragesRequest)
    (res : option error)
| EvGetServerDetails (r : request.GetServerDetailsRequest)
    (res : upcloud.ServerDetails + error)
| EvLog (level : Level) (msg : string) (args : list LogArg)
| EvIntn (n : Z) (v : Z)
| EvObserve (instance : string) (state : provider.State).

Definition event (a : action) : result a -> Event :=
  match a return result a -> Event with
  | GetAccount => EvGetAccount
  | GetServersWithFilters r => EvGetServersWithFilters r
  | CreateServer r => EvCreateServer r
  | StopServer r => EvStopServer r
  | WaitForServerState r => EvWaitForServerState r
  | DeleteServerAndStorages r => EvDeleteServerAndStorages r
  | GetServerDetails r => EvGetServerDetails r
  | Log level msg args => fun _ => EvLog level msg args
  | Intn n => EvIntn n
  | Observe instance state => fun _ => EvObserve instance state
  end.

(** How an environment answers an action.  The logger only leaves its entry
    in the trace; [rand.Intn(n)] is the raw value reduced to [0, n). *)
Definition handle {S : Type} `{!Env S} (a : action) : S -> result a * S :=
  match a return S -> result a * S with
  | GetAccount => getAccount
  | GetServersWithFilters r => getServersWithFilters r
  | CreateServer r => createServer r
  | StopServer r => stopServer r
  | WaitForServerState r => waitForServerState r
  | DeleteServerAndStorages r => deleteServerAndStorages r
  | GetServerDetails r => getServerDetails r
  | Log _ _ _ => fun s => (tt, s)
  | Intn n => fun s => let '(v, s') := randNext s in (Z.of_N v mod n, s')
  | Observe instance state => fun s => (tt, observe instance state s)
  end.

(** ** Programs over the actions *)
Inductive Prog (A : Type) : Type :=
| Ret (a : A)
| Act (a : action) (k : result a -> Prog A).

Arguments Ret {A} a.
Arguments Act {A} a k.

Fixpoint bind {A B : Type} (p : Prog A) (f : A -> Prog B) : Prog B :=
  match p with
  | Ret a => f a
  | Act a k => Act a (fun x => bind (k x) f)
  end.

#[global] Instance Prog_ret : MRet Prog := @Ret.
#[global] Instance Prog_bind : MBind Prog := fun A B f p => bind p f.

Definition call (a : action) : Prog (result a) := Act a Ret.

(** [run p s] executes [p] in the environment state [s]: the value returned,
    the state afterwards, and the events in the order they happened. *)
Fixpoint run {S : Type} `{!Env S} {A : Type} (p : Prog A) (s : S)
  : A * S * list Event :=
  match p with
  | Ret a => (a, s, [])
  | Act a k =>
      let '(x, s1) := handle a s in
      let '(y, s2, tr) := run (k x) s1 in
      (y, s2, event a x :: tr)
  end.

(** [for _, x := range l { body(x) }] *)
Fixpoint forEach {A : Type} (l : list A) (body : A -> Prog unit) : Prog unit :=
  match l with
  | [] => mret tt
  | x :: l' => _ ← body x; forEach l' body
  end.

(** [fmt.Errorf(prefix + "%w", err)]: the message is the formatted text, the
    wrapped error is [err]. *)
Definition Errorf_w (prefix : string) (err : error) : error :=
  wrapError (prefix +:+ Error err) err.

Definition log (level : Level) (msg : string) (args : list LogArg) : Prog unit :=
  call (Log level msg args).

(** ** Update *)

(** [Update] lists the servers of the group and calls [fn] for each. *)
Definition Update (g : InstanceGroup)
    (fn : string -> provider.State -> Prog unit) : Prog (option error) :=
  r ← call (GetServersWithFilters
              {| request.Filters :=
                   [request.FilterLabel
                      {| upcloud.Key := groupLabelKey; upcloud.Value := Name g |}] |});
  match r with
  | inr err => mret (Some (Errorf_w "listing group servers: " err))
  | inl servers =>
      _ ← forEach (upcloud.Servers_Servers servers)
            (fun s => fn (upcloud.UUID s) (mapServerState (upcloud.State s)));
      mret None
  end.

(** The observer that hands each report to the environment. *)
Definition observer (instance : string) (state : provider.State) : Prog unit :=
  call (Observe instance state).

(** ** Increase *)

Definition chars : string := "abcdefghijklmnopqrstuvwxyz0123456789".

(** [chars[i]]; the index always comes from [rand.Intn(len(chars))], which is
    in range (out of range Go panics; the zero byte stands for that). *)
Definition charAt (i : Z) : Ascii.ascii :=
  match String.get (Z.to_nat i) chars with
  | Some c => c
  | None => Ascii.zero
  end.

Fixpoint randomSuffix_from (n : nat) (b : string) : Prog string :=
  match n with
  | O => mret b
  | S n' =>
      i ← call (Intn (Z.of_nat (String.length chars)));
      randomSuffix_from n' (b +:+ String (charAt i) "")
  end.

(** [randomSuffix] generates a random lowercase alphanumeric string. *)
Definition randomSuffix (n : Z) : Prog string :=
  randomSuffix_from (Z.to_nat n) "".

Definition publicInterface : request.CreateServerInterface :=
  {| request.IPAddresses := [ {| request.Family := upcloud.IPAddressFamilyIPv4 |} ];
     request.Type_ := upcloud.NetworkTypePublic |}.

Definition privateInterface : request.CreateServerInterface :=
  {| request.IPAddresses := [ {| request.Family := upcloud.IPAddressFamilyIPv4 |} ];
     request.Type_ := upcloud.NetworkTypePrivate |}.

(** The request one iteration of [Increase] builds for [hostname]. *)
Definition createReq (g : InstanceGroup) (hostname : string)
  : request.CreateServerRequest :=
  let storageDevices :=
    [ {| request.Action := request.CreateServerStorageDeviceActionClone;
         request.Storage := Template g;
         request.Title := "disk1";
         request.Size := StorageSize g;
         request.Tier := StorageTier g |} ] in
  let interfaces :=
    if UsePrivateNetwork g then [publicInterface] ++ [privateInterface]
    else [publicInterface] in
  {| request.Hostname := hostname;
     request.CreateServerRequest_Title := "fleeting-plugin-upcloud - " +:+ hostname;
     request.Plan := Plan g;
     request.Zone := Zone g;
     request.Metadata := upcloud.True;
     request.Labels :=
       Some [ {| upcloud.Key := groupLabelKey; upcloud.Value := Name g |} ];
     request.StorageDevices := storageDevices;
     request.Networking := Some {| request.Interfaces := interfaces |};
     request.CreateServerRequest_LoginUser :=
       if negb (isEmpty (publicKey g)) then
         Some {| request.LoginUser_Username :=
                   provider.Username (provider.Settings_ConnectorConfig (settings g));
                 request.SSHKeys := [publicKey g] |}
       else None;
     request.UserData := if negb (isEmpty (UserData g)) then UserData g else "" |}.

(** The loop of [Increase] with [iters] iterations left. *)
Fixpoint Increase_loop (g : InstanceGroup) (iters : nat) (succeeded : Z) : Prog Z :=
  match iters with
  | O => mret succeeded
  | S iters' =>
      suffix ← randomSuffix 8;
      let hostname := NamePrefix g +:+ "-" +:+ suffix in
      r ← call (CreateServer (createReq g hostname));
      match r with
      | inr err =>
          _ ← log LevelError "failed to create server"
                [LStr "hostname"; LStr hostname; LStr "error"; LErr err];
          Increase_loop g iters' succeeded
      | inl _ =>
          _ ← log LevelInfo "created server" [LStr "hostname"; LStr hostname];
          Increase_loop g iters' (succeeded + 1)
      end
  end.

(** [Increase] creates [n] servers, one after the other; [i] runs from 0
    while [i < n]. *)
Definition Increase (g : InstanceGroup) (n : Z) : Prog (Z * option error) :=
  succeeded ← Increase_loop g (Z.to_nat n) 0;
  mret (succeeded, None).

(** ** stopAndDelete *)

(** [stopAndDelete] hard-stops a server, waits for the stopped state, then
    deletes it with its storages. *)
Definition stopAndDelete (g : InstanceGroup) (uuid : string) : Prog (option error) :=
  r ← call (StopServer
              {| request.StopServerRequest_UUID := uuid;
                 request.StopType := request.ServerStopTypeHard |});
  match r with
  | inr err => mret (Some (Errorf_w ("stopping server " +:+ uuid +:+ ": ") err))
  | inl _ =>
      r ← call (WaitForServerState
                  {| request.WaitForServerStateRequest_UUID := uuid;
                     request.DesiredState := upcloud.ServerStateStopped |});
      match r with
      | inr err =>
          mret (Some (Errorf_w ("waiting for server " +:+ uuid +:+ " to stop: ") err))
      | inl _ =>
          r ← call (DeleteServerAndStorages
                      {| request.DeleteServerAndStoragesRequest_UUID := uuid |});
          match r with
          | Some err => mret (Some (Errorf_w ("deleting server " +:+ uuid +:+ ": ") err))
          | None =>
              _ ← log LevelInfo "removed instance" [LStr "uuid"; LStr uuid];
              mret None
          end
      end
  end.

(** ** ConnectInfo *)

Definition set_OS (c : provider.ConnectorConfig) (v : string) : provider.ConnectorConfig :=
  {| provider.OS := v; provider.Arch := provider.Arch c;
     provider.Protocol := provider.Protocol c;
     provider.ProtocolPort := provider.ProtocolPort c;
     provider.Username := provider.Username c;
     provider.Password := provider.Password c;
     provider.Key := provider.Key c;
     provider.UseStaticCredentials := provider.UseStaticCredentials c;
     provider.Keepalive := provider.Keepalive c;
     provider.Timeout := provider.Timeout c |}.

Definition set_Arch (c : provider.ConnectorConfig) (v : string) : provider.ConnectorConfig :=
  {| provider.OS := provider.OS c; provider.Arch := v;
     provider.Protocol := provider.Protocol c;
     provider.ProtocolPort := provider.ProtocolPort c;
     provider.Username := provider.Username c;
     provider.Password := provider.Password c;
     provider.Key := provider.Key c;
     provider.UseStaticCredentials := provider.UseStaticCredentials c;
     provider.Keepalive := provider.Keepalive c;
     provider.Timeout := provider.Timeout c |}.

Definition set_Protocol (c : provider.ConnectorConfig) (v : string) : provider.ConnectorConfig :=
  {| provider.OS := provider.OS c; provider.Arch := provider.Arch c;
     provider.Protocol := v;
     provider.ProtocolPort := provider.ProtocolPort c;
     provider.Username := provider.Username c;
     provider.Password := provider.Password c;
     provider.Key := provider.Key c;
     provider.UseStaticCredentials := provider.UseStaticCredentials c;
     provider.Keepalive := provider.Keepalive c;
     provider.Timeout := provider.Timeout c |}.

Definition set_ConnectorConfig (info : provider.ConnectInfo)
    (c : provider.ConnectorConfig) : provider.ConnectInfo :=
  {| provider.ConnectInfo_ConnectorConfig := c;
     provider.ID := provider.ID info;
     provider.ExternalAddr := provider.ExternalAddr info;
     provider.InternalAddr := provider.InternalAddr info;
     provider.Expires := provider.Expires info |}.

Definition set_ID (info : provider.ConnectInfo) (v : string) : provider.ConnectInfo :=
  {| provider.ConnectInfo_ConnectorConfig := provider.ConnectInfo_ConnectorConfig info;
     provider.ID := v;
     provider.ExternalAddr := provider.ExternalAddr info;
     provider.InternalAddr := provider.InternalAddr info;
     provider.Expires := provider.Expires info |}.

Definition set_ExternalAddr (info : provider.ConnectInfo) (v : string) : provider.ConnectInfo :=
  {| provider.ConnectInfo_ConnectorConfig := provider.ConnectInfo_ConnectorConfig info;
     provider.ID := provider.ID info;
     provider.ExternalAddr := v;
     provider.InternalAddr := provider.InternalAddr info;
     provider.Expires := provider.Expires info |}.

Definition set_InternalAddr (info : provider.ConnectInfo) (v : string) : provider.ConnectInfo :=
  {| provider.ConnectInfo_ConnectorConfig := provider.ConnectInfo_ConnectorConfig info;
     provider.ID := provider.ID info;
     provider.ExternalAddr := provider.ExternalAddr info;
     provider.InternalAddr := v;
     provider.Expires := provider.Expires info |}.

(** The defaults applied when the runner's connector_config left them unset. *)
Definition applyDefaults (info : provider.ConnectInfo) : provider.ConnectInfo :=
  let cc := provider.ConnectInfo_ConnectorConfig in
  let info := if isEmpty (provider.OS (cc info))
              then set_ConnectorConfig info (set_OS (cc info) "linux") else info in
  let info := if isEmpty (provider.Arch (cc info))
              then set_ConnectorConfig info (set_Arch (cc info) "amd64") else info in
  let info := if isEmpty (provider.Protocol (cc info))
              then set_ConnectorConfig info (set_Protocol (cc info) provider.ProtocolSSH)
              else info in
  info.

(** One iteration of the loop over [details.IPAddresses]. *)
Definition scanIP (info : provider.ConnectInfo) (ip : upcloud.IPAddress)
  : provider.ConnectInfo :=
  if negb (bool_decide (upcloud.Family ip = upcloud.IPAddressFamilyIPv4)) then info
  else if bool_decide (upcloud.Access ip = upcloud.IPAddressAccessPublic) then
    set_ExternalAddr info (upcloud.Address ip)
  else if bool_decide (upcloud.Access ip = upcloud.IPAddressAccessPrivate) then
    set_InternalAddr info (upcloud.Address ip)
  else info.

(** [info := provider.ConnectInfo{ConnectorConfig: g.settings.ConnectorConfig}]
    followed by [info.ID = id]. *)
Definition initialInfo (g : InstanceGroup) (id : string) : provider.ConnectInfo :=
  let info :=
    {| provider.ConnectInfo_ConnectorConfig := provider.Settings_ConnectorConfig (settings g);
       provider.ID := ""; provider.ExternalAddr := ""; provider.InternalAddr := "";
       provider.Expires := None |} in
  set_ID info id.

(** [if g.UsePrivateNetwork && info.InternalAddr != "" { ... }] *)
Definition preferPrivate (g : InstanceGroup) (info : provider.ConnectInfo)
  : provider.ConnectInfo :=
  if UsePrivateNetwork g && negb (isEmpty (provider.InternalAddr info))
  then set_ExternalAddr info (provider.InternalAddr info) else info.

(** [ConnectInfo] returns the connection details of one instance. *)
Definition ConnectInfo (g : InstanceGroup) (id : string)
  : Prog (provider.ConnectInfo * option error) :=
  let info := initialInfo g id in
  r ← call (GetServerDetails {| request.GetServerDetailsRequest_UUID := id |});
  match r with
  | inr err =>
      mret (info, Some (Errorf_w ("getting server details for " +:+ id +:+ ": ") err))
  | inl details =>
      let info := applyDefaults info in
      let info := fold_left scanIP (upcloud.IPAddresses details) info in
      let info := preferPrivate g info in
      mret (info, None)
  end.

(** ** Heartbeat *)

(** [Heartbeat] checks whether an instance is still healthy. *)
Definition Heartbeat (g : InstanceGroup) (id : string) : Prog (option error) :=
  r ← call (GetServerDetails {| request.GetServerDetailsRequest_UUID := id |});
  match r with
  | inr err =>
      _ ← log LevelWarn "heartbeat API error (treating as healthy)"
            [LStr "uuid"; LStr id; LStr "error"; LErr err];
      mret None
  | inl details =>
      if bool_decide (upcloud.State (upcloud.ServerDetails_Server details)
                      = upcloud.ServerStateError)
      then mret (Some (errorString ("server " +:+ id +:+ " is in error state")))
      else mret None
  end.

(** ** Decrease

    [Decrease] starts one goroutine per instance and waits for all of them.
    The goroutines share the service, the logger and three variables of
    [Decrease]: the mutex [mu], the slice [succeeded] and [firstErr].

    A goroutine is a task: its instance and the point it has reached.  One
    step of a task is one external action, one operation on the mutex, or one
    read or write of a shared variable; a schedule, the list of task numbers
    in the order they are given a step, fixes the interleaving. *)

Inductive Point : Type :=
| Removing (p : Prog (option error)) (* inside [g.stopAndDelete(ctx, uuid)] *)
| LogFailed (err : error)            (* before [g.log.Error(...)] *)
| LockErr (err : error)              (* before [mu.Lock()], failure branch *)
| CheckFirstErr (err : error)        (* holding [mu], before [firstErr == nil] *)
| SetFirstErr (err : error)          (* holding [mu], before [firstErr = err] *)
| UnlockErr (err : error)            (* holding [mu], before [mu.Unlock()] *)
| LockOk                             (* before [mu.Lock()], success branch *)
| ReadSucceeded                      (* holding [mu], before reading [succeeded] *)
| WriteSucceeded (old : list string) (* holding [mu], before [succeeded = append(old, uuid)] *)
| UnlockOk                           (* holding [mu], before [mu.Unlock()] *)
| Done (r : option error).           (* returned; [r] is what [stopAndDelete] gave *)

Definition Task : Type := (string * Point)%type.

(** What the goroutines share: the environment with the trace of the actions
    performed so far, and the variables of [Decrease]. *)
Record Shared (S : Type) : Type :=
  { env : S;
    trace : list Event;
    mu : bool;
    succeeded : list string;
    firstErr : option error }.

Arguments env {S} _.
Arguments trace {S} _.
Arguments mu {S} _.
Arguments succeeded {S} _.
Arguments firstErr {S} _.

Record Pool (S : Type) : Type :=
  { shared : Shared S;
    tasks : list Task }.

Arguments shared {S} _.
Arguments tasks {S} _.

Definition isDone (t : Task) : bool :=
  match t.2 with Done _ => true | _ => false end.

Definition isRemoved (t : Task) : bool :=
  match t.2 with Done None => true | _ => false end.

(** The instances whose goroutine returned after a successful removal, and
    the errors of the goroutines that returned after a failed one. *)
Definition removed (ts : list Task) : list string :=
  (filter (fun t => isRemoved t = true) ts).*1.

Definition failure (t : Task) : option error :=
  match t.2 with Done r => r | _ => None end.

Definition failures (ts : list Task) : list error := omap failure ts.

Section Decrease.
Context {S : Type} `{!Env S}.

Definition perform (sh : Shared S) (a : action) : result a * Shared S :=
  let '(x, s') := handle a (env sh) in
  (x, {| env := s'; trace := trace sh ++ [event a x]; mu := mu sh;
         succeeded := succeeded sh; firstErr := firstErr sh |}).

Definition set_mu (sh : Shared S) (b : bool) : Shared S :=
  {| env := env sh; trace := trace sh; mu := b;
     succeeded := succeeded sh; firstErr := firstErr sh |}.

Definition set_succeeded (sh : Shared S) (l : list string) : Shared S :=
  {| env := env sh; trace := trace sh; mu := mu sh;
     succeeded := l; firstErr := firstErr sh |}.

Definition set_firstErr (sh : Shared S) (e : option error) : Shared S :=
  {| env := env sh; trace := trace sh; mu := mu sh;
     succeeded := succeeded sh; firstErr := e |}.

(** One step of a goroutine: its body, statement by statement.  [mu.Lock()]
    on a locked mutex does not advance. *)
Definition advance (sh : Shared S) (t : Task) : Shared S * Task :=
  let '(uuid, pt) := t in
  match pt with
  | Removing (Act a k) =>
      let '(x, sh') := perform sh a in (sh', (uuid, Removing (k x)))
  | Removing (Ret (Some err)) => (sh, (uuid, LogFailed err))
  | Removing (Ret None) => (sh, (uuid, LockOk))
  | LogFailed err =>
      let '(_, sh') :=
        perform sh (Log LevelError "failed to remove instance"
                      [LStr "uuid"; LStr uuid; LStr "error"; LErr err]) in
      (sh', (uuid, LockErr err))
  | LockErr err =>
      if mu sh then (sh, t) else (set_mu sh true, (uuid, CheckFirstErr err))
  | CheckFirstErr err =>
      match firstErr sh with
      | None => (sh, (uuid, SetFirstErr err))
      | Some _ => (sh, (uuid, UnlockErr err))
      end
  | SetFirstErr err => (set_firstErr sh (Some err), (uuid, UnlockErr err))
  | UnlockErr err => (set_mu sh false, (uuid, Done (Some err)))
  | LockOk =>
      if mu sh then (sh, t) else (set_mu sh true, (uuid, ReadSucceeded))
  | ReadSucceeded => (sh, (uuid, WriteSucceeded (succeeded sh)))
  | WriteSucceeded old => (set_succeeded sh (old ++ [uuid]), (uuid, UnlockOk))
  | UnlockOk => (set_mu sh false, (uuid, Done None))
  | Done _ => (sh, t)
  end.

(** The scheduler gives goroutine [i] one step. *)
Definition step (i : nat) (st : Pool S) : Pool S :=
  match tasks st !! i with
  | None => st
  | Some t =>
      let '(sh', t') := advance (shared st) t in
      {| shared := sh'; tasks := <[i := t']> (tasks st) |}
  end.

Definition exec (sched : list nat) (st : Pool S) : Pool S :=
  fold_left (fun st i => step i st) sched st.

(** The state when [Decrease] has started its goroutines. *)
Definition spawn (g : InstanceGroup) (instances : list string) (s : S) : Pool S :=
  {| shared := {| env := s; trace := []; mu := false;
                  succeeded := []; firstErr := None |};
     tasks := map (fun uuid => (uuid, Removing (stopAndDelete g uuid)) : Task)
                instances |}.

Definition finished (st : Pool S) : bool := forallb isDone (tasks st).

(** [Decrease] under the schedule [sched]: [wg.Wait()] returns once every
    goroutine has; [None] when the schedule ends before that. *)
Definition Decrease (g : InstanceGroup) (instances : list string)
    (sched : list nat) (s : S)
  : option (list string * option error * S * list Event) :=
  let st := exec sched (spawn g instances s) in
  if finished st
  then Some (succeeded (shared st), firstErr (shared st),
             env (shared st), trace (shared st))
  else None.

(** The schedule that runs the goroutines one after the other. *)
Definition oneByOne (n : nat) : list nat :=
  flat_map (fun i => replicate 9 i) (seq 0 n).

(** [k] steps of one goroutine, the others standing still. *)
Fixpoint advanceN (k : nat) (sh : Shared S) (t : Task) : Shared S * Task :=
  match k with
  | O => (sh, t)
  | Datatypes.S k' => let '(sh', t') := advance sh t in advanceN k' sh' t'
  end.

(** The goroutine returns after some number of steps, with the mutex free. *)
Definition drains (sh : Shared S) (t : Task) : Prop :=
  ∃ k sh' r, advanceN k sh t = (sh', (t.1, Done r)) ∧ mu sh' = false.

(** The log entry of a failed removal. *)
Definition failedEntry (uuid : string) (err : error) : Event :=
  EvLog LevelError "failed to remove instance"
    [LStr "uuid"; LStr uuid; LStr "error"; LErr err].

(** The shared state after the last statements of a goroutine whose
    [stopAndDelete] returned [r], run without interruption. *)
Definition conclude (sh : Shared S) (uuid : string) (r : option error) : Shared S :=
  match r with
  | Some err =>
      {| env := env sh;
         trace := trace sh ++ [failedEntry uuid err];
         mu := false;
         succeeded := succeeded sh;
         firstErr := match firstErr sh with
                     | None => Some err
                     | Some first => Some first
                     end |}
  | None =>
      {| env := env sh; trace := trace sh; mu := false;
         succeeded := succeeded sh ++ [uuid]; firstErr := firstErr sh |}
  end.

(** The shared state after actions that led to [s'] and left [tr]. *)
Definition after (sh : Shared S) (s' : S) (tr : list Event) : Shared S :=
  {| env := s'; trace := trace sh ++ tr; mu := mu sh;
     succeeded := succeeded sh; firstErr := firstErr sh |}.


End Decrease.

(** ** Reading a trace *)

(** The answers to the [CreateServer] calls of a trace, in order. *)
Definition createResults (tr : list Event) : list (upcloud.ServerDetails + error) :=
  omap (fun ev => match ev with EvCreateServer _ res => Some res | _ => None end) tr.

Definition isOk {A : Type} (res : A + error) : bool :=
  match res with inl _ => true | inr _ => false end.

(** The calls of a trace that reach the UpCloud service. *)
Definition isProviderCall (ev : Event) : bool :=
  match ev with
  | EvLog _ _ _ | EvIntn _ _ | EvObserve _ _ => false
  | _ => true
  end.

Definition providerCalls (tr : list Event) : list Event :=
  filter (fun ev => isProviderCall ev = true) tr.

(** The [CreateServer] calls of a trace that succeeded. *)
Definition successes (tr : list Event) : list (upcloud.ServerDetails + error) :=
  filter (fun res => isOk res = true) (createResults tr).

(** The observer calls of a trace, in order. *)
Definition observations (tr : list Event) : list (string * provider.State) :=
  omap (fun ev => match ev with
                  | EvObserve instance state => Some (instance, state)
                  | _ => None
                  end) tr.

(** [errors.Is(e, target)]: [target] is [e] or is wrapped by it. *)
Fixpoint errors_Is (e target : error) : bool :=
  bool_decide (e = target) ||
  match e with
  | errorString _ => false
  | wrapError _ err => errors_Is err target
  end.

(** ** The addresses of a server, as the specification words them

    The address of the last IPv4 entry of the given access kind; empty when
    the server has none. *)
Definition isIPv4 (ip : upcloud.IPAddress) : Prop :=
  upcloud.Family ip = upcloud.IPAddressFamilyIPv4.

#[global] Instance isIPv4_dec ip : Decision (isIPv4 ip).
Proof. unfold isIPv4. apply _. Defined.

Definition spec_lastAddr (access : string) (ips : list upcloud.IPAddress) : string :=
  default ""
    (last (upcloud.Address <$>
             filter (fun ip => isIPv4 ip ∧ upcloud.Access ip = access) ips)).

(** The two ways a validated group can authenticate, as the specification
    words them: a token, or a username with a password. *)
Definition tokenMode (g : InstanceGroup) : Prop := Token g ≠ "".
Definition passwordMode (g : InstanceGroup) : Prop :=
  Username g ≠ "" ∧ Password g ≠ "".
Definition exactlyOneAuthMode (g : InstanceGroup) : Prop :=
  (tokenMode g ∧ ¬ passwordMode g) ∨ (¬ tokenMode g ∧ passwordMode g).

(** What [validate] leaves in the group when it succeeds. *)
Definition defaulted (g : InstanceGroup) : InstanceGroup :=
  {| Token := Token g; Username := Username g; Password := Password g;
     Zone := Zone g; Template := Template g; Name := Name g;
     Plan := if decide (Plan g = "") then defaultPlan else Plan g;
     StorageSize := StorageSize g; StorageTier := StorageTier g;
     NamePrefix := if decide (NamePrefix g = "") then defaultNamePrefix else NamePrefix g;
     MaxSize := if decide (MaxSize g = 0) then defaultMaxSize else MaxSize g;
     UsePrivateNetwork := UsePrivateNetwork g; UserData := UserData g;
     settings := settings g; publicKey := publicKey g |}.

(** ** A test double

    The environment the examples run in, after [mockSvc] of the test suite:
    every method answers from the fields below. *)
Record mockSvc : Type :=
  { listing : upcloud.Servers + error;
    createCalls : Z;
    stopFails : list string;
    waitFails : list string;
    deleteFails : list string;
    details : upcloud.ServerDetails + error;
    seen : list (string * provider.State);
    seed : N }.

Definition noDetails : upcloud.ServerDetails :=
  {| upcloud.ServerDetails_Server := {| upcloud.UUID := ""; upcloud.State := "" |};
     upcloud.IPAddresses := [] |}.

Definition mockFailIf (uuid : string) (bad : list string) (msg : string)
  : upcloud.ServerDetails + error :=
  if bool_decide (uuid ∈ bad) then inr (errorString msg) else inl noDetails.

#[global] Instance mock_upcloudSvc : upcloudSvc mockSvc :=
  {| getAccount m := (inl {| upcloud.UserName := "test" |}, m);
     getServersWithFilters _ m := (listing m, m);
     (* every second call fails *)
     createServer _ m :=
       let calls := createCalls m + 1 in
       let m' := {| listing := listing m; createCalls := calls;
                    stopFails := stopFails m; waitFails := waitFails m;
                    deleteFails := deleteFails m; details := details m;
                    seen := seen m; seed := seed m |} in
       (if bool_decide (calls mod 2 = 0)
        then inr (errorString "quota exceeded") else inl noDetails, m');
     stopServer r m :=
       (mockFailIf (request.StopServerRequest_UUID r) (stopFails m) "stop failed", m);
     waitForServerState r m :=
       (mockFailIf (request.WaitForServerStateRequest_UUID r) (waitFails m)
          "wait failed", m);
     deleteServerAndStorages r m :=
       (if bool_decide (request.DeleteServerAndStoragesRequest_UUID r ∈ deleteFails m)
        then Some (errorString "delete failed") else None, m);
     getServerDetails _ m := (details m, m) |}.

#[global] Instance mock_Env : Env mockSvc :=
  {| env_svc := mock_upcloudSvc;
     randNext m :=
       (seed m,
        {| listing := listing m; createCalls := createCalls m;
           stopFails := stopFails m; waitFails := waitFails m;
           deleteFails := deleteFails m; details := details m;
           seen := seen m;
           seed := ((seed m * 1103515245 + 12345) mod 2147483648)%N |});
     observe instance state m :=
       {| listing := listing m; createCalls := createCalls m;
          stopFails := stopFails m; waitFails := waitFails m;
          deleteFails := deleteFails m; details := details m;
          seen := seen m ++ [(instance, state)];
          seed := seed m |} |}.

Definition newMockSvc : mockSvc :=
  {| listing := inl {| upcloud.Servers_Servers := [] |};
     createCalls := 0;
     stopFails := []; waitFails := []; deleteFails := [];
     details := inl noDetails;
     seen := []; seed := 42 |}.

(** [baseGroup] of the test suite. *)
Definition baseGroup : InstanceGroup :=
  {| Token := "test-token"; Username := ""; Password := "";
     Zone := "fi-hel1"; Template := "template-uuid"; Name := "test-group";
     Plan := defaultPlan; StorageSize := 0; StorageTier := "";
     NamePrefix := ""; MaxSize := 0; UsePrivateNetwork := false; UserData := "";
     settings := {| provider.Settings_ConnectorConfig := provider.zeroConnectorConfig |};
     publicKey := "" |}.

(** Groups of the test table of [validate]. *)
Definition tokenOnly : InstanceGroup :=
  {| Token := "tok"; Username := ""; Password := "";
     Zone := "z"; Template := "t"; Name := "n";
     Plan := ""; StorageSize := 0; StorageTier := "";
     NamePrefix := "ci"; MaxSize := 0; UsePrivateNetwork := false; UserData := "";
     settings := {| provider.Settings_ConnectorConfig := provider.zeroConnectorConfig |};
     publicKey := "" |}.

Definition tokenAndPassword : InstanceGroup :=
  {| Token := "tok"; Username := "u"; Password := "p";
     Zone := "z"; Template := "t"; Name := "n";
     Plan := ""; StorageSize := 0; StorageTier := "";
     NamePrefix := ""; MaxSize := 5; UsePrivateNetwork := false; UserData := "";
     settings := {| provider.Settings_ConnectorConfig := provider.zeroConnectorConfig |};
     publicKey := "" |}.

(** A service whose listing call fails, as in the test [TestUpdate_APIError]. *)
Definition mockListFails : mockSvc :=
  {| listing := inr (errorString "api error");
     createCalls := 0;
     stopFails := []; waitFails := []; deleteFails := [];
     details := inl noDetails;
     seen := []; seed := 42 |}.

(** A service that lists two servers, as in the test [TestUpdate]. *)
Definition mockListsTwo : mockSvc :=
  {| listing :=
       inl {| upcloud.Servers_Servers :=
                [ {| upcloud.UUID := "uuid-1"; upcloud.State := "started" |};
                  {| upcloud.UUID := "uuid-2"; upcloud.State := "stopped" |} ] |};
     createCalls := 0;
     stopFails := []; waitFails := []; deleteFails := [];
     details := inl noDetails;
     seen := []; seed := 42 |}.

(** The request [Update] lists the group with. *)
Definition listReq (g : InstanceGroup) : request.GetServersWithFiltersRequest :=
  {| request.Filters :=
       [request.FilterLabel
          {| upcloud.Key := groupLabelKey; upcloud.Value := Name g |}] |}.

(** What the observer is told about a listed server. *)
Definition report (s : upcloud.Server) : string * provider.State :=
  (upcloud.UUID s, mapServerState (upcloud.State s)).

(** The observer call for a listed server: its effect on the environment
    and its entry in the trace. *)
Definition tell {S : Type} `{!Env S} (s : S) (srv : upcloud.Server) : S :=
  observe (report srv).1 (report srv).2 s.

Definition told (srv : upcloud.Server) : Event :=
  EvObserve (report srv).1 (report srv).2.

(** A server in the error state, a healthy one, and an unreachable service,
    as in the tests of [Heartbeat]. *)
Definition detailsInState (state : string) : upcloud.ServerDetails :=
  {| upcloud.ServerDetails_Server := {| upcloud.UUID := "uuid-1"; upcloud.State := state |};
     upcloud.IPAddresses := [] |}.

Definition mockWithDetails (d : upcloud.ServerDetails + error) : mockSvc :=
  {| listing := inl {| upcloud.Servers_Servers := [] |};
     createCalls := 0;
     stopFails := []; waitFails := []; deleteFails := [];
     details := d;
     seen := []; seed := 42 |}.

(** The request [ConnectInfo] and [Heartbeat] fetch the details with. *)
Definition detailsReq (id : string) : request.GetServerDetailsRequest :=
  {| request.GetServerDetailsRequest_UUID := id |}.

(** Address lists for the tests of [ConnectInfo]. *)
Definition ipv4 (access address : string) : upcloud.IPAddress :=
  {| upcloud.Access := access; upcloud.Address := address;
     upcloud.Family := upcloud.IPAddressFamilyIPv4 |}.

Definition ipv6 (access address : string) : upcloud.IPAddress :=
  {| upcloud.Access := access; upcloud.Address := address;
     upcloud.Family := upcloud.IPAddressFamilyIPv6 |}.

Definition detailsWith (ips : list upcloud.IPAddress) : upcloud.ServerDetails :=
  {| upcloud.ServerDetails_Server := {| upcloud.UUID := "uuid-1"; upcloud.State := "started" |};
     upcloud.IPAddresses := ips |}.

Definition privateGroup : InstanceGroup :=
  {| Token := "test-token"; Username := ""; Password := "";
     Zone := "fi-hel1"; Template := "template-uuid"; Name := "test-group";
     Plan := defaultPlan; StorageSize := 0; StorageTier := "";
     NamePrefix := ""; MaxSize := 0; UsePrivateNetwork := true; UserData := "";
     settings := {| provider.Settings_ConnectorConfig := provider.zeroConnectorConfig |};
     publicKey := "" |}.

Definition twoOfEachKind : list upcloud.IPAddress :=
  [ ipv4 "public" "1.2.3.4"; ipv4 "private" "10.0.0.5"; ipv6 "public" "2001:db8::1";
    ipv4 "public" "5.6.7.8"; ipv4 "utility" "172.16.0.1"; ipv4 "private" "10.0.0.9" ].

Definition onlyIPv6 : list upcloud.IPAddress :=
  [ ipv6 "public" "2001:db8::1"; ipv6 "private" "fd00::1" ].

(** The three requests of [stopAndDelete]. *)
Definition stopReq (uuid : string) : request.StopServerRequest :=
  {| request.StopServerRequest_UUID := uuid;
     request.StopType := request.ServerStopTypeHard |}.

Definition waitReq (uuid : string) : request.WaitForServerStateRequest :=
  {| request.WaitForServerStateRequest_UUID := uuid;
     request.DesiredState := upcloud.ServerStateStopped |}.

Definition deleteReq (uuid : string) : request.DeleteServerAndStoragesRequest :=
  {| request.DeleteServerAndStoragesRequest_UUID := uuid |}.

(** A service on which removing "uuid-bad" fails at the stop, "uuid-hang" at
    the wait and "uuid-stuck" at the delete, after [TestDecrease_PartialFailure]. *)
Definition mockRemovals : mockSvc :=
  {| listing := inl {| upcloud.Servers_Servers := [] |};
     createCalls := 0;
     stopFails := ["uuid-bad"]; waitFails := ["uuid-hang"];
     deleteFails := ["uuid-stuck"];
     details := inl noDetails;
     seen := []; seed := 42 |}.

(** ** What a task has done so far

    [holdsMu]: the task is between its [mu.Lock()] and its [mu.Unlock()];
    [hasAppended]: it has appended its instance to [succeeded];
    [hasReported]: it has passed the update of [firstErr] with this error. *)
Definition holdsMu (t : Task) : bool :=
  match t.2 with
  | CheckFirstErr _ | SetFirstErr _ | UnlockErr _
  | ReadSucceeded | WriteSucceeded _ | UnlockOk => true
  | _ => false
  end.

Definition hasAppended (t : Task) : bool :=
  match t.2 with
  | UnlockOk | Done None => true
  | _ => false
  end.

Definition hasReported (t : Task) : option error :=
  match t.2 with
  | UnlockErr err | Done (Some err) => Some err
  | _ => None
  end.

(** The invariant of the pool: at most one task is inside the mutex, and it
    is there exactly when [mu] is locked; [succeeded] holds the instances of
    the tasks that have appended; a task about to write [succeeded] or
    [firstErr] has read the current value; and [firstErr] is set exactly when
    some task has reported, to the error of one that has. *)
Record PoolInv {S : Type} (sh : Shared S) (ts : list Task) : Prop :=
  { inv_mu :
      length (filter (fun t => holdsMu t = true) ts) = if mu sh then 1%nat else 0%nat;
    inv_succeeded :
      succeeded sh ≡ₚ (filter (fun t => hasAppended t = true) ts).*1;
    inv_write :
      Forall (fun t : Task => ∀ old, t.2 = WriteSucceeded old → old = succeeded sh) ts;
    inv_set :
      Forall (fun t : Task => ∀ err, t.2 = SetFirstErr err → firstErr sh = None) ts;
    inv_reported :
      Forall (fun t : Task => hasReported t ≠ None → firstErr sh ≠ None) ts;
    inv_first :
      ∀ err, firstErr sh = Some err → Exists (fun t => hasReported t = Some err) ts }.

(** Two interleavings of two goroutines, and the instances of the test
    [TestDecrease_PartialFailure]. *)
Definition takingTurns : list nat := flat_map (fun _ => [1; 0]%nat) (seq 0 12).
Definition lastFirst : list nat := replicate 9 1%nat ++ replicate 9 0%nat.
Definition okAndBad : list string := ["uuid-ok"; "uuid-bad"].

(** ** The stages of a removal

    What is left of [stopAndDelete] after the stop, after the wait and after
    the delete have succeeded. *)
Definition afterDelete (uuid : string) : Prog (option error) :=
  _ ← log LevelInfo "removed instance" [LStr "uuid"; LStr uuid];
  mret None.

Definition deleteStage (uuid : string) : Prog (option error) :=
  r ← call (DeleteServerAndStorages (deleteReq uuid));
  match r with
  | Some err => mret (Some (Errorf_w ("deleting server " +:+ uuid +:+ ": ") err))
  | None => afterDelete uuid
  end.

Definition waitStage (uuid : string) : Prog (option error) :=
  r ← call (WaitForServerState (waitReq uuid));
  match r with
  | inr err =>
      mret (Some (Errorf_w ("waiting for server " +:+ uuid +:+ " to stop: ") err))
  | inl _ => deleteStage uuid
  end.

(** A task inside [stopAndDelete] is at its start, at one of these stages, or
    about to return. *)
Definition wellStaged (g : InstanceGroup) (t : Task) : Prop :=
  match t.2 with
  | Removing p =>
      p = stopAndDelete g t.1 ∨ p = waitStage t.1 ∨ p = deleteStage t.1 ∨
      p = afterDelete t.1 ∨ ∃ r, p = Ret r
  | _ => True
  end.

(** The task's delete call has succeeded; one of the task's calls has
    failed. *)
Definition pastDelete (t : Task) : bool :=
  match t.2 with
  | Removing (Ret None) | Removing (Act (Log _ _ _) _)
  | LockOk | ReadSucceeded | WriteSucceeded _ | UnlockOk | Done None => true
  | _ => false
  end.

Definition pastFailure (t : Task) : bool :=
  match t.2 with
  | Removing (Ret (Some _)) | LogFailed _ | LockErr _
  | CheckFirstErr _ | SetFirstErr _ | UnlockErr _ | Done (Some _) => true
  | _ => false
  end.

(** The instances a trace shows deleted, and the instances it shows a failed
    stop, wait or delete for, in the order of the calls. *)
Definition deletedOf (ev : Event) : option string :=
  match ev with
  | EvDeleteServerAndStorages r None =>
      Some (request.DeleteServerAndStoragesRequest_UUID r)
  | _ => None
  end.

Definition failedOf (ev : Event) : option string :=
  match ev with
  | EvStopServer r (inr _) => Some (request.StopServerRequest_UUID r)
  | EvWaitForServerState r (inr _) => Some (request.WaitForServerStateRequest_UUID r)
  | EvDeleteServerAndStorages r (Some _) =>
      Some (request.DeleteServerAndStoragesRequest_UUID r)
  | _ => None
  end.

Definition deleted (tr : list Event) : list string := omap deletedOf tr.
Definition failedRemovals (tr : list Event) : list string := omap failedOf tr.

(** The trace accounts for the tasks: an instance is shown deleted once per
    task past its delete, and shown failed once per task past a failure. *)
Record TraceInv {S : Type} (g : InstanceGroup) (sh : Shared S) (ts : list Task) : Prop :=
  { inv_staged : Forall (wellStaged g) ts;
    inv_deleted : deleted (trace sh) ≡ₚ (filter (fun t => pastDelete t = true) ts).*1;
    inv_failed :
      failedRemovals (trace sh) ≡ₚ (filter (fun t => pastFailure t = true) ts).*1 }.

(** The error a task's [stopAndDelete] has returned, once it has. *)
Definition failedWith (t : Task) : option error :=
  match t.2 with
  | Removing (Ret (Some err)) | LogFailed err | LockErr err
  | CheckFirstErr err | SetFirstErr err | UnlockErr err | Done (Some err) => Some err
  | _ => None
  end.

(** The trace explains the error [e] for the instance [uuid]: it shows a
    stop, a wait or a delete of that instance failing, and [e] wraps that
    failure under the name of the step and the instance. *)
Definition explains (tr : list Event) (uuid : string) (e : error) : Prop :=
  ∃ err,
    (EvStopServer (stopReq uuid) (inr err) ∈ tr ∧
     e = Errorf_w ("stopping server " +:+ uuid +:+ ": ") err) ∨
    (EvWaitForServerState (waitReq uuid) (inr err) ∈ tr ∧
     e = Errorf_w ("waiting for server " +:+ uuid +:+ " to stop: ") err) ∨
    (EvDeleteServerAndStorages (deleteReq uuid) (Some err) ∈ tr ∧
     e = Errorf_w ("deleting server " +:+ uuid +:+ ": ") err).

Definition Explained {S : Type} (sh : Shared S) (ts : list Task) : Prop :=
  Forall (fun t : Task => ∀ e, failedWith t = Some e → explains (trace sh) t.1 e) ts.

(** ** Init

    [plugin.VersionInfo] and [provider.ProviderInfo] belong to the fleeting
    packages; they have the fields the plugin sets. *)
Record VersionInfo : Type :=
  { VersionInfo_Name : string;
    VersionInfo_Version : string;
    VersionInfo_Revision : string;
    VersionInfo_Reference : string;
    VersionInfo_BuiltAt : string }.

Record ProviderInfo : Type :=
  { ProviderInfo_ID : string;
    ProviderInfo_MaxSize : Z;
    ProviderInfo_Version : string;
    ProviderInfo_BuildInfo : string }.

(** [provider.ProviderInfo{}] *)
Definition noProviderInfo : ProviderInfo :=
  {| ProviderInfo_ID := ""; ProviderInfo_MaxSize := 0;
     ProviderInfo_Version := ""; ProviderInfo_BuildInfo := "" |}.

(** [Version] of version.go; the three build variables are set by the linker
    and default to "dev", "unknown" and "unknown". *)
Definition Version (buildVersion buildCommit buildDate : string) : VersionInfo :=
  {| VersionInfo_Name := "fleeting-plugin-upcloud";
     VersionInfo_Version := buildVersion;
     VersionInfo_Revision := buildCommit;
     VersionInfo_Reference := "gitlab.com/kirbo/fleeting-plugin-upcloud";
     VersionInfo_BuiltAt := buildDate |}.

Definition set_settings (g : InstanceGroup) (v : provider.Settings) : InstanceGroup :=
  {| Token := Token g; Username := Username g; Password := Password g;
     Zone := Zone g; Template := Template g; Name := Name g;
     Plan := Plan g;
     StorageSize := StorageSize g; StorageTier := StorageTier g;
     NamePrefix := NamePrefix g; MaxSize := MaxSize g;
     UsePrivateNetwork := UsePrivateNetwork g; UserData := UserData g;
     settings := v; publicKey := publicKey g |}.

Definition set_publicKey (g : InstanceGroup) (v : string) : InstanceGroup :=
  {| Token := Token g; Username := Username g; Password := Password g;
     Zone := Zone g; Template := Template g; Name := Name g;
     Plan := Plan g;
     StorageSize := StorageSize g; StorageTier := StorageTier g;
     NamePrefix := NamePrefix g; MaxSize := MaxSize g;
     UsePrivateNetwork := UsePrivateNetwork g; UserData := UserData g;
     settings := settings g; publicKey := v |}.

Section Init.
(** Modelled from the spec: SSH key parsing, a pure function from the bytes of
    a private key to the authorized-key line of its public key, failing on
    malformed input ([ssh.ParsePrivateKey], then [ssh.MarshalAuthorizedKey] of
    the signer's public key). *)
Variable authorizedKey : list Byte.byte -> string + error.
Variable version : VersionInfo.

(** The end of [Init], from [g.svc = newUpcloudService(g.newClient())] on: the
    credentials are checked with [GetAccount].  The service handle made from
    [g.newClient()] is the environment the actions run in. *)
Definition Init_connect (g : InstanceGroup)
  : Prog (ProviderInfo * option error * InstanceGroup) :=
  r ← call GetAccount;
  match r with
  | inr err =>
      mret (noProviderInfo, Some (Errorf_w "authenticating with UpCloud API: " err), g)
  | inl _ =>
      _ ← log LevelInfo "initialized"
            [LStr "zone"; LStr (Zone g); LStr "group"; LStr (Name g);
             LStr "plan"; LStr (Plan g)];
      mret ({| ProviderInfo_ID := "upcloud/" +:+ Zone g +:+ "/" +:+ Name g;
               ProviderInfo_MaxSize := MaxSize g;
               ProviderInfo_Version := VersionInfo_Version version;
               ProviderInfo_BuildInfo :=
                 VersionInfo_Name version +:+ "@"
                 +:+ VersionInfo_Revision version +:+ " built "
                 +:+ VersionInfo_BuiltAt version |},
            None, g)
  end.

Definition noKeyWarning : string :=
  "no SSH key configured in connector_config.key_path; "
  +:+ "instances will be created without SSH key injection".

(** [Init] validates the configuration, derives the SSH public key and checks
    the credentials.  The receiver is a pointer: the group after the call is
    returned with the result. *)
Definition Init (g : InstanceGroup) (settings : provider.Settings)
  : Prog (ProviderInfo * option error * InstanceGroup) :=
  let g := set_settings g settings in
  let '(err, g) := validate g in
  match err with
  | Some err => mret (noProviderInfo, Some err, g)
  | None =>
      let key := provider.Key (provider.Settings_ConnectorConfig settings) in
      if bool_decide (0 < Z.of_nat (length key)) then
        match authorizedKey key with
        | inr err =>
            mret (noProviderInfo,
                  Some (Errorf_w "parsing SSH private key from connector_config: " err),
                  g)
        | inl publicKey => Init_connect (set_publicKey g publicKey)
        end
      else
        _ ← log LevelWarn noKeyWarning [];
        Init_connect g
  end.

End Init.

(** [Shutdown] performs cleanup before the plugin exits. *)
Definition Shutdown : Prog (option error) := mret None.

(** ** Reading strings and traces, continued *)

(** The bytes of a string. *)
Definition letters (s : string) : list Ascii.ascii := String.list_ascii_of_string s.

(** A string of [n] bytes, each one of [chars]. *)
Definition isSuffix (n : nat) (s : string) : Prop :=
  length (letters s) = n ∧ Forall (fun c => c ∈ letters chars) (letters s).

(** The [CreateServer] calls of a trace, with their answers, in order. *)
Definition createAttempts (tr : list Event)
  : list (request.CreateServerRequest * (upcloud.ServerDetails + error)) :=
  omap (fun ev => match ev with
                  | EvCreateServer r res => Some (r, res)
                  | _ => None
                  end) tr.

(** The log entry [Increase] writes after a [CreateServer] call. *)
Definition createEntry (r : request.CreateServerRequest)
    (res : upcloud.ServerDetails + error) : Event :=
  match res with
  | inr err =>
      EvLog LevelError "failed to create server"
        [LStr "hostname"; LStr (request.Hostname r); LStr "error"; LErr err]
  | inl _ =>
      EvLog LevelInfo "created server" [LStr "hostname"; LStr (request.Hostname r)]
  end.

Definition isDraw (ev : Event) : bool :=
  match ev with EvIntn _ _ => true | _ => false end.

(** The labels a listing request filters by. *)
Definition filterLabels (r : request.GetServersWithFiltersRequest) : list upcloud.Label :=
  (fun f => match f with request.FilterLabel l => l end) <$> request.Filters r.

(** A trace without its random draws. *)
Definition withoutDraws (tr : list Event) : list Event :=
  filter (fun ev => isDraw ev = false) tr.

(** What [Increase] leaves in the trace for a list of [CreateServer] calls:
    each call, followed by its log entry. *)
Definition createTranscript
    (calls : list (request.CreateServerRequest * (upcloud.ServerDetails + error)))
  : list Event :=
  concat ((fun c => [EvCreateServer c.1 c.2; createEntry c.1 c.2]) <$> calls).

(** A request [Increase] builds for the group: its hostname is the name
    prefix, a dash and a suffix of eight characters of [chars]. *)
Definition ownRequest (g : InstanceGroup)
    (c : request.CreateServerRequest * (upcloud.ServerDetails + error)) : Prop :=
  ∃ suffix, isSuffix 8 suffix ∧ c.1 = createReq g (NamePrefix g +:+ "-" +:+ suffix).

(** The address entries the loop of [ConnectInfo] reads: IPv4, with public
    or private access. *)
Definition isRoutable (ip : upcloud.IPAddress) : Prop :=
  isIPv4 ip ∧ (upcloud.Access ip = "public" ∨ upcloud.Access ip = "private").

#[global] Instance isRoutable_dec ip : Decision (isRoutable ip).
Proof. unfold isRoutable. apply _. Defined.

(** A connector configuration with the three defaults of [ConnectInfo]. *)
Definition withDefaults (c : provider.ConnectorConfig) : provider.ConnectorConfig :=
  {| provider.OS := if decide (provider.OS c = "") then "linux" else provider.OS c;
     provider.Arch := if decide (provider.Arch c = "") then "amd64" else provider.Arch c;
     provider.Protocol :=
       if decide (provider.Protocol c = "") then "ssh" else provider.Protocol c;
     provider.ProtocolPort := provider.ProtocolPort c;
     provider.Username := provider.Username c;
     provider.Password := provider.Password c;
     provider.Key := provider.Key c;
     provider.UseStaticCredentials := provider.UseStaticCredentials c;
     provider.Keepalive := provider.Keepalive c; provider.Timeout := provider.Timeout c |}.

(** The warning [Heartbeat] logs when the details cannot be fetched. *)
Definition heartbeatWarning (id : string) (err : error) : Event :=
  EvLog LevelWarn "heartbeat API error (treating as healthy)"
    [LStr "uuid"; LStr id; LStr "error"; LErr err].

(** [twoOfEachKind] without the entries [ConnectInfo] does not read. *)
Definition routableOnly : list upcloud.IPAddress :=
  [ ipv4 "public" "1.2.3.4"; ipv4 "private" "10.0.0.5";
    ipv4 "public" "5.6.7.8"; ipv4 "private" "10.0.0.9" ].

(** ** Test doubles for Init

    A service that refuses the credentials: every method answers with the
    same error, and nothing is remembered. *)
Inductive lockedOut : Type := LockedOut.

Definition invalidCredentials : error := errorString "invalid credentials".

#[global] Instance lockedOut_upcloudSvc : upcloudSvc lockedOut :=
  {| getAccount m := (inr invalidCredentials, m);
     getServersWithFilters _ m := (inr invalidCredentials, m);
     createServer _ m := (inr invalidCredentials, m);
     stopServer _ m := (inr invalidCredentials, m);
     waitForServerState _ m := (inr invalidCredentials, m);
     deleteServerAndStorages _ m := (Some invalidCredentials, m);
     getServerDetails _ m := (inr invalidCredentials, m) |}.

#[global] Instance lockedOut_Env : Env lockedOut :=
  {| env_svc := lockedOut_upcloudSvc;
     randNext m := (0%N, m);
     observe _ _ m := m |}.

(** A key parser for the examples: it refuses the key of the test suite and
    answers every other key with one authorized-key line. *)
Definition notAKey : list Byte.byte := String.list_byte_of_string "not-a-valid-pem-key".

Definition someKey : list Byte.byte := String.list_byte_of_string "a-private-key".

Definition testPublicKey : string := "ssh-ed25519 AAAAC3NzaC1lZDI1NTE5 test".

#[global] Instance byte_eq_dec : EqDecision Byte.byte := Byte.byte_eq_dec.

Definition mockAuthorizedKey (key : list Byte.byte) : string + error :=
  if decide (key = notAKey) then inr (errorString "ssh: no key found")
  else inl testPublicKey.

Definition keySettings (key : list Byte.byte) : provider.Settings :=
  {| provider.Settings_ConnectorConfig :=
       {| provider.OS := ""; provider.Arch := ""; provider.Protocol := "";
          provider.ProtocolPort := 0;
          provider.Username := "root"; provider.Password := ""; provider.Key := key;
          provider.UseStaticCredentials := false;
          provider.Keepalive := 0; provider.Timeout := 0 |} |}.

Definition devVersion : VersionInfo := Version "dev" "unknown" "unknown".

(** The group [Init] leaves behind when it succeeds, from the validated group
    [g'], the settings and the parsed key, if one is configured. *)
Definition initialized (g' : InstanceGroup) (st : provider.Settings)
    (pk : option string) : InstanceGroup :=
  match pk with
  | Some pk => set_publicKey (set_settings g' st) pk
  | None => set_settings g' st
  end.

(** What the key parser makes of the key of the settings: nothing when no
    key is configured. *)
Definition parsedKey (authorizedKey : list Byte.byte -> string + error)
    (st : provider.Settings) : option (string + error) :=
  let key := provider.Key (provider.Settings_ConnectorConfig st) in
  if decide (key = []) then None else Some (authorizedKey key).


(** ** The calls of a removal

    The instances a trace shows a stop, a wait and a delete call for, and
    those it shows stopped and awaited (the call succeeded), in the order of
    the calls. *)
Definition stopCallOf (ev : Event) : option string :=
  match ev with
  | EvStopServer r _ => Some (request.StopServerRequest_UUID r)
  | _ => None
  end.

Definition stoppedOf (ev : Event) : option string :=
  match ev with
  | EvStopServer r (inl _) => Some (request.StopServerRequest_UUID r)
  | _ => None
  end.

Definition waitCallOf (ev : Event) : option string :=
  match ev with
  | EvWaitForServerState r _ => Some (request.WaitForServerStateRequest_UUID r)
  | _ => None
  end.

Definition awaitedOf (ev : Event) : option string :=
  match ev with
  | EvWaitForServerState r (inl _) => Some (request.WaitForServerStateRequest_UUID r)
  | _ => None
  end.

Definition deleteCallOf (ev : Event) : option string :=
  match ev with
  | EvDeleteServerAndStorages r _ =>
      Some (request.DeleteServerAndStoragesRequest_UUID r)
  | _ => None
  end.

Definition stopCalls (tr : list Event) : list string := omap stopCallOf tr.
Definition stopped (tr : list Event) : list string := omap stoppedOf tr.
Definition waitCalls (tr : list Event) : list string := omap waitCallOf tr.
Definition awaited (tr : list Event) : list string := omap awaitedOf tr.
Definition deleteCalls (tr : list Event) : list string := omap deleteCallOf tr.

(** The next step of the task is its stop, its wait, its delete call. *)
Definition atStop (t : Task) : bool :=
  match t.2 with Removing (Act (StopServer _) _) => true | _ => false end.

Definition atWait (t : Task) : bool :=
  match t.2 with Removing (Act (WaitForServerState _) _) => true | _ => false end.

Definition atDelete (t : Task) : bool :=
  match t.2 with Removing (Act (DeleteServerAndStorages _) _) => true | _ => false end.

(** The calls in the trace account for the tasks: every instance of [ids]
    has had its stop call or is about to; every stopped instance has had its
    wait call or is about to; every awaited instance has had its delete call
    or is about to. *)
Record CallInv {S : Type} (ids : list string) (sh : Shared S) (ts : list Task) : Prop :=
  { inv_stop : ids ≡ₚ stopCalls (trace sh) ++ (filter (fun t => atStop t = true) ts).*1;
    inv_wait :
      stopped (trace sh)
        ≡ₚ waitCalls (trace sh) ++ (filter (fun t => atWait t = true) ts).*1;
    inv_delete :
      awaited (trace sh)
        ≡ₚ deleteCalls (trace sh) ++ (filter (fun t => atDelete t = true) ts).*1 }.

(** Two removals on a service where the second hangs at the wait. *)
Definition okAndHang : list string := ["uuid-ok"; "uuid-hang"].

(** ** The log of a removal

    The instances a trace shows logged as removed (by [stopAndDelete]) and
    as failed to remove (by the goroutine of [Decrease]). *)
Definition removalLogOf (ev : Event) : option string :=
  match ev with
  | EvLog LevelInfo msg [LStr _; LStr uuid] =>
      if bool_decide (msg = "removed instance") then Some uuid else None
  | _ => None
  end.

Definition failureLogOf (ev : Event) : option string :=
  match ev with
  | EvLog LevelError msg [LStr _; LStr uuid; LStr _; LErr _] =>
      if bool_decide (msg = "failed to remove instance") then Some uuid else None
  | _ => None
  end.

Definition removalLogs (tr : list Event) : list string := omap removalLogOf tr.
Definition failureLogs (tr : list Event) : list string := omap failureLogOf tr.

(** The task has logged its removal; the task has logged its failure. *)
Definition hasLoggedRemoval (t : Task) : bool :=
  match t.2 with
  | Removing (Ret None) | LockOk | ReadSucceeded | WriteSucceeded _ | UnlockOk
  | Done None => true
  | _ => false
  end.

Definition hasLoggedFailure (t : Task) : bool :=
  match t.2 with
  | LockErr _ | CheckFirstErr _ | SetFirstErr _ | UnlockErr _ | Done (Some _) => true
  | _ => false
  end.

Record LogInv {S : Type} (sh : Shared S) (ts : list Task) : Prop :=
  { inv_removal_logs :
      removalLogs (trace sh) ≡ₚ (filter (fun t => hasLoggedRemoval t = true) ts).*1;
    inv_failure_logs :
      failureLogs (trace sh) ≡ₚ (filter (fun t => hasLoggedFailure t = true) ts).*1 }.

(** * Properties *)

(** ** mapServerState *)

(** C9: [mapServerState] is a function on all strings (it has no effect and
    always returns): "started" is Running, "stopped" and "error" are Deleted,
    and every other string, among them the empty one, "new" and
    "maintenance", is Creating. *)
Theorem mapServerState_table :
  mapServerState "started" = provider.StateRunning ∧
  mapServerState "stopped" = provider.StateDeleted ∧
  mapServerState "error" = provider.StateDeleted ∧
  (∀ s : string,
     s ≠ "started" → s ≠ "stopped" → s ≠ "error" →
     mapServerState s = provider.StateCreating) ∧
  mapServerState "" = provider.StateCreating ∧
  mapServerState "new" = provider.StateCreating ∧
  mapServerState "maintenance" = provider.StateCreating.
Proof.
  repeat split; try reflexivity.
  intros s Hstarted Hstopped Herror. unfold mapServerState.
  rewrite !bool_decide_eq_false_2; done.
Qed.

Lemma mapServerState_table_witness :
  mapServerState "new" = provider.StateCreating.
Proof.
  destruct mapServerState_table as (_ & _ & _ & Hother & _).
  apply Hother; discriminate.
Defined.

(** ** validate *)

Lemma isEmpty_true (s : string) : isEmpty s = true ↔ s = "".
Proof. unfold isEmpty. apply bool_decide_eq_true. Qed.

Lemma isEmpty_false (s : string) : isEmpty s = false ↔ s ≠ "".
Proof. unfold isEmpty. apply bool_decide_eq_false. Qed.

(** The credentials test of [validate] fails exactly when neither mode is
    complete. *)
Lemma auth_check (g : InstanceGroup) :
  isEmpty (Token g) && (isEmpty (Username g) || isEmpty (Password g)) = false
  ↔ tokenMode g ∨ passwordMode g.
Proof.
  unfold tokenMode, passwordMode.
  rewrite andb_false_iff, orb_false_iff, !isEmpty_false. tauto.
Qed.

Lemma validate_defaults (g : InstanceGroup) :
  (let g := if isEmpty (Plan g) then set_Plan g defaultPlan else g in
   let g := if isEmpty (NamePrefix g) then set_NamePrefix g defaultNamePrefix else g in
   let g := if bool_decide (MaxSize g = 0) then set_MaxSize g defaultMaxSize else g in
   g) = defaulted g.
Proof.
  destruct g as [tok usr pwd z tpl nm pl ssz st np ms upn ud se pk].
  unfold defaulted, isEmpty; cbn.
  destruct (decide (pl = "")), (decide (np = "")), (decide (ms = 0));
    repeat (case_bool_decide; cbn in * ); first [reflexivity | congruence].
Qed.

(** C7: [validate] checks, in this order, the credentials (a token, or a
    username with a password), the zone, the template and the name, and the
    first check that fails decides the error; the group is then left as it
    was.  Username alone, password alone and no credentials are rejected;
    token alone and username with password are accepted.  On success plan,
    namePrefix and maxSize get their defaults where they were unset and keep
    their values otherwise, and every other field, storage size and tier
    among them, is untouched. *)
Theorem validate_decides (g : InstanceGroup) :
  (* the credentials come first *)
  (¬ (tokenMode g ∨ passwordMode g) →
   validate g =
     (Some (errorString "either token or both username and password are required"), g)) ∧
  (Token g = "" → Password g = "" → (validate g).1 ≠ None) ∧
  (Token g = "" → Username g = "" → (validate g).1 ≠ None) ∧
  (* then zone, template, name *)
  (tokenMode g ∨ passwordMode g → Zone g = "" →
   validate g = (Some (errorString "zone is required"), g)) ∧
  (tokenMode g ∨ passwordMode g → Zone g ≠ "" → Template g = "" →
   validate g = (Some (errorString "template is required"), g)) ∧
  (tokenMode g ∨ passwordMode g → Zone g ≠ "" → Template g ≠ "" → Name g = "" →
   validate g = (Some (errorString "name is required"), g)) ∧
  (* and only then the defaults *)
  (tokenMode g ∨ passwordMode g → Zone g ≠ "" → Template g ≠ "" → Name g ≠ "" →
   validate g = (None, defaulted g) ∧
   Plan (defaulted g) = (if decide (Plan g = "") then "1xCPU-2GB" else Plan g) ∧
   NamePrefix (defaulted g)
     = (if decide (NamePrefix g = "") then "fleeting" else NamePrefix g) ∧
   MaxSize (defaulted g) = (if decide (MaxSize g = 0) then 100 else MaxSize g) ∧
   StorageSize (defaulted g) = StorageSize g ∧
   StorageTier (defaulted g) = StorageTier g).
Proof.
  assert (Hbad : ¬ (tokenMode g ∨ passwordMode g) →
                 validate g =
                   (Some (errorString
                      "either token or both username and password are required"), g)).
  { intros Hno. unfold validate.
    destruct (isEmpty (Token g) && (isEmpty (Username g) || isEmpty (Password g)))
      eqn:Hcheck; [reflexivity|].
    apply auth_check in Hcheck. contradiction. }
  split; [exact Hbad|].
  split.
  { intros Htok Hpwd. rewrite Hbad; [discriminate|].
    unfold tokenMode, passwordMode. tauto. }
  split.
  { intros Htok Husr. rewrite Hbad; [discriminate|].
    unfold tokenMode, passwordMode. tauto. }
  split; [|split; [|split]]; intros Hauth; apply auth_check in Hauth;
    unfold validate; rewrite Hauth.
  - intros ->%isEmpty_true. reflexivity.
  - intros ->%isEmpty_false ->%isEmpty_true. reflexivity.
  - intros ->%isEmpty_false ->%isEmpty_false ->%isEmpty_true. reflexivity.
  - intros ->%isEmpty_false ->%isEmpty_false ->%isEmpty_false.
    rewrite validate_defaults. repeat split; reflexivity.
Qed.

Lemma validate_decides_witness :
  validate tokenOnly = (None, defaulted tokenOnly) ∧
  Plan (defaulted tokenOnly) = "1xCPU-2GB" ∧
  NamePrefix (defaulted tokenOnly) = "ci" ∧
  MaxSize (defaulted tokenOnly) = 100.
Proof.
  destruct (validate_decides tokenOnly) as (_ & _ & _ & _ & _ & _ & Hok).
  destruct Hok as (Hv & Hplan & Hprefix & Hmax & _).
  - left. unfold tokenMode. cbn. discriminate.
  - cbn. discriminate.
  - cbn. discriminate.
  - cbn. discriminate.
  - repeat split; assumption.
Defined.

(** A group that [validate] accepts has credentials, and leaves as the
    defaulted group. *)
Lemma validate_success (g g' : InstanceGroup) :
  validate g = (None, g') → (tokenMode g ∨ passwordMode g) ∧ g' = defaulted g.
Proof.
  unfold validate.
  destruct (isEmpty (Token g) && (isEmpty (Username g) || isEmpty (Password g)))
    eqn:Hcheck; [discriminate|].
  apply auth_check in Hcheck.
  destruct (isEmpty (Zone g)); [discriminate|].
  destruct (isEmpty (Template g)); [discriminate|].
  destruct (isEmpty (Name g)); [discriminate|].
  rewrite validate_defaults. intros [= <-]. split; [exact Hcheck | reflexivity].
Qed.

(** C6, as stated, fails: a group that sets a token and also a username with
    a password passes [validate], with both modes set. *)
Lemma validate_accepts_both_modes :
  (validate tokenAndPassword).1 = None ∧
  ¬ exactlyOneAuthMode (validate tokenAndPassword).2.
Proof.
  split; [reflexivity|].
  unfold exactlyOneAuthMode, tokenMode, passwordMode; cbn.
  intros [[_ Hno] | [Hno _]]; apply Hno; [split|]; discriminate.
Qed.

(** C6, amended: on every group that [validate] accepts, plan, namePrefix and
    maxSize are afterwards non-empty and non-zero, and at least one
    authentication mode is set: a token, or a username with a password.  Both
    may be set; the client then authenticates with the token, and with the
    username and password only when no token is set. *)
Theorem validate_invariant (g g' : InstanceGroup) :
  validate g = (None, g') →
  Plan g' ≠ "" ∧ NamePrefix g' ≠ "" ∧ MaxSize g' ≠ 0 ∧
  (tokenMode g' ∨ passwordMode g') ∧
  (tokenMode g' → newClient g' = client.BearerAuth (Token g') 30) ∧
  (¬ tokenMode g' →
   passwordMode g' ∧ newClient g' = client.BasicAuth (Username g') (Password g') 30).
Proof.
  intros Hv.
  destruct (validate_success g g' Hv) as [Hauth ->]. clear Hv.
  unfold tokenMode, passwordMode, newClient, isEmpty in *; cbn.
  repeat split.
  - case_decide; [discriminate | assumption].
  - case_decide; [discriminate | assumption].
  - case_decide; [discriminate | assumption].
  - exact Hauth.
  - intros Htok. rewrite bool_decide_eq_false_2 by assumption. reflexivity.
  - destruct Hauth as [Htok | Hpw]; [contradiction | apply Hpw].
  - destruct Hauth as [Htok | Hpw]; [contradiction | apply Hpw].
  - destruct (decide (Token g = "")) as [-> | Htok]; [reflexivity | contradiction].
Qed.

Lemma validate_invariant_witness :
  Plan (defaulted tokenAndPassword) ≠ "" ∧
  newClient (defaulted tokenAndPassword) = client.BearerAuth "tok" 30.
Proof.
  destruct (validate_invariant tokenAndPassword (defaulted tokenAndPassword))
    as (Hplan & _ & _ & _ & Hclient & _).
  - reflexivity.
  - split; [exact Hplan|]. apply Hclient. unfold tokenMode. cbn. discriminate.
Defined.

Lemma errors_Is_refl (e : error) : errors_Is e e = true.
Proof. destruct e; cbn; rewrite bool_decide_eq_true_2; reflexivity. Qed.

(** ** Running programs *)

Section Run.
Context {S : Type} `{!Env S}.

Lemma run_bind {A B : Type} (p : Prog A) (f : A → Prog B) (s : S) :
  run (p ≫= f) s =
    let '(a, s1, t1) := run p s in
    let '(b, s2, t2) := run (f a) s1 in
    (b, s2, t1 ++ t2).
Proof.
  unfold mbind, Prog_bind. revert s.
  induction p as [a | a k IH]; intros s; cbn.
  - destruct (run (f a) s) as [[b s2] t2]. reflexivity.
  - destruct (handle a s) as [x s1]. rewrite IH.
    destruct (run (k x) s1) as [[a' s1'] t1].
    destruct (run (f a') s1') as [[b s2] t2]. reflexivity.
Qed.

Lemma run_call (a : action) (s : S) :
  run (call a) s = let '(x, s1) := handle a s in (x, s1, [event a x]).
Proof. cbn. destruct (handle a s) as [x s1]. reflexivity. Qed.

Lemma run_forEach_observer (l : list upcloud.Server) (s : S) :
  run (forEach l (fun srv => observer (report srv).1 (report srv).2)) s =
    (tt, fold_left tell l s, map told l).
Proof.
  revert s. induction l as [| srv l IH]; intros s; [reflexivity|].
  cbn [forEach]. rewrite run_bind. cbn [run observer call handle].
  rewrite IH. reflexivity.
Qed.

(** C4, amended: when the listing succeeds, [Update] calls the observer
    once per listed server, in the listing order, with the server's id and
    its mapped state, and returns nil (also for an empty list).  When the
    listing fails, [Update] returns an error that wraps the listing error
    under the message prefix "listing group servers: ", and the callback,
    whatever it is, is not called: the listing call is the only action. *)
Theorem Update_reports (g : InstanceGroup) (s : S) :
  (∀ servers s1,
     getServersWithFilters (listReq g) s = (inl servers, s1) →
     let l := upcloud.Servers_Servers servers in
     run (Update g observer) s =
       (None, fold_left tell l s1,
        EvGetServersWithFilters (listReq g) (inl servers) :: map told l) ∧
     observations (run (Update g observer) s).2 = map report l ∧
     (∀ fn,
        run (Update g fn) s =
          let '(_, s2, tr) :=
            run (forEach l (fun srv => fn (report srv).1 (report srv).2)) s1 in
          (None, s2, EvGetServersWithFilters (listReq g) (inl servers) :: tr))) ∧
  (∀ err s1 fn,
     getServersWithFilters (listReq g) s = (inr err, s1) →
     run (Update g fn) s =
       (Some (wrapError ("listing group servers: " +:+ Error err) err), s1,
        [EvGetServersWithFilters (listReq g) (inr err)]) ∧
     errors_Is (wrapError ("listing group servers: " +:+ Error err) err) err = true).
Proof.
  split.
  - intros servers s1 Hlist l.
    assert (Hany : ∀ fn,
              run (Update g fn) s =
                let '(_, s2, tr) :=
                  run (forEach l (fun srv => fn (report srv).1 (report srv).2)) s1 in
                (None, s2, EvGetServersWithFilters (listReq g) (inl servers) :: tr)).
    { intros fn. unfold Update. rewrite run_bind. cbn [run call handle].
      fold (listReq g). rewrite Hlist. rewrite run_bind. fold l.
      change (fun s0 : upcloud.Server =>
                fn (upcloud.UUID s0) (mapServerState (upcloud.State s0)))
        with (fun srv => fn (report srv).1 (report srv).2).
      destruct (run (forEach l (fun srv => fn (report srv).1 (report srv).2)) s1)
        as [[[] s2] tr].
      cbn. rewrite app_nil_r. reflexivity. }
    assert (Hrun : run (Update g observer) s =
              (None, fold_left tell l s1,
               EvGetServersWithFilters (listReq g) (inl servers) :: map told l)).
    { rewrite Hany, run_forEach_observer. reflexivity. }
    split; [exact Hrun|]. split; [|exact Hany].
    rewrite Hrun. cbn [snd observations omap].
    clear. induction l as [| srv l IH]; [reflexivity|].
    cbn. f_equal. exact IH.
  - intros err s1 fn Hlist. split.
    + unfold Update. rewrite run_bind. cbn [run call handle].
      fold (listReq g). rewrite Hlist. reflexivity.
    + cbn [errors_Is]. rewrite errors_Is_refl. apply orb_true_r.
Qed.

End Run.

(** C4, as stated, fails: when the listing call fails with "api error",
    what [Update] returns is not that error but a new one that wraps it. *)
Lemma Update_does_not_return_the_listing_error :
  getServersWithFilters (listReq baseGroup) mockListFails
    = (inr (errorString "api error"), mockListFails) ∧
  (run (Update baseGroup observer) mockListFails).1.1
    = Some (wrapError "listing group servers: api error" (errorString "api error")) ∧
  (run (Update baseGroup observer) mockListFails).1.1
    ≠ Some (errorString "api error").
Proof. repeat split. discriminate. Qed.

Lemma Update_reports_witness :
  observations (run (Update baseGroup observer) mockListsTwo).2
    = [("uuid-1", provider.StateRunning); ("uuid-2", provider.StateDeleted)] ∧
  run (Update baseGroup observer) mockListFails
    = (Some (wrapError "listing group servers: api error" (errorString "api error")),
       mockListFails,
       [EvGetServersWithFilters (listReq baseGroup) (inr (errorString "api error"))]).
Proof.
  split.
  - destruct (Update_reports baseGroup mockListsTwo) as (Hok & _).
    destruct (Hok {| upcloud.Servers_Servers :=
                [ {| upcloud.UUID := "uuid-1"; upcloud.State := "started" |};
                  {| upcloud.UUID := "uuid-2"; upcloud.State := "stopped" |} ] |}
                mockListsTwo) as (_ & Hobs & _); [reflexivity|].
    exact Hobs.
  - destruct (Update_reports baseGroup mockListFails) as (_ & Hfail).
    destruct (Hfail (errorString "api error") mockListFails observer) as (Hrun & _);
      [reflexivity|].
    exact Hrun.
Defined.

(** ** Heartbeat *)

Section Heartbeat.
Context {S : Type} `{!Env S}.

(** C5: [Heartbeat] returns nil whenever fetching the details fails; it
    returns the error "server <id> is in error state" when the fetch
    succeeds and the state is "error"; and it returns nil for every other
    state that was fetched.  So an error is returned exactly when the fetch
    succeeds with the error state. *)
Theorem Heartbeat_health (g : InstanceGroup) (id : string) (s : S) :
  (∀ err s1,
     getServerDetails (detailsReq id) s = (inr err, s1) →
     (run (Heartbeat g id) s).1 = (None, s1)) ∧
  (∀ d s1,
     getServerDetails (detailsReq id) s = (inl d, s1) →
     upcloud.State (upcloud.ServerDetails_Server d) = "error" →
     (run (Heartbeat g id) s).1
       = (Some (errorString ("server " +:+ id +:+ " is in error state")), s1)) ∧
  (∀ d s1,
     getServerDetails (detailsReq id) s = (inl d, s1) →
     upcloud.State (upcloud.ServerDetails_Server d) ≠ "error" →
     (run (Heartbeat g id) s).1 = (None, s1)).
Proof.
  unfold Heartbeat. rewrite run_bind. cbn [run call handle].
  fold (detailsReq id).
  split; [|split].
  - intros err s1 ->. reflexivity.
  - intros d s1 -> Hstate. cbn [run mret Prog_ret].
    rewrite bool_decide_eq_true_2 by exact Hstate. reflexivity.
  - intros d s1 -> Hstate. cbn [run mret Prog_ret].
    rewrite bool_decide_eq_false_2 by exact Hstate. reflexivity.
Qed.

End Heartbeat.

Lemma Heartbeat_health_witness :
  (run (Heartbeat baseGroup "uuid-1")
     (mockWithDetails (inr (errorString "transient network error")))).1.1 = None ∧
  (run (Heartbeat baseGroup "uuid-1")
     (mockWithDetails (inl (detailsInState "error")))).1.1
    = Some (errorString "server uuid-1 is in error state") ∧
  (run (Heartbeat baseGroup "uuid-1")
     (mockWithDetails (inl (detailsInState "started")))).1.1 = None.
Proof.
  split; [|split].
  - destruct (Heartbeat_health baseGroup "uuid-1"
                (mockWithDetails (inr (errorString "transient network error"))))
      as (Hfail & _).
    rewrite (Hfail (errorString "transient network error")
               (mockWithDetails (inr (errorString "transient network error"))));
      reflexivity.
  - destruct (Heartbeat_health baseGroup "uuid-1"
                (mockWithDetails (inl (detailsInState "error"))))
      as (_ & Herr & _).
    rewrite (Herr (detailsInState "error")
               (mockWithDetails (inl (detailsInState "error"))));
      reflexivity.
  - destruct (Heartbeat_health baseGroup "uuid-1"
                (mockWithDetails (inl (detailsInState "started"))))
      as (_ & _ & Hok).
    rewrite (Hok (detailsInState "started")
               (mockWithDetails (inl (detailsInState "started"))));
      [reflexivity | reflexivity | discriminate].
Defined.

(** ** ConnectInfo *)

Lemma scanIP_ExternalAddr (info : provider.ConnectInfo) (ip : upcloud.IPAddress) :
  provider.ExternalAddr (scanIP info ip) =
    if decide (isIPv4 ip ∧ upcloud.Access ip = "public")
    then upcloud.Address ip else provider.ExternalAddr info.
Proof.
  unfold scanIP, isIPv4, upcloud.IPAddressAccessPublic, upcloud.IPAddressAccessPrivate.
  repeat (case_bool_decide; cbn [negb]); case_decide; cbn;
    first [reflexivity | tauto | idtac].
  all: destruct_and?; congruence.
Qed.

Lemma scanIP_InternalAddr (info : provider.ConnectInfo) (ip : upcloud.IPAddress) :
  provider.InternalAddr (scanIP info ip) =
    if decide (isIPv4 ip ∧ upcloud.Access ip = "private")
    then upcloud.Address ip else provider.InternalAddr info.
Proof.
  unfold scanIP, isIPv4, upcloud.IPAddressAccessPublic, upcloud.IPAddressAccessPrivate.
  repeat (case_bool_decide; cbn [negb]); case_decide; cbn;
    first [reflexivity | tauto | idtac].
  all: destruct_and?; congruence.
Qed.

Lemma scanIP_not_IPv4 (info : provider.ConnectInfo) (ip : upcloud.IPAddress) :
  ¬ isIPv4 ip → scanIP info ip = info.
Proof.
  intros Hfam. unfold scanIP. rewrite bool_decide_eq_false_2 by exact Hfam.
  reflexivity.
Qed.

Lemma default_last_cons {A : Type} (d x : A) (l : list A) :
  default d (last (x :: l)) = default x (last l).
Proof. rewrite last_cons. destruct (last l); reflexivity. Qed.

(** The loop keeps, for each access kind, the address of the last IPv4 entry
    of that kind. *)
Lemma scan_ExternalAddr (ips : list upcloud.IPAddress) (info : provider.ConnectInfo) :
  provider.ExternalAddr (fold_left scanIP ips info) =
    default (provider.ExternalAddr info)
      (last (upcloud.Address <$>
               filter (fun ip => isIPv4 ip ∧ upcloud.Access ip = "public") ips)).
Proof.
  revert info. induction ips as [| ip ips IH]; intros info; [reflexivity|].
  cbn [fold_left]. rewrite IH, scanIP_ExternalAddr, filter_cons.
  case_decide; [|reflexivity].
  rewrite fmap_cons, default_last_cons. reflexivity.
Qed.

Lemma scan_InternalAddr (ips : list upcloud.IPAddress) (info : provider.ConnectInfo) :
  provider.InternalAddr (fold_left scanIP ips info) =
    default (provider.InternalAddr info)
      (last (upcloud.Address <$>
               filter (fun ip => isIPv4 ip ∧ upcloud.Access ip = "private") ips)).
Proof.
  revert info. induction ips as [| ip ips IH]; intros info; [reflexivity|].
  cbn [fold_left]. rewrite IH, scanIP_InternalAddr, filter_cons.
  case_decide; [|reflexivity].
  rewrite fmap_cons, default_last_cons. reflexivity.
Qed.

Lemma scan_only_IPv4 (ips : list upcloud.IPAddress) (info : provider.ConnectInfo) :
  fold_left scanIP ips info = fold_left scanIP (filter isIPv4 ips) info.
Proof.
  revert info. induction ips as [| ip ips IH]; intros info; [reflexivity|].
  rewrite filter_cons. case_decide as Hfam; cbn [fold_left].
  - apply IH.
  - rewrite (scanIP_not_IPv4 _ _ Hfam). apply IH.
Qed.

Lemma applyDefaults_addresses (info : provider.ConnectInfo) :
  provider.ExternalAddr (applyDefaults info) = provider.ExternalAddr info ∧
  provider.InternalAddr (applyDefaults info) = provider.InternalAddr info.
Proof.
  unfold applyDefaults. cbv zeta.
  repeat match goal with |- context [isEmpty ?x] => destruct (isEmpty x) end;
    split; reflexivity.
Qed.

(** The address that wins is the one of the last entry of its kind. *)
Lemma spec_lastAddr_last (access : string) (l1 l2 : list upcloud.IPAddress)
    (ip : upcloud.IPAddress) :
  isIPv4 ip → upcloud.Access ip = access →
  Forall (fun ip' => ¬ (isIPv4 ip' ∧ upcloud.Access ip' = access)) l2 →
  spec_lastAddr access (l1 ++ ip :: l2) = upcloud.Address ip.
Proof.
  intros Hfam Hacc Hnone. unfold spec_lastAddr.
  rewrite filter_app, filter_cons_True by done.
  replace (filter (fun ip0 => isIPv4 ip0 ∧ upcloud.Access ip0 = access) l2)
    with (@nil upcloud.IPAddress).
  - rewrite fmap_app, fmap_cons, fmap_nil, last_snoc. reflexivity.
  - symmetry. induction Hnone as [| ip' l2 Hno _ IH]; [reflexivity|].
    rewrite filter_cons_False by exact Hno. exact IH.
Qed.

Section ConnectInfo.
Context {S : Type} `{!Env S}.

Lemma run_ConnectInfo_ok (g : InstanceGroup) (id : string) (s s1 : S)
    (d : upcloud.ServerDetails) :
  getServerDetails (detailsReq id) s = (inl d, s1) →
  run (ConnectInfo g id) s =
    ((preferPrivate g
        (fold_left scanIP (upcloud.IPAddresses d) (applyDefaults (initialInfo g id))),
      None), s1, [EvGetServerDetails (detailsReq id) (inl d)]).
Proof.
  intros Hget. unfold ConnectInfo. rewrite run_bind. cbn [run call handle].
  fold (detailsReq id). rewrite Hget. reflexivity.
Qed.

(** C8: when fetching the details succeeds, [ConnectInfo] succeeds; the
    internal address is the address of the last private IPv4 entry and,
    unless the private network is preferred, the external address is the
    address of the last public IPv4 entry (each empty when there is no such
    entry).  When [UsePrivateNetwork] is set and a private IPv4 address was
    found (the internal address is not empty), the external address is that
    private address. *)
Theorem ConnectInfo_addresses (g : InstanceGroup) (id : string) (s s1 : S)
    (d : upcloud.ServerDetails) :
  getServerDetails (detailsReq id) s = (inl d, s1) →
  let ips := upcloud.IPAddresses d in
  ∃ info,
    (run (ConnectInfo g id) s).1 = ((info, None), s1) ∧
    provider.InternalAddr info = spec_lastAddr "private" ips ∧
    (UsePrivateNetwork g = true → spec_lastAddr "private" ips ≠ "" →
     provider.ExternalAddr info = spec_lastAddr "private" ips) ∧
    (UsePrivateNetwork g = false ∨ spec_lastAddr "private" ips = "" →
     provider.ExternalAddr info = spec_lastAddr "public" ips) ∧
    (∀ access l1 ip l2,
       ips = l1 ++ ip :: l2 → isIPv4 ip → upcloud.Access ip = access →
       Forall (fun ip' => ¬ (isIPv4 ip' ∧ upcloud.Access ip' = access)) l2 →
       spec_lastAddr access ips = upcloud.Address ip).
Proof.
  intros Hget ips. eexists. split.
  { rewrite (run_ConnectInfo_ok g id s s1 d Hget). reflexivity. }
  fold ips.
  set (scanned := fold_left scanIP ips (applyDefaults (initialInfo g id))).
  assert (Hint : provider.InternalAddr scanned = spec_lastAddr "private" ips).
  { unfold scanned. rewrite scan_InternalAddr.
    rewrite (proj2 (applyDefaults_addresses _)). reflexivity. }
  assert (Hext : provider.ExternalAddr scanned = spec_lastAddr "public" ips).
  { unfold scanned. rewrite scan_ExternalAddr.
    rewrite (proj1 (applyDefaults_addresses _)). reflexivity. }
  unfold preferPrivate.
  split; [|split; [|split]].
  - destruct (UsePrivateNetwork g && negb (isEmpty (provider.InternalAddr scanned)));
      exact Hint.
  - intros -> Hfound. rewrite <- Hint in Hfound.
    apply isEmpty_false in Hfound. rewrite Hfound. cbn. exact Hint.
  - intros [-> | Hnone].
    + cbn. exact Hext.
    + rewrite <- Hint in Hnone. apply isEmpty_true in Hnone. rewrite Hnone.
      rewrite andb_false_r. exact Hext.
  - intros access l1 ip l2 -> Hfam Hacc Hnone.
    apply spec_lastAddr_last; assumption.
Qed.

(** C10: when the fetched details list no IPv4 address (only IPv6, say),
    [ConnectInfo] succeeds with the external and the internal address
    empty; and the entries of other families never count: two answers with
    the same IPv4 entries, in the same order, give the same connection
    info. *)
Theorem ConnectInfo_ignores_other_families (g : InstanceGroup) (id : string)
    (s s1 : S) (d : upcloud.ServerDetails) :
  getServerDetails (detailsReq id) s = (inl d, s1) →
  (filter isIPv4 (upcloud.IPAddresses d) = [] →
   ∃ info,
     (run (ConnectInfo g id) s).1 = ((info, None), s1) ∧
     provider.ExternalAddr info = "" ∧ provider.InternalAddr info = "") ∧
  (∀ (s' s1' : S) (d' : upcloud.ServerDetails),
     getServerDetails (detailsReq id) s' = (inl d', s1') →
     filter isIPv4 (upcloud.IPAddresses d) = filter isIPv4 (upcloud.IPAddresses d') →
     (run (ConnectInfo g id) s).1.1 = (run (ConnectInfo g id) s').1.1).
Proof.
  intros Hget. split.
  - intros Hnone. eexists. split.
    { rewrite (run_ConnectInfo_ok g id s s1 d Hget). reflexivity. }
    rewrite scan_only_IPv4, Hnone. cbn [fold_left].
    unfold preferPrivate.
    rewrite (proj2 (applyDefaults_addresses _)). cbn.
    rewrite andb_false_r.
    rewrite (proj1 (applyDefaults_addresses _)), (proj2 (applyDefaults_addresses _)).
    split; reflexivity.
  - intros s' s1' d' Hget' Hsame.
    rewrite (run_ConnectInfo_ok g id s s1 d Hget).
    rewrite (run_ConnectInfo_ok g id s' s1' d' Hget'). cbn [fst].
    rewrite (scan_only_IPv4 (upcloud.IPAddresses d)), Hsame, <- scan_only_IPv4.
    reflexivity.
Qed.

End ConnectInfo.

Lemma ConnectInfo_addresses_witness :
  ∃ info,
    (run (ConnectInfo privateGroup "uuid-1")
       (mockWithDetails (inl (detailsWith twoOfEachKind)))).1
      = ((info, None), mockWithDetails (inl (detailsWith twoOfEachKind))) ∧
    provider.ExternalAddr info = "10.0.0.9" ∧
    provider.InternalAddr info = "10.0.0.9".
Proof.
  destruct (ConnectInfo_addresses privateGroup "uuid-1"
              (mockWithDetails (inl (detailsWith twoOfEachKind)))
              (mockWithDetails (inl (detailsWith twoOfEachKind)))
              (detailsWith twoOfEachKind))
    as (info & Hrun & Hint & Hpriv & _); [reflexivity|].
  exists info. split; [exact Hrun|]. split; [|exact Hint].
  apply Hpriv; [reflexivity|]. vm_compute. discriminate.
Defined.

Lemma ConnectInfo_ignores_other_families_witness :
  ∃ info,
    (run (ConnectInfo privateGroup "uuid-1")
       (mockWithDetails (inl (detailsWith onlyIPv6)))).1
      = ((info, None), mockWithDetails (inl (detailsWith onlyIPv6))) ∧
    provider.ExternalAddr info = "" ∧ provider.InternalAddr info = "".
Proof.
  destruct (ConnectInfo_ignores_other_families privateGroup "uuid-1"
              (mockWithDetails (inl (detailsWith onlyIPv6)))
              (mockWithDetails (inl (detailsWith onlyIPv6)))
              (detailsWith onlyIPv6))
    as (Hnone & _); [reflexivity|].
  apply Hnone. reflexivity.
Defined.

(** ** Increase *)

Section Increase.
Context {S : Type} `{!Env S}.

Lemma createResults_app (t1 t2 : list Event) :
  createResults (t1 ++ t2) = createResults t1 ++ createResults t2.
Proof. apply omap_app. Qed.

Lemma providerCalls_app (t1 t2 : list Event) :
  providerCalls (t1 ++ t2) = providerCalls t1 ++ providerCalls t2.
Proof. apply filter_app. Qed.

Lemma successes_app (t1 t2 : list Event) :
  successes (t1 ++ t2) = successes t1 ++ successes t2.
Proof. unfold successes. rewrite createResults_app. apply filter_app. Qed.

Lemma createResults_create r res (tr : list Event) :
  createResults (EvCreateServer r res :: tr) = res :: createResults tr.
Proof. reflexivity. Qed.

Lemma createResults_log level msg args (tr : list Event) :
  createResults (EvLog level msg args :: tr) = createResults tr.
Proof. reflexivity. Qed.

Lemma providerCalls_create r res (tr : list Event) :
  providerCalls (EvCreateServer r res :: tr) = EvCreateServer r res :: providerCalls tr.
Proof. reflexivity. Qed.

Lemma providerCalls_log level msg args (tr : list Event) :
  providerCalls (EvLog level msg args :: tr) = providerCalls tr.
Proof. reflexivity. Qed.

Lemma successes_created r d (tr : list Event) :
  successes (EvCreateServer r (inl d) :: tr) = inl d :: successes tr.
Proof. reflexivity. Qed.

Lemma successes_failed r err (tr : list Event) :
  successes (EvCreateServer r (inr err) :: tr) = successes tr.
Proof. reflexivity. Qed.

Lemma successes_log level msg args (tr : list Event) :
  successes (EvLog level msg args :: tr) = successes tr.
Proof. reflexivity. Qed.

(** [randomSuffix] only draws random numbers. *)
Lemma run_randomSuffix_from (n : nat) (b : string) (s : S) :
  createResults (run (randomSuffix_from n b) s).2 = [] ∧
  providerCalls (run (randomSuffix_from n b) s).2 = [].
Proof.
  revert b s. induction n as [| n IH]; intros b s; [split; reflexivity|].
  cbn [randomSuffix_from]. rewrite run_bind. cbn [run call handle].
  destruct (randNext s) as [v s1].
  specialize (IH (b +:+ String (charAt (Z.of_N v mod Z.of_nat (String.length chars))) "")
                s1).
  destruct (run (randomSuffix_from n _) s1) as [[b' s2] t2].
  cbn [snd] in *. destruct IH as [IH1 IH2]. split.
  - rewrite createResults_app, IH1. reflexivity.
  - rewrite providerCalls_app, IH2. reflexivity.
Qed.

Lemma run_Increase_loop (g : InstanceGroup) (iters : nat) (acc : Z) (s : S) :
  let '(count, _, tr) := run (Increase_loop g iters acc) s in
  length (createResults tr) = iters ∧
  length (providerCalls tr) = iters ∧
  count = acc + Z.of_nat (length (successes tr)).
Proof.
  revert acc s. induction iters as [| iters IH]; intros acc s.
  { cbn. repeat split. lia. }
  cbn [Increase_loop]. rewrite run_bind.
  pose proof (run_randomSuffix_from (Z.to_nat 8) "" s) as [Hsuf1 Hsuf2].
  fold (randomSuffix 8) in Hsuf1, Hsuf2.
  destruct (run (randomSuffix 8) s) as [[suffix s1] t1]. cbn [snd] in Hsuf1, Hsuf2.
  rewrite run_bind. cbn [run call handle].
  destruct (createServer (createReq g (NamePrefix g +:+ "-" +:+ suffix)) s1)
    as [[d | err] s2].
  - rewrite run_bind. cbn [run log call handle].
    specialize (IH (acc + 1) s2).
    destruct (run (Increase_loop g iters (acc + 1)) s2) as [[count s3] t3].
    destruct IH as (IH1 & IH2 & IH3).
    cbn [event app].
    rewrite createResults_app, providerCalls_app, successes_app.
    rewrite Hsuf2. unfold successes at 1. rewrite Hsuf1, filter_nil.
    rewrite createResults_create, createResults_log, providerCalls_create,
      providerCalls_log, successes_created, successes_log.
    cbn [app length filter]. rewrite IH1, IH2, IH3. repeat split. lia.
  - rewrite run_bind. cbn [run log call handle].
    specialize (IH acc s2).
    destruct (run (Increase_loop g iters acc) s2) as [[count s3] t3].
    destruct IH as (IH1 & IH2 & IH3).
    cbn [event app].
    rewrite createResults_app, providerCalls_app, successes_app.
    rewrite Hsuf2. unfold successes at 1. rewrite Hsuf1, filter_nil.
    rewrite createResults_create, createResults_log, providerCalls_create,
      providerCalls_log, successes_failed, successes_log.
    cbn [app length filter]. rewrite IH1, IH2, IH3. repeat split.
Qed.

(** C1: for every [n], [Increase g n] makes one [CreateServer] call per
    iteration, [n] of them when [n >= 0] and none otherwise, one after the
    other, and no other call to the service; it never returns an error; and
    the count it returns is the number of those calls that succeeded.
    [Increase g 0] returns (0, nil) and performs no action at all. *)
Theorem Increase_counts (g : InstanceGroup) (n : Z) (s : S) :
  (let '(res, _, tr) := run (Increase g n) s in
   res.2 = None ∧
   length (createResults tr) = Z.to_nat n ∧
   length (providerCalls tr) = Z.to_nat n ∧
   res.1 = Z.of_nat (length (successes tr)) ∧
   0 ≤ res.1 ≤ Z.max 0 n) ∧
  run (Increase g 0) s = ((0, None), s, []).
Proof.
  split; [|reflexivity].
  unfold Increase. rewrite run_bind.
  pose proof (run_Increase_loop g (Z.to_nat n) 0 s) as Hloop.
  destruct (run (Increase_loop g (Z.to_nat n) 0) s) as [[count s1] tr].
  destruct Hloop as (Hcalls & Hprov & Hcount).
  cbn. rewrite app_nil_r. repeat split; try assumption; try lia.
  rewrite Hcount.
  assert (length (successes tr) ≤ length (createResults tr))%nat
    by apply length_filter.
  lia.
Qed.

End Increase.

Example Increase_every_second_call_fails :
  (run (Increase baseGroup 4) newMockSvc).1.1 = (2, None) ∧
  length (createResults (run (Increase baseGroup 4) newMockSvc).2) = 4%nat.
Proof. vm_compute. split; reflexivity. Qed.

(** ** stopAndDelete *)

Section StopAndDelete.
Context {S : Type} `{!Env S}.

Lemma run_stopAndDelete (g : InstanceGroup) (uuid : string) (s : S) :
  run (stopAndDelete g uuid) s =
    let '(r1, s1) := stopServer (stopReq uuid) s in
    match r1 with
    | inr err =>
        (Some (Errorf_w ("stopping server " +:+ uuid +:+ ": ") err), s1,
         [EvStopServer (stopReq uuid) r1])
    | inl _ =>
        let '(r2, s2) := waitForServerState (waitReq uuid) s1 in
        match r2 with
        | inr err =>
            (Some (Errorf_w ("waiting for server " +:+ uuid +:+ " to stop: ") err), s2,
             [EvStopServer (stopReq uuid) r1; EvWaitForServerState (waitReq uuid) r2])
        | inl _ =>
            let '(r3, s3) := deleteServerAndStorages (deleteReq uuid) s2 in
            match r3 with
            | Some err =>
                (Some (Errorf_w ("deleting server " +:+ uuid +:+ ": ") err), s3,
                 [EvStopServer (stopReq uuid) r1;
                  EvWaitForServerState (waitReq uuid) r2;
                  EvDeleteServerAndStorages (deleteReq uuid) r3])
            | None =>
                (None, s3,
                 [EvStopServer (stopReq uuid) r1;
                  EvWaitForServerState (waitReq uuid) r2;
                  EvDeleteServerAndStorages (deleteReq uuid) r3;
                  EvLog LevelInfo "removed instance" [LStr "uuid"; LStr uuid]])
            end
        end
    end.
Proof.
  unfold stopAndDelete. rewrite run_bind. cbn [run call handle].
  fold (stopReq uuid).
  destruct (stopServer (stopReq uuid) s) as [[d1 | err] s1]; [|reflexivity].
  rewrite run_bind. cbn [run call handle]. fold (waitReq uuid).
  destruct (waitForServerState (waitReq uuid) s1) as [[d2 | err] s2]; [|reflexivity].
  rewrite run_bind. cbn [run call handle]. fold (deleteReq uuid).
  destruct (deleteServerAndStorages (deleteReq uuid) s2) as [[err |] s3];
    reflexivity.
Qed.

End StopAndDelete.

(** ** Decrease *)

Section Pool.
Context {S : Type} `{!Env S}.

Lemma filter_focus {A} (P : A → Prop) `{!∀ x, Decision (P x)} (l1 l2 : list A) (x : A) :
  filter P (l1 ++ x :: l2) = filter P l1 ++ (if decide (P x) then [x] else []) ++ filter P l2.
Proof. rewrite filter_app, filter_cons. case_decide; reflexivity. Qed.

Lemma holders_focus (l1 l2 : list Task) (t : Task) :
  length (filter (fun t => holdsMu t = true) (l1 ++ t :: l2)) =
    (length (filter (fun t => holdsMu t = true) l1)
     + (if holdsMu t then 1 else 0)
     + length (filter (fun t => holdsMu t = true) l2))%nat.
Proof.
  rewrite filter_focus, !length_app.
  destruct (holdsMu t); case_decide; cbn; try done; lia.
Qed.

Lemma appended_focus (l1 l2 : list Task) (t : Task) :
  (filter (fun t => hasAppended t = true) (l1 ++ t :: l2)).*1 =
    (filter (fun t => hasAppended t = true) l1).*1
    ++ (if hasAppended t then [t.1] else [])
    ++ (filter (fun t => hasAppended t = true) l2).*1.
Proof.
  rewrite filter_focus, !fmap_app.
  destruct (hasAppended t); case_decide; cbn; done.
Qed.

Lemma no_holder (l : list Task) :
  length (filter (fun t => holdsMu t = true) l) = 0%nat →
  Forall (fun t => holdsMu t = false) l.
Proof.
  intros Hlen. apply Forall_forall. intros t Hin.
  destruct (holdsMu t) eqn:Hh; [|reflexivity].
  assert (t ∈ filter (fun t => holdsMu t = true) l) as Hin'
    by (apply list_elem_of_filter; split; assumption).
  apply length_zero_iff_nil in Hlen. rewrite Hlen in Hin'.
  by apply not_elem_of_nil in Hin'.
Qed.

(** The task inside the mutex is alone there. *)
Lemma holder_alone (sh : Shared S) (l1 l2 : list Task) (t : Task) :
  PoolInv sh (l1 ++ t :: l2) → holdsMu t = true →
  mu sh = true ∧
  length (filter (fun t => holdsMu t = true) l1) = 0%nat ∧
  length (filter (fun t => holdsMu t = true) l2) = 0%nat.
Proof.
  intros [Hmu _ _ _ _ _] Hh. rewrite holders_focus, Hh in Hmu.
  destruct (mu sh); [|lia]. repeat split; lia.
Qed.

Lemma Forall_focus {A} (P : A → Prop) (l1 l2 : list A) (x : A) :
  Forall P (l1 ++ x :: l2) ↔ Forall P l1 ∧ P x ∧ Forall P l2.
Proof. rewrite Forall_app, Forall_cons. tauto. Qed.

Lemma Exists_focus {A} (P : A → Prop) (l1 l2 : list A) (x : A) :
  Exists P (l1 ++ x :: l2) ↔ Exists P l1 ∨ P x ∨ Exists P l2.
Proof. rewrite Exists_app, Exists_cons. tauto. Qed.

(** A step that leaves the shared variables alone and does not change what
    the task has done keeps the invariant. *)
Lemma inv_frame (sh sh' : Shared S) (t t' : Task) (l1 l2 : list Task) :
  mu sh' = mu sh → succeeded sh' = succeeded sh → firstErr sh' = firstErr sh →
  t'.1 = t.1 →
  holdsMu t' = holdsMu t → hasAppended t' = hasAppended t →
  hasReported t' = hasReported t →
  (∀ old, t'.2 = WriteSucceeded old → old = succeeded sh) →
  (∀ err, t'.2 = SetFirstErr err → firstErr sh = None) →
  PoolInv sh (l1 ++ t :: l2) → PoolInv sh' (l1 ++ t' :: l2).
Proof.
  intros Hmu Hsucc Hfirst Hid Hh Ha Hr Hw Hs [I1 I2 I3 I4 I5 I6].
  split.
  - rewrite holders_focus in *. rewrite Hmu, Hh. exact I1.
  - rewrite appended_focus in *. rewrite Hsucc, Ha, Hid. exact I2.
  - rewrite Forall_focus in *. rewrite Hsucc. tauto.
  - rewrite Forall_focus in *. rewrite Hfirst. tauto.
  - rewrite Forall_focus in *. rewrite Hfirst, Hr. tauto.
  - intros err Herr. rewrite Hfirst in Herr. specialize (I6 err Herr).
    rewrite Exists_focus in *. rewrite Hr. exact I6.
Qed.

Lemma perform_shared (sh : Shared S) (a : action) :
  mu (perform sh a).2 = mu sh ∧
  succeeded (perform sh a).2 = succeeded sh ∧
  firstErr (perform sh a).2 = firstErr sh.
Proof. unfold perform. destruct (handle a (env sh)). repeat split. Qed.

Ltac frame Hinv :=
  eapply inv_frame; [.. | exact Hinv];
  first [reflexivity | assumption | cbn; intros; first [discriminate | congruence]].

Lemma inv_focus (sh : Shared S) (l1 l2 : list Task) (t : Task) :
  PoolInv sh (l1 ++ t :: l2) ↔
    ((length (filter (fun t => holdsMu t = true) l1)
      + (if holdsMu t then 1 else 0)
      + length (filter (fun t => holdsMu t = true) l2))%nat
     = if mu sh then 1%nat else 0%nat) ∧
    (succeeded sh ≡ₚ
       (filter (fun t => hasAppended t = true) l1).*1
       ++ (if hasAppended t then [t.1] else [])
       ++ (filter (fun t => hasAppended t = true) l2).*1) ∧
    (Forall (fun t : Task => ∀ old, t.2 = WriteSucceeded old → old = succeeded sh) l1 ∧
     (∀ old, t.2 = WriteSucceeded old → old = succeeded sh) ∧
     Forall (fun t : Task => ∀ old, t.2 = WriteSucceeded old → old = succeeded sh) l2) ∧
    (Forall (fun t : Task => ∀ err, t.2 = SetFirstErr err → firstErr sh = None) l1 ∧
     (∀ err, t.2 = SetFirstErr err → firstErr sh = None) ∧
     Forall (fun t : Task => ∀ err, t.2 = SetFirstErr err → firstErr sh = None) l2) ∧
    (Forall (fun t : Task => hasReported t ≠ None → firstErr sh ≠ None) l1 ∧
     (hasReported t ≠ None → firstErr sh ≠ None) ∧
     Forall (fun t : Task => hasReported t ≠ None → firstErr sh ≠ None) l2) ∧
    (∀ err, firstErr sh = Some err →
       Exists (fun t => hasReported t = Some err) l1
       ∨ hasReported t = Some err
       ∨ Exists (fun t => hasReported t = Some err) l2).
Proof.
  split.
  - intros [I1 I2 I3 I4 I5 I6].
    rewrite holders_focus in I1. rewrite appended_focus in I2.
    rewrite Forall_focus in I3, I4, I5.
    repeat split; try tauto.
    intros err Herr.
    apply (proj1 (Exists_focus (fun t => hasReported t = Some err) l1 l2 t)), I6, Herr.
  - intros (I1 & I2 & I3 & I4 & I5 & I6). split.
    + rewrite holders_focus. exact I1.
    + rewrite appended_focus. exact I2.
    + apply Forall_focus, I3.
    + apply Forall_focus, I4.
    + apply Forall_focus, I5.
    + intros err Herr.
      apply (proj2 (Exists_focus (fun t => hasReported t = Some err) l1 l2 t)), I6, Herr.
Qed.

Ltac focus Hinv :=
  apply inv_focus in Hinv; apply inv_focus;
  destruct Hinv as (I1 & I2 & I3 & I4 & I5 & I6);
  cbn [fst snd holdsMu hasAppended hasReported mu succeeded firstErr
       set_mu set_succeeded set_firstErr app] in *.

Ltac sides :=
  match goal with
  | H : Forall ?P ?l1 ∧ _ ∧ Forall ?P ?l2 |- Forall ?P ?l1 ∧ _ ∧ Forall ?P ?l2 =>
      destruct H as (? & ? & ?); repeat split;
      first [assumption | intros; first [discriminate | congruence | eauto]]
  end.

Ltac reporter_kept I6 :=
  let e := fresh "e" in
  let He := fresh "He" in
  intros e He; destruct (I6 e He) as [? | [? | ?]];
  [left; assumption
  | first [discriminate | right; left; assumption]
  | right; right; assumption].

Lemma advance_inv (sh sh' : Shared S) (t t' : Task) (l1 l2 : list Task) :
  advance sh t = (sh', t') →
  PoolInv sh (l1 ++ t :: l2) → PoolInv sh' (l1 ++ t' :: l2).
Proof.
  intros Hadv Hinv. destruct t as [uuid pt].
  destruct pt as [[[err|]| a k] | err | err | err | err | err | | | old | | r];
    unfold advance in Hadv; cbv beta iota in Hadv.
  - (* stopAndDelete returned an error *)
    injection Hadv as <- <-. frame Hinv.
  - injection Hadv as <- <-. frame Hinv.
  - (* an action of stopAndDelete *)
    pose proof (perform_shared sh a) as (? & ? & ?).
    destruct (perform sh a) as [x sh1]. injection Hadv as <- <-.
    frame Hinv.
  - (* the failure is logged *)
    match type of Hadv with context [perform sh ?a] =>
      pose proof (perform_shared sh a) as (? & ? & ?);
      destruct (perform sh a) as [x sh1] end.
    injection Hadv as <- <-. frame Hinv.
  - (* mu.Lock(), failure branch *)
    destruct (mu sh) eqn:Hm; injection Hadv as <- <-; [exact Hinv|].
    focus Hinv. split; [|split; [|split; [|split; [|split]]]].
    + rewrite Hm in I1. lia.
    + exact I2.
    + sides.
    + sides.
    + sides.
    + reporter_kept I6.
  - (* firstErr == nil *)
    destruct (firstErr sh) as [first|] eqn:Hf; injection Hadv as <- <-.
    + focus Hinv. split; [|split; [|split; [|split; [|split]]]].
      * exact I1.
      * exact I2.
      * sides.
      * sides.
      * destruct I5 as (? & _ & ?). repeat split; try assumption.
        intros _. rewrite Hf. discriminate.
      * reporter_kept I6.
    + frame Hinv.
  - (* firstErr = err *)
    injection Hadv as <- <-.
    destruct (holder_alone _ _ _ _ Hinv eq_refl) as (Hm & Hl1 & Hl2).
    apply no_holder in Hl1, Hl2.
    focus Hinv. split; [|split; [|split; [|split; [|split]]]].
    + exact I1.
    + exact I2.
    + sides.
    + repeat split; [| discriminate |].
      * eapply Forall_impl; [exact Hl1|].
      intros [u p] Hno e Heq. cbn in Heq. subst p. discriminate Hno.
      * eapply Forall_impl; [exact Hl2|].
      intros [u p] Hno e Heq. cbn in Heq. subst p. discriminate Hno.
    + repeat split; try discriminate; apply Forall_forall; discriminate.
    + intros e [= <-]. right; left. reflexivity.
  - (* mu.Unlock(), failure branch *)
    injection Hadv as <- <-.
    destruct (holder_alone _ _ _ _ Hinv eq_refl) as (Hm & Hl1 & Hl2).
    focus Hinv. split; [|split; [|split; [|split; [|split]]]].
    + lia.
    + exact I2.
    + sides.
    + sides.
    + sides.
    + reporter_kept I6.
  - (* mu.Lock(), success branch *)
    destruct (mu sh) eqn:Hm; injection Hadv as <- <-; [exact Hinv|].
    focus Hinv. split; [|split; [|split; [|split; [|split]]]].
    + rewrite Hm in I1. lia.
    + exact I2.
    + sides.
    + sides.
    + sides.
    + reporter_kept I6.
  - (* succeeded is read *)
    injection Hadv as <- <-. frame Hinv.
  - (* succeeded = append(old, uuid) *)
    injection Hadv as <- <-.
    destruct (holder_alone _ _ _ _ Hinv eq_refl) as (Hm & Hl1 & Hl2).
    apply no_holder in Hl1, Hl2.
    focus Hinv. split; [|split; [|split; [|split; [|split]]]].
    + exact I1.
    + destruct I3 as (_ & Hold & _).
      rewrite (Hold old eq_refl), I2.
      rewrite <- Permutation_cons_append. apply Permutation_middle.
    + repeat split; [| discriminate |].
      * eapply Forall_impl; [exact Hl1|].
      intros [u p] Hno e Heq. cbn in Heq. subst p. discriminate Hno.
      * eapply Forall_impl; [exact Hl2|].
      intros [u p] Hno e Heq. cbn in Heq. subst p. discriminate Hno.
    + sides.
    + sides.
    + reporter_kept I6.
  - (* mu.Unlock(), success branch *)
    injection Hadv as <- <-.
    destruct (holder_alone _ _ _ _ Hinv eq_refl) as (Hm & Hl1 & Hl2).
    focus Hinv. split; [|split; [|split; [|split; [|split]]]].
    + lia.
    + exact I2.
    + sides.
    + sides.
    + sides.
    + reporter_kept I6.
  - injection Hadv as <- <-. exact Hinv.
Qed.

(** *** Steps of the pool *)

Lemma step_focus (i : nat) (st : Pool S) (t : Task) :
  tasks st !! i = Some t →
  ∃ l1 l2,
    tasks st = l1 ++ t :: l2 ∧ length l1 = i ∧
    step i st = {| shared := (advance (shared st) t).1;
                   tasks := l1 ++ (advance (shared st) t).2 :: l2 |}.
Proof.
  intros Hi. exists (take i (tasks st)), (drop (Datatypes.S i) (tasks st)).
  pose proof (lookup_lt_Some _ _ _ Hi) as Hlt.
  split; [symmetry; apply take_drop_middle, Hi|].
  split; [apply length_take_le; lia|].
  unfold step. rewrite Hi. destruct (advance (shared st) t) as [sh' t'].
  cbn. rewrite insert_take_drop by exact Hlt. reflexivity.
Qed.

Lemma step_idle (i : nat) (st : Pool S) :
  tasks st !! i = None → step i st = st.
Proof. intros Hi. unfold step. rewrite Hi. reflexivity. Qed.

Lemma step_inv (i : nat) (st : Pool S) :
  PoolInv (shared st) (tasks st) →
  PoolInv (shared (step i st)) (tasks (step i st)).
Proof.
  intros Hinv. destruct (tasks st !! i) as [t|] eqn:Hi.
  - destruct (step_focus i st t Hi) as (l1 & l2 & Hts & _ & ->). cbn.
    rewrite Hts in Hinv. eapply advance_inv; [|exact Hinv].
    destruct (advance (shared st) t); reflexivity.
  - rewrite step_idle by exact Hi. exact Hinv.
Qed.

Lemma exec_app (sched1 sched2 : list nat) (st : Pool S) :
  exec (sched1 ++ sched2) st = exec sched2 (exec sched1 st).
Proof. apply fold_left_app. Qed.

Lemma exec_inv (sched : list nat) (st : Pool S) :
  PoolInv (shared st) (tasks st) →
  PoolInv (shared (exec sched st)) (tasks (exec sched st)).
Proof.
  revert st. induction sched as [| i sched IH]; intros st Hinv; [exact Hinv|].
  cbn [exec fold_left]. fold (exec sched (step i st)). apply IH, step_inv, Hinv.
Qed.

Lemma advance_uuid (sh : Shared S) (t : Task) : (advance sh t).2.1 = t.1.
Proof.
  destruct t as [uuid pt]. unfold advance.
  destruct pt as [[[err|]| a k] | err | err | err | err | err | | | old | | r];
    cbn [fst snd]; try reflexivity.
  - destruct (perform sh a); reflexivity.
  - destruct (mu sh); reflexivity.
  - destruct (firstErr sh); reflexivity.
  - destruct (mu sh); reflexivity.
Qed.

Lemma step_uuids (i : nat) (st : Pool S) : (tasks (step i st)).*1 = (tasks st).*1.
Proof.
  destruct (tasks st !! i) as [t|] eqn:Hi.
  - destruct (step_focus i st t Hi) as (l1 & l2 & Hts & _ & ->). cbn.
    rewrite Hts, !fmap_app, !fmap_cons, advance_uuid. reflexivity.
  - rewrite step_idle by exact Hi. reflexivity.
Qed.

Lemma exec_uuids (sched : list nat) (st : Pool S) :
  (tasks (exec sched st)).*1 = (tasks st).*1.
Proof.
  revert st. induction sched as [| i sched IH]; intros st; [reflexivity|].
  cbn [exec fold_left]. fold (exec sched (step i st)). rewrite IH. apply step_uuids.
Qed.

Lemma spawn_inv (g : InstanceGroup) (instances : list string) (s : S) :
  PoolInv (shared (spawn g instances s)) (tasks (spawn g instances s)).
Proof.
  cbn. split; cbn.
  - induction instances as [| uuid l IH]; [reflexivity|].
    cbn [map]. rewrite filter_cons_False by (cbn; discriminate). exact IH.
  - induction instances as [| uuid l IH]; [reflexivity|].
    cbn [map]. rewrite filter_cons_False by (cbn; discriminate). exact IH.
  - apply Forall_forall. intros t [uuid [-> _]]%list_elem_of_fmap old Heq.
    discriminate.
  - apply Forall_forall. intros t _ err _. reflexivity.
  - apply Forall_forall. intros t [uuid [-> _]]%list_elem_of_fmap Hrep.
    contradiction.
  - intros err Herr. discriminate.
Qed.

(** *** When every goroutine has returned *)

Lemma finished_Forall (st : Pool S) :
  finished st = true ↔ Forall (fun t => isDone t = true) (tasks st).
Proof.
  unfold finished. rewrite forallb_forall, Forall_forall.
  split; intros Hall t Hin; apply Hall; by apply list_elem_of_In.
Qed.

Lemma finished_appended (ts : list Task) :
  Forall (fun t => isDone t = true) ts →
  filter (fun t => hasAppended t = true) ts = filter (fun t => isRemoved t = true) ts.
Proof.
  induction 1 as [| [uuid pt] ts Hdone _ IH]; [reflexivity|].
  rewrite !filter_cons, IH.
  destruct pt as [| | | | | | | | | | [err|]]; try discriminate Hdone; reflexivity.
Qed.

Lemma finished_reported (ts : list Task) (t : Task) :
  Forall (fun t => isDone t = true) ts → t ∈ ts →
  hasReported t = failure t.
Proof.
  intros Hall Hin. rewrite Forall_forall in Hall. specialize (Hall t Hin).
  destruct t as [uuid pt].
  destruct pt as [| | | | | | | | | | [err|]]; try discriminate Hall; reflexivity.
Qed.

(** What [Decrease] returns, for any schedule that lets every goroutine
    return. *)
Lemma finished_result (sh : Shared S) (ts : list Task) :
  PoolInv sh ts → Forall (fun t => isDone t = true) ts →
  succeeded sh ≡ₚ removed ts ∧
  (firstErr sh = None ↔ failures ts = []) ∧
  (∀ err, firstErr sh = Some err → err ∈ failures ts).
Proof.
  intros [_ I2 _ _ I5 I6] Hall.
  assert (Hfirst : ∀ err, firstErr sh = Some err → err ∈ failures ts).
  { intros err Herr. specialize (I6 err Herr).
    apply Exists_exists in I6 as (t & Hin & Hrep).
    unfold failures. apply list_elem_of_omap. exists t. split; [exact Hin|].
    rewrite <- (finished_reported ts t Hall Hin). exact Hrep. }
  split; [|split].
  - unfold removed. rewrite <- finished_appended by exact Hall. exact I2.
  - split.
    + intros Hnone. destruct (failures ts) as [| err errs] eqn:Hfail; [reflexivity|].
      assert (err ∈ failures ts) as Hin by (rewrite Hfail; left).
      unfold failures in Hin. apply list_elem_of_omap in Hin as (t & Hin & Hrep).
      rewrite Forall_forall in I5. exfalso. apply (I5 t Hin); [|exact Hnone].
      rewrite (finished_reported ts t Hall Hin), Hrep. discriminate.
    + intros Hnil. destruct (firstErr sh) as [err|] eqn:Herr; [|reflexivity].
      specialize (Hfirst err eq_refl). rewrite Hnil in Hfirst.
      by apply not_elem_of_nil in Hfirst.
  - exact Hfirst.
Qed.

(** *** Every goroutine can return *)

Lemma drains_step (sh sh1 : Shared S) (uuid : string) (pt pt1 : Point) :
  advance sh (uuid, pt) = (sh1, (uuid, pt1)) →
  drains sh1 (uuid, pt1) → drains sh (uuid, pt).
Proof.
  intros Hadv (k & sh' & r & Hk & Hmu).
  exists (Datatypes.S k), sh', r. split; [|exact Hmu].
  cbn [advanceN]. rewrite Hadv. exact Hk.
Qed.

(** A task that holds the mutex, or finds it free, runs to its end when it
    is given enough steps, and leaves the mutex free. *)
Lemma drain (sh : Shared S) (t : Task) :
  holdsMu t = true ∨ mu sh = false → drains sh t.
Proof.
  destruct t as [uuid pt].
  assert (Hdone : ∀ sh r, mu sh = false → drains sh (uuid, Done r)).
  { intros sh0 r Hmu. exists O, sh0, r. split; [reflexivity | exact Hmu]. }
  assert (HunlockE : ∀ sh err, drains sh (uuid, UnlockErr err)).
  { intros sh0 err. eapply drains_step; [reflexivity|]. by apply Hdone. }
  assert (Hset : ∀ sh err, drains sh (uuid, SetFirstErr err)).
  { intros sh0 err. eapply drains_step; [reflexivity|]. apply HunlockE. }
  assert (Hcheck : ∀ sh err, drains sh (uuid, CheckFirstErr err)).
  { intros sh0 err. destruct (firstErr sh0) eqn:Hf.
    - eapply drains_step; [cbn; rewrite Hf; reflexivity|]. apply HunlockE.
    - eapply drains_step; [cbn; rewrite Hf; reflexivity|]. apply Hset. }
  assert (HlockE : ∀ sh err, mu sh = false → drains sh (uuid, LockErr err)).
  { intros sh0 err Hmu. eapply drains_step; [cbn; rewrite Hmu; reflexivity|].
    apply Hcheck. }
  assert (Hlog : ∀ sh err, mu sh = false → drains sh (uuid, LogFailed err)).
  { intros sh0 err Hmu.
    eapply drains_step; [unfold advance, perform; cbn; reflexivity|].
    by apply HlockE. }
  assert (HunlockS : ∀ sh, drains sh (uuid, UnlockOk)).
  { intros sh0. eapply drains_step; [reflexivity|]. by apply Hdone. }
  assert (Hwrite : ∀ sh old, drains sh (uuid, WriteSucceeded old)).
  { intros sh0 old. eapply drains_step; [reflexivity|]. apply HunlockS. }
  assert (Hread : ∀ sh, drains sh (uuid, ReadSucceeded)).
  { intros sh0. eapply drains_step; [reflexivity|]. apply Hwrite. }
  assert (HlockS : ∀ sh, mu sh = false → drains sh (uuid, LockOk)).
  { intros sh0 Hmu. eapply drains_step; [cbn; rewrite Hmu; reflexivity|].
    apply Hread. }
  assert (Hremoving : ∀ p sh, mu sh = false → drains sh (uuid, Removing p)).
  { induction p as [[err|] | a k IH]; intros sh0 Hmu.
    - eapply drains_step; [reflexivity|]. by apply Hlog.
    - eapply drains_step; [reflexivity|]. by apply HlockS.
    - pose proof (perform_shared sh0 a) as (Hmu' & _).
      destruct (perform sh0 a) as [x sh1] eqn:Hp.
      eapply (drains_step _ sh1 _ _ (Removing (k x))).
      + cbn. rewrite Hp. reflexivity.
      + apply IH. cbn in Hmu'. congruence. }
  intros [Hholds | Hmu].
  - destruct pt; try discriminate Hholds; auto.
  - destruct pt; auto.
Qed.

Lemma exec_replicate (k i : nat) (st : Pool S) (t : Task) :
  tasks st !! i = Some t →
  exec (replicate k i) st =
    {| shared := (advanceN k (shared st) t).1;
       tasks := <[i := (advanceN k (shared st) t).2]> (tasks st) |}.
Proof.
  revert st t. induction k as [| k IH]; intros [sh ts] t Hi; cbn in Hi |- *.
  - rewrite list_insert_id by exact Hi. reflexivity.
  - unfold step at 2. cbn [tasks shared]. rewrite Hi.
    destruct (advance sh t) as [sh1 t1].
    pose proof (lookup_lt_Some _ _ _ Hi) as Hlt.
    fold (exec (replicate k i) {| shared := sh1; tasks := <[i:=t1]> ts |}).
    rewrite (IH _ t1) by (cbn; apply list_lookup_insert_eq, Hlt).
    cbn [shared tasks]. rewrite list_insert_insert_eq. reflexivity.
Qed.

Lemma complete_from_free (l2 l1 : list Task) (sh : Shared S) :
  mu sh = false →
  Forall (fun t => isDone t = true) l1 →
  Forall (fun t => holdsMu t = false) l2 →
  ∃ sched, finished (exec sched {| shared := sh; tasks := l1 ++ l2 |}) = true.
Proof.
  revert l1 sh. induction l2 as [| t l2 IH]; intros l1 sh Hmu Hdone Hfree.
  - exists []. apply finished_Forall. cbn. rewrite app_nil_r. exact Hdone.
  - apply Forall_cons in Hfree as [_ Hfree].
    destruct (drain sh t (or_intror Hmu)) as (k & sh' & r & Hk & Hmu').
    destruct (IH (l1 ++ [(t.1, Done r)]) sh' Hmu') as [sched Hsched].
    { apply Forall_app. split; [exact Hdone|]. by apply Forall_singleton. }
    { exact Hfree. }
    exists (replicate k (length l1) ++ sched).
    rewrite exec_app, (exec_replicate _ _ _ t) by apply list_lookup_middle, eq_refl.
    cbn [shared tasks]. rewrite Hk. cbn [fst snd].
    replace (<[length l1:=(t.1, Done r)]> (l1 ++ t :: l2))
      with ((l1 ++ [(t.1, Done r)]) ++ l2); [exact Hsched|].
    rewrite <- (Nat.add_0_r (length l1)), insert_app_r, <- app_assoc. reflexivity.
Qed.

(** From every state the pool can be in, some schedule lets every
    goroutine return: no goroutine waits for the mutex forever. *)
Lemma complete (st : Pool S) :
  PoolInv (shared st) (tasks st) → ∃ sched, finished (exec sched st) = true.
Proof.
  assert (Hfree : ∀ st : Pool S,
            PoolInv (shared st) (tasks st) → mu (shared st) = false →
            ∃ sched, finished (exec sched st) = true).
  { intros [sh ts] Hinv Hmu. cbn in *.
    apply (complete_from_free ts [] sh Hmu); [constructor|].
    apply no_holder. rewrite (inv_mu _ _ Hinv), Hmu. reflexivity. }
  intros Hinv. destruct (mu (shared st)) eqn:Hmu; [|by apply Hfree].
  pose proof (inv_mu _ _ Hinv) as Hone. rewrite Hmu in Hone.
  destruct (filter (fun t => holdsMu t = true) (tasks st)) as [| t rest] eqn:Hf;
    [discriminate|].
  assert (t ∈ filter (fun t => holdsMu t = true) (tasks st)) as Hin
    by (rewrite Hf; left).
  apply list_elem_of_filter in Hin as [Hholds Hin].
  apply list_elem_of_lookup in Hin as [i Hi].
  destruct (drain (shared st) t (or_introl Hholds)) as (k & sh' & r & Hk & Hmu').
  destruct (Hfree (exec (replicate k i) st)) as [sched Hsched].
  - apply exec_inv, Hinv.
  - rewrite (exec_replicate _ _ _ t Hi). cbn. rewrite Hk. exact Hmu'.
  - exists (replicate k i ++ sched). rewrite exec_app. exact Hsched.
Qed.

(** *** firstErr is written once *)

Lemma advance_firstErr (sh : Shared S) (t : Task) (l1 l2 : list Task) (err : error) :
  PoolInv sh (l1 ++ t :: l2) → firstErr sh = Some err →
  firstErr (advance sh t).1 = Some err.
Proof.
  intros Hinv Herr. apply inv_focus in Hinv as (_ & _ & _ & (_ & Hset & _) & _).
  destruct t as [uuid pt]. unfold advance.
  destruct pt as [[[e|]| a k] | e | e | e | e | e | | | old | | r];
    cbn [fst snd firstErr set_mu set_succeeded set_firstErr]; try exact Herr.
  - pose proof (perform_shared sh a) as (_ & _ & Hf).
    destruct (perform sh a). cbn in *. congruence.
  - destruct (mu sh); exact Herr.
  - destruct (firstErr sh) eqn:Hf; [cbn; congruence | discriminate].
  - rewrite (Hset e eq_refl) in Herr. discriminate.
  - destruct (mu sh); exact Herr.
Qed.

Lemma step_firstErr (i : nat) (st : Pool S) (err : error) :
  PoolInv (shared st) (tasks st) → firstErr (shared st) = Some err →
  firstErr (shared (step i st)) = Some err.
Proof.
  intros Hinv Herr. destruct (tasks st !! i) as [t|] eqn:Hi.
  - destruct (step_focus i st t Hi) as (l1 & l2 & Hts & _ & ->). cbn.
    rewrite Hts in Hinv. eapply advance_firstErr; eassumption.
  - rewrite step_idle by exact Hi. exact Herr.
Qed.

Lemma exec_firstErr (sched : list nat) (st : Pool S) (err : error) :
  PoolInv (shared st) (tasks st) → firstErr (shared st) = Some err →
  firstErr (shared (exec sched st)) = Some err.
Proof.
  revert st. induction sched as [| i sched IH]; intros st Hinv Herr; [exact Herr|].
  cbn [exec fold_left]. fold (exec sched (step i st)).
  apply IH; [apply step_inv, Hinv | apply step_firstErr; assumption].
Qed.

(** *** One goroutine alone *)

Lemma advanceN_add (a b : nat) (sh : Shared S) (t : Task) :
  advanceN (a + b) sh t = advanceN b (advanceN a sh t).1 (advanceN a sh t).2.
Proof.
  revert sh t. induction a as [| a IH]; intros sh t; [reflexivity|].
  cbn [Nat.add advanceN]. destruct (advance sh t) as [sh1 t1]. apply IH.
Qed.

Lemma advanceN_Done (k : nat) (sh : Shared S) (uuid : string) (r : option error) :
  advanceN k sh (uuid, Done r) = (sh, (uuid, Done r)).
Proof. induction k as [| k IH]; [reflexivity | exact IH]. Qed.

(** Once a task has returned, more steps change nothing: the state in
    which it has returned does not depend on the number of steps. *)
Lemma advanceN_final (k k' : nat) (sh sh1 sh2 : Shared S) (t t1 t2 : Task) :
  advanceN k sh t = (sh1, t1) → isDone t1 = true →
  advanceN k' sh t = (sh2, t2) → isDone t2 = true →
  sh1 = sh2 ∧ t1 = t2.
Proof.
  assert (Hle : ∀ k k' sh1 sh2 t1 t2,
            (k ≤ k')%nat →
            advanceN k sh t = (sh1, t1) → isDone t1 = true →
            advanceN k' sh t = (sh2, t2) → sh1 = sh2 ∧ t1 = t2).
  { clear. intros k k' sh1 sh2 [u1 p1] t2 Hkk H1 Hd1 H2.
    replace k' with (k + (k' - k))%nat in H2 by lia.
    rewrite advanceN_add, H1 in H2. cbn [fst snd] in H2.
    destruct p1; try discriminate Hd1.
    rewrite advanceN_Done in H2. injection H2 as <- <-. split; reflexivity. }
  intros H1 Hd1 H2 Hd2. destruct (Nat.le_ge_cases k k') as [Hkk | Hkk].
  - eapply Hle; eassumption.
  - destruct (Hle k' k sh2 sh1 t2 t1 Hkk H2 Hd2 H1) as [-> ->]. split; reflexivity.
Qed.

(** Alone, and with the mutex free, a goroutine ends in the state that
    running [stopAndDelete] and then its last statements gives. *)
Lemma solo (p : Prog (option error)) (sh : Shared S) (uuid : string) :
  mu sh = false →
  ∃ k,
    advanceN k sh (uuid, Removing p) =
      let '(r, s', tr) := run p (env sh) in
      (conclude (after sh s' tr) uuid r, (uuid, Done r)).
Proof.
  revert sh. induction p as [[err|] | a k IH]; intros [s tr0 m succ first] Hmu;
    cbn in Hmu; subst m.
  - destruct first as [first|]; [exists 5%nat | exists 6%nat];
      cbn; rewrite app_nil_r; reflexivity.
  - exists 5%nat. cbn. rewrite app_nil_r. reflexivity.
  - cbn [run env]. destruct (handle a s) as [x s1] eqn:Hh.
    destruct (IH x {| env := s1; trace := tr0 ++ [event a x]; mu := false;
                      succeeded := succ; firstErr := first |} eq_refl) as [n Hn].
    exists (Datatypes.S n). cbn [advanceN]. unfold advance at 1, perform at 1.
    cbn [env trace mu succeeded firstErr]. rewrite Hh. rewrite Hn. cbn [env].
    destruct (run (k x) s1) as [[r s2] tr]. unfold after. cbn.
    rewrite <- app_assoc. reflexivity.
Qed.

Lemma exec_single (sched : list nat) (sh : Shared S) (t : Task) :
  ∃ k, exec sched {| shared := sh; tasks := [t] |} =
         {| shared := (advanceN k sh t).1; tasks := [(advanceN k sh t).2] |}.
Proof.
  revert sh t. induction sched as [| i sched IH]; intros sh t.
  - exists O. reflexivity.
  - cbn [exec fold_left]. destruct i as [| i].
    + unfold step at 2. cbn [tasks shared lookup list_lookup].
      destruct (advance sh t) as [sh1 t1] eqn:Hadv. cbn [insert list_insert].
      destruct (IH sh1 t1) as [k Hk]. exists (Datatypes.S k).
      cbn [advanceN]. rewrite Hadv. exact Hk.
    + rewrite step_idle by reflexivity. apply IH.
Qed.

(** [Decrease] on a single instance, under any schedule that lets its
    goroutine return. *)
Lemma Decrease_single (g : InstanceGroup) (uuid : string) (sched : list nat) (s : S)
    (res : list string * option error * S * list Event) :
  Decrease g [uuid] sched s = Some res →
  let '(r, s', tr) := run (stopAndDelete g uuid) s in
  res = match r with
        | Some err => ([], Some err, s', tr ++ [failedEntry uuid err])
        | None => ([uuid], None, s', tr)
        end.
Proof.
  unfold Decrease, spawn. cbn [map].
  set (sh0 := {| env := s; trace := []; mu := false; succeeded := []; firstErr := None |}).
  destruct (exec_single sched sh0 (uuid, Removing (stopAndDelete g uuid))) as [k Hk].
  rewrite Hk. unfold finished. cbn [tasks shared forallb].
  destruct (advanceN k sh0 (uuid, Removing (stopAndDelete g uuid))) as [sh1 t1] eqn:Hadv.
  cbn [fst snd]. rewrite andb_true_r.
  destruct (isDone t1) eqn:Hdone; [|discriminate].
  intros [= <-].
  destruct (solo (stopAndDelete g uuid) sh0 uuid eq_refl) as [k' Hk'].
  cbn [env sh0] in Hk'.
  destruct (run (stopAndDelete g uuid) s) as [[r s'] tr].
  destruct (advanceN_final k k' sh0 sh1 _ _ t1 _ Hadv Hdone Hk' eq_refl) as [-> _].
  destruct r as [err|]; reflexivity.
Qed.

(** *** The trace accounts for the tasks *)

Lemma uuids_focus (P : Task → bool) (l1 l2 : list Task) (t : Task) :
  (filter (fun t => P t = true) (l1 ++ t :: l2)).*1 =
    (filter (fun t => P t = true) l1).*1
    ++ (if P t then [t.1] else [])
    ++ (filter (fun t => P t = true) l2).*1.
Proof.
  rewrite filter_focus, !fmap_app.
  destruct (P t); case_decide; cbn; done.
Qed.

Lemma gain_focus (tr a b : list string) (u : string) :
  tr ≡ₚ a ++ b → tr ++ [u] ≡ₚ a ++ [u] ++ b.
Proof.
  intros ->. cbn [app]. rewrite <- Permutation_cons_append.
  apply Permutation_middle.
Qed.

(** What one step may do to the account: nothing, or move the task past its
    delete with the deletion in the trace, or past a failure with the failed
    call in the trace. *)
Lemma trace_inv_step (g : InstanceGroup) (sh sh' : Shared S) (t t' : Task)
    (l1 l2 : list Task) :
  t'.1 = t.1 → wellStaged g t' →
  deleted (trace sh') =
    deleted (trace sh) ++ (if pastDelete t then [] else if pastDelete t' then [t.1] else []) →
  (pastDelete t = true → pastDelete t' = true) →
  failedRemovals (trace sh') =
    failedRemovals (trace sh)
    ++ (if pastFailure t then [] else if pastFailure t' then [t.1] else []) →
  (pastFailure t = true → pastFailure t' = true) →
  TraceInv g sh (l1 ++ t :: l2) → TraceInv g sh' (l1 ++ t' :: l2).
Proof.
  intros Hid Hstaged Hdel Hdel' Hfail Hfail' [I1 I2 I3].
  rewrite Forall_focus in I1. rewrite uuids_focus in I2, I3.
  split.
  - apply Forall_focus. tauto.
  - rewrite uuids_focus, Hdel, Hid.
    destruct (pastDelete t).
    + rewrite Hdel' by reflexivity. rewrite app_nil_r. exact I2.
    + destruct (pastDelete t').
      * apply gain_focus. exact I2.
      * rewrite app_nil_r. exact I2.
  - rewrite uuids_focus, Hfail, Hid.
    destruct (pastFailure t).
    + rewrite Hfail' by reflexivity. rewrite app_nil_r. exact I3.
    + destruct (pastFailure t').
      * apply gain_focus. exact I3.
      * rewrite app_nil_r. exact I3.
Qed.

Lemma perform_trace (sh : Shared S) (a : action) :
  trace (perform sh a).2 = trace sh ++ [event a (perform sh a).1].
Proof. unfold perform. destruct (handle a (env sh)). reflexivity. Qed.

Lemma deleted_snoc (tr : list Event) (ev : Event) :
  deleted (tr ++ [ev]) = deleted tr ++ from_option (fun u => [u]) [] (deletedOf ev).
Proof. unfold deleted. rewrite omap_app. cbn. destruct (deletedOf ev); reflexivity. Qed.

Lemma failedRemovals_snoc (tr : list Event) (ev : Event) :
  failedRemovals (tr ++ [ev]) =
    failedRemovals tr ++ from_option (fun u => [u]) [] (failedOf ev).
Proof.
  unfold failedRemovals. rewrite omap_app. cbn. destruct (failedOf ev); reflexivity.
Qed.

Ltac account Hinv :=
  eapply trace_inv_step; [.. | exact Hinv];
  cbn [fst snd pastDelete pastFailure wellStaged trace set_mu set_succeeded set_firstErr];
  rewrite ?app_nil_r;
  first [reflexivity | done | intros; discriminate | eauto 8].

Ltac performed :=
  let Htr := fresh "Htr" in
  let x := fresh "x" in
  let sh1 := fresh "sh1" in
  match goal with
  | Hadv : context [@perform _ _ ?sh ?a] |- _ =>
      pose proof (perform_trace sh a) as Htr;
      destruct (perform sh a) as [x sh1];
      cbn [fst snd] in Htr
  end;
  match goal with
  | Hadv : (_, _) = (_, _) |- _ => injection Hadv as <- <-
  end.

Ltac account_call Hinv Htr :=
  eapply trace_inv_step; [.. | exact Hinv];
  rewrite ?Htr, ?deleted_snoc, ?failedRemovals_snoc;
  cbn [fst snd pastDelete pastFailure wellStaged trace event deletedOf failedOf
       from_option stopReq waitReq deleteReq
       request.StopServerRequest_UUID request.WaitForServerStateRequest_UUID
       request.DeleteServerAndStoragesRequest_UUID];
  rewrite ?app_nil_r;
  first [reflexivity | done | intros; discriminate | eauto 8].

Lemma advance_trace_inv (g : InstanceGroup) (sh sh' : Shared S) (t t' : Task)
    (l1 l2 : list Task) :
  advance sh t = (sh', t') →
  TraceInv g sh (l1 ++ t :: l2) → TraceInv g sh' (l1 ++ t' :: l2).
Proof.
  intros Hadv Hinv. destruct t as [uuid pt].
  assert (Hstaged : wellStaged g (uuid, pt)).
  { destruct Hinv as [I1 _ _]. apply Forall_focus in I1. tauto. }
  destruct pt as [p | err | err | err | err | err | | | old | | r];
    unfold advance in Hadv; cbv beta iota in Hadv.
  - cbn in Hstaged. destruct Hstaged as [-> | [-> | [-> | [-> | [r ->]]]]].
    + (* the stop *)
      unfold stopAndDelete in Hadv. cbn [mbind Prog_bind bind call] in Hadv.
      performed. destruct x as [d | err]; account_call Hinv Htr.
    + (* the wait *)
      unfold waitStage in Hadv. cbn [mbind Prog_bind bind call] in Hadv.
      performed. destruct x as [d | err]; account_call Hinv Htr.
    + (* the delete *)
      unfold deleteStage in Hadv. cbn [mbind Prog_bind bind call] in Hadv.
      performed. destruct x as [err |]; account_call Hinv Htr.
    + (* the removal is logged *)
      unfold afterDelete in Hadv. cbn [mbind Prog_bind bind call log] in Hadv.
      performed. account_call Hinv Htr.
    + destruct r as [err|]; injection Hadv as <- <-; account Hinv.
  - (* the failure is logged *)
    performed. account_call Hinv Htr.
  - destruct (mu sh); injection Hadv as <- <-; [exact Hinv | account Hinv].
  - destruct (firstErr sh); injection Hadv as <- <-; account Hinv.
  - injection Hadv as <- <-; account Hinv.
  - injection Hadv as <- <-; account Hinv.
  - destruct (mu sh); injection Hadv as <- <-; [exact Hinv | account Hinv].
  - injection Hadv as <- <-; account Hinv.
  - injection Hadv as <- <-; account Hinv.
  - injection Hadv as <- <-; account Hinv.
  - injection Hadv as <- <-. exact Hinv.
Qed.

Lemma step_trace_inv (g : InstanceGroup) (i : nat) (st : Pool S) :
  TraceInv g (shared st) (tasks st) →
  TraceInv g (shared (step i st)) (tasks (step i st)).
Proof.
  intros Hinv. destruct (tasks st !! i) as [t|] eqn:Hi.
  - destruct (step_focus i st t Hi) as (l1 & l2 & Hts & _ & ->). cbn.
    rewrite Hts in Hinv. eapply advance_trace_inv; [|exact Hinv].
    destruct (advance (shared st) t); reflexivity.
  - rewrite step_idle by exact Hi. exact Hinv.
Qed.

Lemma exec_trace_inv (g : InstanceGroup) (sched : list nat) (st : Pool S) :
  TraceInv g (shared st) (tasks st) →
  TraceInv g (shared (exec sched st)) (tasks (exec sched st)).
Proof.
  revert st. induction sched as [| i sched IH]; intros st Hinv; [exact Hinv|].
  cbn [exec fold_left]. fold (exec sched (step i st)).
  apply IH, step_trace_inv, Hinv.
Qed.

Lemma spawn_trace_inv (g : InstanceGroup) (instances : list string) (s : S) :
  TraceInv g (shared (spawn g instances s)) (tasks (spawn g instances s)).
Proof.
  cbn. split; cbn.
  - apply Forall_forall. intros t [uuid [-> _]]%list_elem_of_fmap. left. reflexivity.
  - induction instances as [| uuid l IH]; [reflexivity|].
    cbn [map]. rewrite filter_cons_False by (cbn; discriminate). exact IH.
  - induction instances as [| uuid l IH]; [reflexivity|].
    cbn [map]. rewrite filter_cons_False by (cbn; discriminate). exact IH.
Qed.

Lemma finished_pastDelete (ts : list Task) :
  Forall (fun t => isDone t = true) ts →
  filter (fun t => pastDelete t = true) ts = filter (fun t => isRemoved t = true) ts.
Proof.
  induction 1 as [| [uuid pt] ts Hdone _ IH]; [reflexivity|].
  rewrite !filter_cons, IH.
  destruct pt as [| | | | | | | | | | [err|]]; try discriminate Hdone; reflexivity.
Qed.

Lemma finished_pastFailure (ts : list Task) :
  Forall (fun t => isDone t = true) ts →
  filter (fun t => pastFailure t = true) ts = filter (fun t => ¬ isRemoved t = true) ts.
Proof.
  induction 1 as [| [uuid pt] ts Hdone _ IH]; [reflexivity|].
  rewrite !filter_cons, IH.
  destruct pt as [| | | | | | | | | | [err|]]; try discriminate Hdone;
    repeat case_decide; first [reflexivity | done | exfalso; auto].
Qed.

Lemma finished_failures (ts : list Task) :
  Forall (fun t => isDone t = true) ts →
  length (failures ts) = length (filter (fun t => pastFailure t = true) ts).
Proof.
  induction 1 as [| [uuid pt] ts Hdone _ IH]; [reflexivity|].
  unfold failures in *. rewrite filter_cons.
  destruct pt as [| | | | | | | | | | [err|]]; try discriminate Hdone;
    cbn; rewrite IH; reflexivity.
Qed.

(** What the trace of [Decrease] shows, for any schedule that lets every
    goroutine return. *)
Lemma finished_trace (g : InstanceGroup) (sh : Shared S) (ts : list Task) :
  TraceInv g sh ts → Forall (fun t => isDone t = true) ts →
  deleted (trace sh) ≡ₚ removed ts ∧
  ts.*1 ≡ₚ deleted (trace sh) ++ failedRemovals (trace sh) ∧
  (failures ts = [] ↔ failedRemovals (trace sh) = []).
Proof.
  intros [_ I2 I3] Hall.
  rewrite finished_pastDelete in I2 by exact Hall.
  split; [exact I2|]. split.
  - rewrite I2, I3, finished_pastFailure by exact Hall.
    rewrite <- fmap_app. apply fmap_Permutation. symmetry.
    apply filter_app_complement.
  - rewrite <- !length_zero_iff_nil, (finished_failures ts Hall), I3, length_fmap.
    reflexivity.
Qed.

(** *** The trace explains the errors *)


Lemma explains_grows (tr ext : list Event) (uuid : string) (e : error) :
  explains tr uuid e → explains (tr ++ ext) uuid e.
Proof.
  intros [err Hwhy]. exists err.
  rewrite !elem_of_app. tauto.
Qed.

Lemma advance_trace_grows (sh : Shared S) (t : Task) :
  ∃ ext, trace (advance sh t).1 = trace sh ++ ext.
Proof.
  destruct t as [uuid pt]. unfold advance.
  destruct pt as [[[err|]| a k] | err | err | err | err | err | | | old | | r];
    try (exists []; cbn; rewrite app_nil_r; reflexivity).
  - pose proof (perform_trace sh a) as Htr. destruct (perform sh a) as [x sh1].
    eexists. exact Htr.
  - match goal with |- context [perform sh ?a] =>
      pose proof (perform_trace sh a) as Htr; destruct (perform sh a) as [x sh1] end.
    eexists. exact Htr.
  - exists []. destruct (mu sh); cbn; rewrite app_nil_r; reflexivity.
  - exists []. destruct (firstErr sh); cbn; rewrite app_nil_r; reflexivity.
  - exists []. destruct (mu sh); cbn; rewrite app_nil_r; reflexivity.
Qed.

Lemma explained_here (tr : list Event) (uuid : string) (e : error) (ev : Event) :
  explains [ev] uuid e → explains (tr ++ [ev]) uuid e.
Proof.
  intros [err Hwhy]. exists err. rewrite !elem_of_app. tauto.
Qed.

Lemma advance_explained (g : InstanceGroup) (sh sh' : Shared S) (t t' : Task)
    (l1 l2 : list Task) :
  advance sh t = (sh', t') → wellStaged g t →
  Explained sh (l1 ++ t :: l2) → Explained sh' (l1 ++ t' :: l2).
Proof.
  intros Hadv Hstaged Hinv. unfold Explained in *.
  apply Forall_focus in Hinv as (H1 & Ht & H2).
  destruct (advance_trace_grows sh t) as [ext Hext]. rewrite Hadv in Hext.
  cbn [fst] in Hext.
  assert (Hothers : ∀ l,
            Forall (fun t : Task => ∀ e, failedWith t = Some e →
                                         explains (trace sh) t.1 e) l →
            Forall (fun t : Task => ∀ e, failedWith t = Some e →
                                         explains (trace sh') t.1 e) l).
  { intros l Hl. eapply Forall_impl; [exact Hl|]. intros t0 Hwhy e He. rewrite Hext.
    apply explains_grows, Hwhy, He. }
  apply Forall_focus. split; [by apply Hothers|]. split; [|by apply Hothers].
  assert (Hkeep : ∀ e, failedWith t = Some e → explains (trace sh') t.1 e).
  { intros e He. rewrite Hext. apply explains_grows, Ht, He. }
  clear H1 H2 Hothers Ht.
  destruct t as [uuid pt].
  destruct pt as [p | err | err | err | err | err | | | old | | r];
    unfold advance in Hadv; cbv beta iota in Hadv.
  - cbn in Hstaged. destruct Hstaged as [-> | [-> | [-> | [-> | [r ->]]]]].
    + unfold stopAndDelete in Hadv. cbn [mbind Prog_bind bind call] in Hadv.
      performed. destruct x as [d | err]; intros e He; [discriminate He|].
      injection He as <-. rewrite Htr. apply explained_here.
      exists err. left. split; [left | reflexivity].
    + unfold waitStage in Hadv. cbn [mbind Prog_bind bind call] in Hadv.
      performed. destruct x as [d | err]; intros e He; [discriminate He|].
      injection He as <-. rewrite Htr. apply explained_here.
      exists err. right; left. split; [left | reflexivity].
    + unfold deleteStage in Hadv. cbn [mbind Prog_bind bind call] in Hadv.
      performed. destruct x as [err |]; intros e He; [|discriminate He].
      injection He as <-. rewrite Htr. apply explained_here.
      exists err. right; right. split; [left | reflexivity].
    + unfold afterDelete in Hadv. cbn [mbind Prog_bind bind call log] in Hadv.
      performed. intros e He. discriminate He.
    + destruct r as [err|]; injection Hadv as <- <-; [exact Hkeep|].
      intros e He. discriminate He.
  - performed. exact Hkeep.
  - destruct (mu sh); injection Hadv as <- <-; exact Hkeep.
  - destruct (firstErr sh); injection Hadv as <- <-; exact Hkeep.
  - injection Hadv as <- <-. exact Hkeep.
  - injection Hadv as <- <-. exact Hkeep.
  - destruct (mu sh); injection Hadv as <- <-; intros e He; discriminate He.
  - injection Hadv as <- <-. intros e He. discriminate He.
  - injection Hadv as <- <-. intros e He. discriminate He.
  - injection Hadv as <- <-. intros e He. discriminate He.
  - injection Hadv as <- <-. exact Hkeep.
Qed.

Lemma exec_explained (g : InstanceGroup) (sched : list nat) (st : Pool S) :
  TraceInv g (shared st) (tasks st) → Explained (shared st) (tasks st) →
  Explained (shared (exec sched st)) (tasks (exec sched st)).
Proof.
  revert st. induction sched as [| i sched IH]; intros st Htrace Hwhy; [exact Hwhy|].
  cbn [exec fold_left]. fold (exec sched (step i st)).
  apply IH; [apply step_trace_inv, Htrace|].
  destruct (tasks st !! i) as [t|] eqn:Hi.
  - destruct (step_focus i st t Hi) as (l1 & l2 & Hts & _ & ->). cbn.
    rewrite Hts in Hwhy. eapply (advance_explained g); [| |exact Hwhy].
    + destruct (advance (shared st) t); reflexivity.
    + destruct Htrace as [Hstaged _ _]. rewrite Hts in Hstaged.
      apply Forall_focus in Hstaged. tauto.
  - rewrite step_idle by exact Hi. exact Hwhy.
Qed.

Lemma spawn_explained (g : InstanceGroup) (instances : list string) (s : S) :
  Explained (shared (spawn g instances s)) (tasks (spawn g instances s)).
Proof.
  apply Forall_forall. intros t [uuid [-> _]]%list_elem_of_fmap e He.
  discriminate He.
Qed.

(** The error of a goroutine that has returned is explained by the trace. *)
Lemma finished_explained (sh : Shared S) (ts : list Task) (e : error) :
  Explained sh ts → e ∈ failures ts →
  ∃ uuid, uuid ∈ ts.*1 ∧ explains (trace sh) uuid e.
Proof.
  intros Hwhy Hin. unfold failures in Hin.
  apply list_elem_of_omap in Hin as ([uuid pt] & Hin & Hfail).
  exists uuid. split.
  - apply list_elem_of_fmap. exists (uuid, pt). split; [reflexivity | exact Hin].
  - unfold Explained in Hwhy. rewrite Forall_forall in Hwhy.
    apply (Hwhy (uuid, pt) Hin).
    destruct pt as [| | | | | | | | | | [err|]]; try discriminate Hfail.
    exact Hfail.
Qed.

(** C3: the removal of one instance calls hard-stop, then wait-for-stopped,
    then delete-server-and-storages, in this order; a step that fails is
    the last call of the chain, and the error returned wraps the failure
    under a message that names the step and the instance.  The goroutine
    of [Decrease] whose chain failed does not append its instance: alone,
    it leaves [succeeded] empty and its error in [firstErr]; among others,
    an instance is in [succeeded] only if a delete call for it succeeded. *)
Theorem stopAndDelete_chain (g : InstanceGroup) (uuid : string) (s : S) :
  (∀ err s1,
     stopServer (stopReq uuid) s = (inr err, s1) →
     run (stopAndDelete g uuid) s =
       (Some (wrapError (("stopping server " +:+ uuid +:+ ": ") +:+ Error err) err), s1,
        [EvStopServer (stopReq uuid) (inr err)])) ∧
  (∀ d1 s1 err s2,
     stopServer (stopReq uuid) s = (inl d1, s1) →
     waitForServerState (waitReq uuid) s1 = (inr err, s2) →
     run (stopAndDelete g uuid) s =
       (Some (wrapError (("waiting for server " +:+ uuid +:+ " to stop: ") +:+ Error err)
                err), s2,
        [EvStopServer (stopReq uuid) (inl d1);
         EvWaitForServerState (waitReq uuid) (inr err)])) ∧
  (∀ d1 s1 d2 s2 err s3,
     stopServer (stopReq uuid) s = (inl d1, s1) →
     waitForServerState (waitReq uuid) s1 = (inl d2, s2) →
     deleteServerAndStorages (deleteReq uuid) s2 = (Some err, s3) →
     run (stopAndDelete g uuid) s =
       (Some (wrapError (("deleting server " +:+ uuid +:+ ": ") +:+ Error err) err), s3,
        [EvStopServer (stopReq uuid) (inl d1);
         EvWaitForServerState (waitReq uuid) (inl d2);
         EvDeleteServerAndStorages (deleteReq uuid) (Some err)])) ∧
  (∀ d1 s1 d2 s2 s3,
     stopServer (stopReq uuid) s = (inl d1, s1) →
     waitForServerState (waitReq uuid) s1 = (inl d2, s2) →
     deleteServerAndStorages (deleteReq uuid) s2 = (None, s3) →
     run (stopAndDelete g uuid) s =
       (None, s3,
        [EvStopServer (stopReq uuid) (inl d1);
         EvWaitForServerState (waitReq uuid) (inl d2);
         EvDeleteServerAndStorages (deleteReq uuid) None;
         EvLog LevelInfo "removed instance" [LStr "uuid"; LStr uuid]])) ∧
  (∀ sched res err,
     Decrease g [uuid] sched s = Some res →
     (run (stopAndDelete g uuid) s).1.1 = Some err →
     res.1.1.1 = [] ∧ res.1.1.2 = Some err) ∧
  (∀ instances sched succ err s' tr u,
     Decrease g instances sched s = Some (succ, err, s', tr) →
     u ∈ succ → u ∈ deleted tr).
Proof.
  pose proof (run_stopAndDelete g uuid s) as Hrun.
  split; [|split; [|split; [|split; [|split]]]].
  - intros err s1 H1. rewrite Hrun, H1. reflexivity.
  - intros d1 s1 err s2 H1 H2. rewrite Hrun, H1, H2. reflexivity.
  - intros d1 s1 d2 s2 err s3 H1 H2 H3. rewrite Hrun, H1, H2, H3. reflexivity.
  - intros d1 s1 d2 s2 s3 H1 H2 H3. rewrite Hrun, H1, H2, H3. reflexivity.
  - intros sched res err Hdec Herr.
    pose proof (Decrease_single g uuid sched s res Hdec) as Hres.
    destruct (run (stopAndDelete g uuid) s) as [[r s'] tr]. cbn in Herr.
    subst r res. split; reflexivity.
  - intros instances sched succ err s' tr u Hdec Hin. unfold Decrease in Hdec.
    destruct (finished (exec sched (spawn g instances s))) eqn:Hfin; [|discriminate].
    injection Hdec as <- <- <- <-.
    apply finished_Forall in Hfin.
    destruct (finished_result _ _ (exec_inv sched _ (spawn_inv g instances s)) Hfin)
      as (Hperm & _).
    destruct (finished_trace g _ _
                (exec_trace_inv g sched _ (spawn_trace_inv g instances s)) Hfin)
      as (Hdel & _).
    rewrite Hdel, <- Hperm. exact Hin.
Qed.

(** C2: under every schedule that lets all goroutines return, [Decrease]
    returns, in some order, exactly the instances whose removal succeeded
    (those the trace shows deleted), and every other instance is one with a
    failed stop, wait or delete; the error is non-nil exactly when some
    removal failed, and it is then the wrapped failure of a stop, wait or
    delete of one of the instances, the first error to be stored: once
    [firstErr] is set, no later step changes it.
    Every schedule can be continued so that [Decrease] returns.  On the
    empty sequence [Decrease] returns an empty list and a nil error, and
    performs no action. *)
Theorem Decrease_result (g : InstanceGroup) (instances : list string) (s : S) :
  (∀ sched succ err s' tr,
     Decrease g instances sched s = Some (succ, err, s', tr) →
     succ ≡ₚ deleted tr ∧
     instances ≡ₚ succ ++ failedRemovals tr ∧
     (err = None ↔ failedRemovals tr = []) ∧
     (∀ e, err = Some e → ∃ uuid, uuid ∈ instances ∧ explains tr uuid e)) ∧
  (∀ sched, ∃ sched', is_Some (Decrease g instances (sched ++ sched') s)) ∧
  (∀ sched sched' e,
     firstErr (shared (exec sched (spawn g instances s))) = Some e →
     firstErr (shared (exec (sched ++ sched') (spawn g instances s))) = Some e) ∧
  (∀ sched, Decrease g [] sched s = Some ([], None, s, [])).
Proof.
  split; [|split; [|split]].
  - intros sched succ err s' tr Hdec. unfold Decrease in Hdec.
    destruct (finished (exec sched (spawn g instances s))) eqn:Hfin; [|discriminate].
    injection Hdec as <- <- <- <-.
    apply finished_Forall in Hfin.
    destruct (finished_result _ _ (exec_inv sched _ (spawn_inv g instances s)) Hfin)
      as (Hperm & Hnone & Hfirst).
    destruct (finished_trace g _ _
                (exec_trace_inv g sched _ (spawn_trace_inv g instances s)) Hfin)
      as (Hdel & Hall & Hfail).
    assert (Hids : (tasks (exec sched (spawn g instances s))).*1 = instances).
    { rewrite exec_uuids. cbn. clear.
      induction instances as [| u l IH]; [reflexivity|]. cbn. f_equal. exact IH. }
    split; [|split; [|split]].
    + rewrite Hdel. exact Hperm.
    + rewrite Hids in Hall. etrans; [exact Hall|].
      apply Permutation_app_tail. etrans; [exact Hdel|]. symmetry. exact Hperm.
    + rewrite Hnone. exact Hfail.
    + intros e He.
      destruct (finished_explained _ _ e
                  (exec_explained g sched _ (spawn_trace_inv g instances s)
                     (spawn_explained g instances s))
                  (Hfirst e He)) as (uuid & Hin & Hwhy).
      rewrite Hids in Hin. exists uuid. split; assumption.
  - intros sched.
    destruct (complete (exec sched (spawn g instances s))) as [sched' Hfin].
    { apply exec_inv, spawn_inv. }
    exists sched'. unfold Decrease. rewrite exec_app, Hfin. eexists. reflexivity.
  - intros sched sched' e He. rewrite exec_app.
    apply exec_firstErr; [|exact He]. apply exec_inv, spawn_inv.
  - intros sched. unfold Decrease.
    assert (Hidle : exec sched (spawn g [] s) = spawn g [] s).
    { induction sched as [| i sched IH]; [reflexivity|].
      cbn [exec fold_left]. rewrite step_idle by reflexivity. exact IH. }
    rewrite Hidle. reflexivity.
Qed.

End Pool.

Lemma stopAndDelete_chain_witness :
  run (stopAndDelete baseGroup "uuid-bad") mockRemovals =
    (Some (wrapError "stopping server uuid-bad: stop failed" (errorString "stop failed")),
     mockRemovals,
     [EvStopServer (stopReq "uuid-bad") (inr (errorString "stop failed"))]) ∧
  run (stopAndDelete baseGroup "uuid-hang") mockRemovals =
    (Some (wrapError "waiting for server uuid-hang to stop: wait failed"
             (errorString "wait failed")),
     mockRemovals,
     [EvStopServer (stopReq "uuid-hang") (inl noDetails);
      EvWaitForServerState (waitReq "uuid-hang") (inr (errorString "wait failed"))]) ∧
  run (stopAndDelete baseGroup "uuid-stuck") mockRemovals =
    (Some (wrapError "deleting server uuid-stuck: delete failed"
             (errorString "delete failed")),
     mockRemovals,
     [EvStopServer (stopReq "uuid-stuck") (inl noDetails);
      EvWaitForServerState (waitReq "uuid-stuck") (inl noDetails);
      EvDeleteServerAndStorages (deleteReq "uuid-stuck")
        (Some (errorString "delete failed"))]) ∧
  run (stopAndDelete baseGroup "uuid-ok") mockRemovals =
    (None, mockRemovals,
     [EvStopServer (stopReq "uuid-ok") (inl noDetails);
      EvWaitForServerState (waitReq "uuid-ok") (inl noDetails);
      EvDeleteServerAndStorages (deleteReq "uuid-ok") None;
      EvLog LevelInfo "removed instance" [LStr "uuid"; LStr "uuid-ok"]]) ∧
  (fun res => res.1.1)
    <$> Decrease baseGroup ["uuid-bad"] (replicate 7 0%nat) mockRemovals
    = Some ([], Some (wrapError "stopping server uuid-bad: stop failed"
                        (errorString "stop failed"))).
Proof.
  split; [|split; [|split; [|split]]].
  - destruct (stopAndDelete_chain baseGroup "uuid-bad" mockRemovals) as (Hstop & _).
    apply (Hstop (errorString "stop failed") mockRemovals). reflexivity.
  - destruct (stopAndDelete_chain baseGroup "uuid-hang" mockRemovals) as (_ & Hwait & _).
    apply (Hwait noDetails mockRemovals (errorString "wait failed") mockRemovals);
      reflexivity.
  - destruct (stopAndDelete_chain baseGroup "uuid-stuck" mockRemovals)
      as (_ & _ & Hdelete & _).
    apply (Hdelete noDetails mockRemovals noDetails mockRemovals
             (errorString "delete failed") mockRemovals); reflexivity.
  - destruct (stopAndDelete_chain baseGroup "uuid-ok" mockRemovals)
      as (_ & _ & _ & Hok & _).
    apply (Hok noDetails mockRemovals noDetails mockRemovals mockRemovals); reflexivity.
  - destruct (stopAndDelete_chain baseGroup "uuid-bad" mockRemovals)
      as (_ & _ & _ & _ & Halone & _).
    destruct (Decrease baseGroup ["uuid-bad"] (replicate 7 0%nat) mockRemovals)
      as [[[[succ err] s'] tr] |] eqn:Hdec; [|vm_compute in Hdec; discriminate Hdec].
    destruct (Halone (replicate 7 0%nat) (succ, err, s', tr)
                (wrapError "stopping server uuid-bad: stop failed"
                   (errorString "stop failed")) Hdec eq_refl) as [Hsucc Herr].
    cbn in Hsucc, Herr |- *. rewrite Hsucc, Herr. reflexivity.
Defined.

Lemma Decrease_result_witness :
  let tr := trace (shared (exec takingTurns (spawn baseGroup okAndBad mockRemovals))) in
  ["uuid-ok"] ≡ₚ deleted tr ∧
  okAndBad ≡ₚ ["uuid-ok"] ++ failedRemovals tr ∧
  ∃ uuid,
    uuid ∈ okAndBad ∧
    explains tr uuid
      (wrapError "stopping server uuid-bad: stop failed" (errorString "stop failed")).
Proof.
  intros tr.
  destruct (Decrease_result baseGroup okAndBad mockRemovals) as (Hres & _).
  destruct (Hres takingTurns ["uuid-ok"]
              (Some (wrapError "stopping server uuid-bad: stop failed"
                       (errorString "stop failed")))
              mockRemovals tr)
    as (Hperm & Hall & _ & Hin).
  - vm_compute. reflexivity.
  - split; [exact Hperm|]. split; [exact Hall|]. apply Hin. reflexivity.
Defined.

(** The order of the instances returned depends on the schedule. *)
Example Decrease_order_follows_the_schedule :
  (fun res => res.1.1.1)
    <$> Decrease baseGroup ["uuid-1"; "uuid-2"] (oneByOne 2) newMockSvc
    = Some ["uuid-1"; "uuid-2"] ∧
  (fun res => res.1.1.1)
    <$> Decrease baseGroup ["uuid-1"; "uuid-2"] lastFirst newMockSvc
    = Some ["uuid-2"; "uuid-1"].
Proof. vm_compute. repeat split. Qed.

(** The tests [TestDecrease_PartialFailure] and [TestDecrease_Empty]. *)
Example Decrease_partial_failure :
  (fun res => res.1.1)
    <$> Decrease baseGroup okAndBad takingTurns mockRemovals
    = Some (["uuid-ok"],
            Some (wrapError "stopping server uuid-bad: stop failed"
                    (errorString "stop failed"))) ∧
  Decrease baseGroup [] [] newMockSvc = Some ([], None, newMockSvc, []).
Proof. vm_compute. repeat split. Qed.

(** ** randomSuffix and the requests of Increase *)

Lemma letters_app (a b : string) : letters (a +:+ b) = letters a ++ letters b.
Proof.
  unfold letters. induction a as [| c a IH]; [reflexivity|].
  change (c :: String.list_ascii_of_string (a +:+ b) =
          c :: String.list_ascii_of_string a ++ String.list_ascii_of_string b).
  rewrite IH. reflexivity.
Qed.

Lemma get_letters (s : string) (i : nat) :
  (i < length (letters s))%nat → ∃ c, String.get i s = Some c ∧ c ∈ letters s.
Proof.
  revert i. induction s as [| c s IH]; intros i Hi.
  - exfalso. change (i < 0)%nat in Hi. lia.
  - change (i < Datatypes.S (length (letters s)))%nat in Hi.
    change (letters (String c s)) with (c :: letters s).
    destruct i as [| i].
    + exists c. split; [reflexivity | left].
    + destruct (IH i) as (c' & Hget & Hin); [lia|].
      exists c'. split; [exact Hget | right; exact Hin].
Qed.

Lemma append_cons (c : Ascii.ascii) (a b : string) :
  String c a +:+ b = String c (a +:+ b).
Proof. reflexivity. Qed.

Lemma append_empty (b : string) : b = b +:+ "".
Proof.
  induction b as [| c b IH]; [reflexivity|]. rewrite append_cons, <- IH. reflexivity.
Qed.

Lemma append_snoc (b : string) (c : Ascii.ascii) (tail : string) :
  (b +:+ String c "") +:+ tail = b +:+ String c tail.
Proof.
  induction b as [| c' b IH]; [reflexivity|]. rewrite !append_cons, IH. reflexivity.
Qed.

Lemma charAt_alphabet (i : Z) : 0 ≤ i < 36 → charAt i ∈ letters chars.
Proof.
  intros Hi. unfold charAt.
  destruct (get_letters chars (Z.to_nat i)) as (c & -> & Hin); [cbn; lia|].
  exact Hin.
Qed.

Section Suffix.
Context {S : Type} `{!Env S}.

Lemma run_randomSuffix_from_alphabet (n : nat) (b : string) (s : S) :
  let '(suffix, _, tr) := run (randomSuffix_from n b) s in
  (∃ tail, suffix = b +:+ tail ∧ isSuffix n tail) ∧
  length tr = n ∧
  Forall (fun ev => ∃ v, ev = EvIntn 36 v ∧ 0 ≤ v < 36) tr.
Proof.
  revert b s. induction n as [| n IH]; intros b s.
  - cbn. split; [|split; [reflexivity | constructor]].
    exists "". split; [apply append_empty | split; [reflexivity | constructor]].
  - cbn [randomSuffix_from]. rewrite run_bind. cbn [run call handle].
    destruct (randNext s) as [v s1].
    set (i := Z.of_N v mod Z.of_nat (String.length chars)).
    assert (Hi : 0 ≤ i < 36) by (apply Z.mod_pos_bound; reflexivity).
    specialize (IH (b +:+ String (charAt i) "") s1).
    destruct (run (randomSuffix_from n (b +:+ String (charAt i) "")) s1)
      as [[suffix s2] tr].
    destruct IH as ((tail & -> & Hlen & Hall) & Htr & Hdraws).
    split; [|split].
    + exists (String (charAt i) tail). split.
      * apply append_snoc.
      * split; [cbn; rewrite <- Hlen; reflexivity|].
        constructor; [apply charAt_alphabet, Hi | exact Hall].
    + cbn. rewrite Htr. reflexivity.
    + cbn [app]. constructor; [|exact Hdraws]. exists i. split; [reflexivity | exact Hi].
Qed.

(** X1: for [n >= 0], [randomSuffix n] returns a string of exactly [n]
    bytes, each one a lowercase letter or a digit of [chars]; it draws one
    random number per byte, each with [rand.Intn(36)] and each in range, and
    performs nothing else. *)
Theorem randomSuffix_alphabet (n : Z) (s : S) :
  0 ≤ n →
  isSuffix (Z.to_nat n) (run (randomSuffix n) s).1.1 ∧
  Z.of_nat (length (run (randomSuffix n) s).2) = n ∧
  Forall (fun ev => ∃ v, ev = EvIntn 36 v ∧ 0 ≤ v < 36) (run (randomSuffix n) s).2.
Proof.
  intros Hn. unfold randomSuffix.
  pose proof (run_randomSuffix_from_alphabet (Z.to_nat n) "" s) as Hrun.
  destruct (run (randomSuffix_from (Z.to_nat n) "") s) as [[suffix s1] tr].
  destruct Hrun as ((tail & -> & Htail) & Hlen & Hdraws).
  cbn [fst snd]. split; [exact Htail|]. split; [lia | exact Hdraws].
Qed.

Lemma draws_silent (tr : list Event) :
  Forall (fun ev => ∃ v, ev = EvIntn 36 v ∧ 0 ≤ v < 36) tr →
  createAttempts tr = [] ∧ withoutDraws tr = [].
Proof.
  induction 1 as [| ev tr (v & -> & _) _ [IH1 IH2]]; [split; reflexivity|].
  split; [exact IH1|].
  unfold withoutDraws. rewrite filter_cons_False; [exact IH2 | discriminate].
Qed.

Lemma createAttempts_app (t1 t2 : list Event) :
  createAttempts (t1 ++ t2) = createAttempts t1 ++ createAttempts t2.
Proof. apply omap_app. Qed.

Lemma withoutDraws_app (t1 t2 : list Event) :
  withoutDraws (t1 ++ t2) = withoutDraws t1 ++ withoutDraws t2.
Proof. apply filter_app. Qed.

Lemma run_Increase_loop_transcript (g : InstanceGroup) (iters : nat) (acc : Z) (s : S) :
  let tr := (run (Increase_loop g iters acc) s).2 in
  Forall (ownRequest g) (createAttempts tr) ∧
  withoutDraws tr = createTranscript (createAttempts tr).
Proof.
  revert acc s. induction iters as [| iters IH]; intros acc s.
  { cbn. split; [constructor | reflexivity]. }
  cbn [Increase_loop]. rewrite run_bind.
  pose proof (run_randomSuffix_from_alphabet (Z.to_nat 8) "" s) as Hsuf.
  fold (randomSuffix 8) in Hsuf.
  destruct (run (randomSuffix 8) s) as [[suffix s1] t1].
  destruct Hsuf as ((tail & -> & Hsuffix) & _ & Hdraws).
  change ("" +:+ tail) with tail in *.
  apply draws_silent in Hdraws as [Hd1 Hd2].
  rewrite run_bind. cbn [run call handle].
  destruct (createServer (createReq g (NamePrefix g +:+ "-" +:+ tail)) s1)
    as [[d | err] s2].
  - rewrite run_bind. cbn [run log call handle].
    specialize (IH (acc + 1) s2).
    destruct (run (Increase_loop g iters (acc + 1)) s2) as [[count s3] t3].
    cbn [snd event app] in *. destruct IH as [IH1 IH2].
    rewrite createAttempts_app, withoutDraws_app, Hd1, Hd2. cbn [app].
    change (createAttempts (EvCreateServer ?r ?res :: EvLog ?l ?m ?a :: ?t))
      with ((r, res) :: createAttempts t).
    split.
    + constructor; [|exact IH1]. exists tail. split; [exact Hsuffix | reflexivity].
    + unfold withoutDraws. rewrite !filter_cons_True by reflexivity.
      fold (withoutDraws t3). rewrite IH2. reflexivity.
  - rewrite run_bind. cbn [run log call handle].
    specialize (IH acc s2).
    destruct (run (Increase_loop g iters acc) s2) as [[count s3] t3].
    cbn [snd event app] in *. destruct IH as [IH1 IH2].
    rewrite createAttempts_app, withoutDraws_app, Hd1, Hd2. cbn [app].
    change (createAttempts (EvCreateServer ?r ?res :: EvLog ?l ?m ?a :: ?t))
      with ((r, res) :: createAttempts t).
    split.
    + constructor; [|exact IH1]. exists tail. split; [exact Hsuffix | reflexivity].
    + unfold withoutDraws. rewrite !filter_cons_True by reflexivity.
      fold (withoutDraws t3). rewrite IH2. reflexivity.
Qed.

Lemma run_Increase_own (g : InstanceGroup) (n : Z) (s : S) :
  Forall (ownRequest g) (createAttempts (run (Increase g n) s).2).
Proof.
  unfold Increase. rewrite run_bind.
  pose proof (run_Increase_loop_transcript g (Z.to_nat n) 0 s) as [Hown _].
  destruct (run (Increase_loop g (Z.to_nat n) 0) s) as [[count s1] tr].
  cbn -[createAttempts] in *. rewrite app_nil_r. exact Hown.
Qed.

(** X2: every server [Increase] asks for is built from the group by
    [createReq], under the hostname "<NamePrefix>-<suffix>" with a suffix of
    eight characters of [chars]; and, the random draws apart, the trace of
    [Increase] is its [CreateServer] calls in order, each followed at once by
    its own log entry: an error entry carrying the hostname and the error of
    the service when the call failed, an info entry with the hostname
    otherwise. *)
Theorem Increase_transcript (g : InstanceGroup) (n : Z) (s : S) :
  let tr := (run (Increase g n) s).2 in
  Forall (ownRequest g) (createAttempts tr) ∧
  withoutDraws tr = createTranscript (createAttempts tr).
Proof.
  unfold Increase. rewrite run_bind.
  pose proof (run_Increase_loop_transcript g (Z.to_nat n) 0 s) as Hloop.
  destruct (run (Increase_loop g (Z.to_nat n) 0) s) as [[count s1] tr].
  cbn -[createAttempts withoutDraws createTranscript] in *.
  rewrite app_nil_r. exact Hloop.
Qed.

(** X3: the servers [Increase] creates carry exactly the label [Update]
    lists by: every request of [Increase] is labelled with the labels of the
    filter of the one listing request [Update] starts with. *)
Theorem Increase_labels_what_Update_lists (g : InstanceGroup) (n : Z) (s s' : S)
    (fn : string → provider.State → Prog unit) :
  Forall (fun c => request.Labels c.1 = Some (filterLabels (listReq g)))
    (createAttempts (run (Increase g n) s).2) ∧
  head (run (Update g fn) s').2
    = Some (EvGetServersWithFilters (listReq g)
              (getServersWithFilters (listReq g) s').1).
Proof.
  split.
  - eapply Forall_impl; [apply run_Increase_own|].
    intros [r res] (suffix & _ & ->). reflexivity.
  - unfold Update. rewrite run_bind. cbn [run call handle]. fold (listReq g).
    destruct (getServersWithFilters (listReq g) s') as [res s1].
    destruct (run _ s1) as [[out s2] tr]. reflexivity.
Qed.

End Suffix.

Lemma randomSuffix_alphabet_witness :
  isSuffix 8 (run (randomSuffix 8) newMockSvc).1.1 ∧
  length (run (randomSuffix 8) newMockSvc).2 = 8%nat.
Proof.
  destruct (randomSuffix_alphabet 8 newMockSvc) as (Hsuffix & Hlen & _); [lia|].
  split; [exact Hsuffix | lia].
Defined.

(** ** validate, once more *)

(** X4: [validate] is idempotent: the group it leaves behind when it
    accepts is accepted again, unchanged. *)
Theorem validate_idempotent (g g' : InstanceGroup) :
  validate g = (None, g') → validate g' = (None, g').
Proof.
  unfold validate at 1.
  destruct (isEmpty (Token g) && (isEmpty (Username g) || isEmpty (Password g)))
    eqn:Hauth; [discriminate|].
  destruct (isEmpty (Zone g)) eqn:Hz; [discriminate|].
  destruct (isEmpty (Template g)) eqn:Ht; [discriminate|].
  destruct (isEmpty (Name g)) eqn:Hn; [discriminate|].
  rewrite validate_defaults. intros [= <-].
  unfold validate. rewrite validate_defaults.
  change (Token (defaulted g)) with (Token g).
  change (Username (defaulted g)) with (Username g).
  change (Password (defaulted g)) with (Password g).
  change (Zone (defaulted g)) with (Zone g).
  change (Template (defaulted g)) with (Template g).
  change (Name (defaulted g)) with (Name g).
  rewrite Hauth, Hz, Ht, Hn. f_equal.
  destruct g as [tok usr pwd z tpl nm pl ssz st np ms upn ud se pk].
  unfold defaulted; cbn.
  destruct (decide (pl = "")), (decide (np = "")), (decide (ms = 0));
    repeat case_decide; first [reflexivity | congruence | discriminate].
Qed.

Lemma validate_idempotent_witness :
  validate tokenOnly = (None, defaulted tokenOnly) ∧
  validate (defaulted tokenOnly) = (None, defaulted tokenOnly).
Proof.
  split; [reflexivity|]. apply (validate_idempotent tokenOnly). reflexivity.
Defined.

(** ** ConnectInfo, once more *)

Lemma scanIP_keeps (info : provider.ConnectInfo) (ip : upcloud.IPAddress) :
  provider.ConnectInfo_ConnectorConfig (scanIP info ip)
    = provider.ConnectInfo_ConnectorConfig info ∧
  provider.ID (scanIP info ip) = provider.ID info ∧
  provider.Expires (scanIP info ip) = provider.Expires info.
Proof.
  unfold scanIP. repeat (case_bool_decide; cbn [negb]); repeat split.
Qed.

Lemma scan_keeps (ips : list upcloud.IPAddress) (info : provider.ConnectInfo) :
  provider.ConnectInfo_ConnectorConfig (fold_left scanIP ips info)
    = provider.ConnectInfo_ConnectorConfig info ∧
  provider.ID (fold_left scanIP ips info) = provider.ID info ∧
  provider.Expires (fold_left scanIP ips info) = provider.Expires info.
Proof.
  revert info. induction ips as [| ip ips IH]; intros info; [repeat split|].
  cbn [fold_left]. destruct (IH (scanIP info ip)) as (-> & -> & ->).
  apply scanIP_keeps.
Qed.

Lemma preferPrivate_keeps (g : InstanceGroup) (info : provider.ConnectInfo) :
  provider.ConnectInfo_ConnectorConfig (preferPrivate g info)
    = provider.ConnectInfo_ConnectorConfig info ∧
  provider.ID (preferPrivate g info) = provider.ID info ∧
  provider.Expires (preferPrivate g info) = provider.Expires info.
Proof.
  unfold preferPrivate.
  destruct (UsePrivateNetwork g && negb (isEmpty (provider.InternalAddr info)));
    repeat split.
Qed.

Lemma applyDefaults_config (info : provider.ConnectInfo) :
  provider.ConnectInfo_ConnectorConfig (applyDefaults info)
    = withDefaults (provider.ConnectInfo_ConnectorConfig info) ∧
  provider.ID (applyDefaults info) = provider.ID info ∧
  provider.Expires (applyDefaults info) = provider.Expires info.
Proof.
  destruct info as [[os arch proto port usr pwd key static keepalive timeout] id ext int exp].
  unfold applyDefaults, withDefaults, isEmpty, provider.ProtocolSSH,
    set_ConnectorConfig, set_OS, set_Arch, set_Protocol. cbn.
  destruct (decide (os = "")), (decide (arch = "")), (decide (proto = ""));
    repeat (case_bool_decide; cbn in * ); repeat split; congruence.
Qed.

Lemma scanIP_not_routable (info : provider.ConnectInfo) (ip : upcloud.IPAddress) :
  ¬ isRoutable ip → scanIP info ip = info.
Proof.
  unfold isRoutable, isIPv4, scanIP,
    upcloud.IPAddressAccessPublic, upcloud.IPAddressAccessPrivate.
  intros Hno. repeat (case_bool_decide; cbn [negb]); first [reflexivity | tauto].
Qed.

Lemma scan_only_routable (ips : list upcloud.IPAddress) (info : provider.ConnectInfo) :
  fold_left scanIP ips info = fold_left scanIP (filter isRoutable ips) info.
Proof.
  revert info. induction ips as [| ip ips IH]; intros info; [reflexivity|].
  rewrite filter_cons. case_decide as Hfam; cbn [fold_left].
  - apply IH.
  - rewrite (scanIP_not_routable _ _ Hfam). apply IH.
Qed.

Section Details.
Context {S : Type} `{!Env S}.

(** X5: when fetching the details fails, [ConnectInfo] returns the error
    of the service wrapped under "getting server details for <id>: ", after
    that single call; the info it returns next to the error holds the
    instance id and the connector configuration as the runner gave it (no
    default is applied), with both addresses empty. *)
Theorem ConnectInfo_failure (g : InstanceGroup) (id : string) (s s1 : S) (err : error) :
  getServerDetails (detailsReq id) s = (inr err, s1) →
  ∃ info e,
    run (ConnectInfo g id) s
      = ((info, Some e), s1, [EvGetServerDetails (detailsReq id) (inr err)]) ∧
    Error e = ("getting server details for " +:+ id +:+ ": ") +:+ Error err ∧
    errors_Is e err = true ∧
    provider.ID info = id ∧
    provider.ConnectInfo_ConnectorConfig info
      = provider.Settings_ConnectorConfig (settings g) ∧
    provider.ExternalAddr info = "" ∧ provider.InternalAddr info = "".
Proof.
  intros Hget. eexists _, _. split.
  { unfold ConnectInfo. rewrite run_bind. cbn [run call handle].
    fold (detailsReq id). rewrite Hget. reflexivity. }
  split; [reflexivity|]. split; [|repeat split].
  cbn [Errorf_w errors_Is]. rewrite errors_Is_refl. apply orb_true_r.
Qed.

(** X6: when fetching the details succeeds, [ConnectInfo] makes that one
    call and returns the instance id, no expiry, and the runner's connector
    configuration with "linux", "amd64" and "ssh" put in for an unset OS,
    architecture and protocol; every other field of the configuration is
    passed on unchanged, whatever addresses the server has. *)
Theorem ConnectInfo_config (g : InstanceGroup) (id : string) (s s1 : S)
    (d : upcloud.ServerDetails) :
  getServerDetails (detailsReq id) s = (inl d, s1) →
  ∃ info,
    run (ConnectInfo g id) s
      = ((info, None), s1, [EvGetServerDetails (detailsReq id) (inl d)]) ∧
    provider.ID info = id ∧
    provider.ConnectInfo_ConnectorConfig info
      = withDefaults (provider.Settings_ConnectorConfig (settings g)) ∧
    provider.Expires info = None.
Proof.
  intros Hget. eexists. split; [apply (run_ConnectInfo_ok g id s s1 d Hget)|].
  destruct (preferPrivate_keeps g
              (fold_left scanIP (upcloud.IPAddresses d) (applyDefaults (initialInfo g id))))
    as (-> & -> & ->).
  destruct (scan_keeps (upcloud.IPAddresses d) (applyDefaults (initialInfo g id)))
    as (-> & -> & ->).
  destruct (applyDefaults_config (initialInfo g id)) as (-> & -> & ->).
  repeat split.
Qed.

(** X7: [ConnectInfo] reads only the IPv4 entries with public or private
    access: two answers of the service that agree on those entries, in
    order, give the same connection info (an entry with another access kind,
    "utility" say, never counts). *)
Theorem ConnectInfo_reads_routable (g : InstanceGroup) (id : string)
    (s s1 s' s1' : S) (d d' : upcloud.ServerDetails) :
  getServerDetails (detailsReq id) s = (inl d, s1) →
  getServerDetails (detailsReq id) s' = (inl d', s1') →
  filter isRoutable (upcloud.IPAddresses d) = filter isRoutable (upcloud.IPAddresses d') →
  (run (ConnectInfo g id) s).1.1 = (run (ConnectInfo g id) s').1.1.
Proof.
  intros Hget Hget' Hsame.
  rewrite (run_ConnectInfo_ok g id s s1 d Hget).
  rewrite (run_ConnectInfo_ok g id s' s1' d' Hget'). cbn [fst].
  rewrite (scan_only_routable (upcloud.IPAddresses d)), Hsame, <- scan_only_routable.
  reflexivity.
Qed.

(** X8: [Heartbeat] makes exactly one call to the service, the fetch of
    the details of the instance, and leaves the service as that call left
    it; it logs one warning, carrying the id and the error, exactly when the
    fetch failed, and nothing otherwise. *)
Theorem Heartbeat_trace (g : InstanceGroup) (id : string) (s : S) :
  let '(res, s1) := getServerDetails (detailsReq id) s in
  let '(_, s2, tr) := run (Heartbeat g id) s in
  s2 = s1 ∧
  providerCalls tr = [EvGetServerDetails (detailsReq id) res] ∧
  tr = EvGetServerDetails (detailsReq id) res ::
       match res with inr err => [heartbeatWarning id err] | inl _ => [] end.
Proof.
  unfold Heartbeat. rewrite run_bind. cbn [run call handle].
  fold (detailsReq id).
  destruct (getServerDetails (detailsReq id) s) as [[d | err] s1].
  - case_bool_decide; cbn; repeat split.
  - cbn. repeat split.
Qed.

End Details.

Lemma ConnectInfo_failure_witness :
  ∃ info e,
    run (ConnectInfo baseGroup "uuid-1") (mockWithDetails (inr (errorString "not found")))
      = ((info, Some e), mockWithDetails (inr (errorString "not found")),
         [EvGetServerDetails (detailsReq "uuid-1") (inr (errorString "not found"))]) ∧
    Error e = "getting server details for uuid-1: not found" ∧
    provider.ExternalAddr info = "".
Proof.
  destruct (ConnectInfo_failure baseGroup "uuid-1"
              (mockWithDetails (inr (errorString "not found")))
              (mockWithDetails (inr (errorString "not found")))
              (errorString "not found"))
    as (info & e & Hrun & Hmsg & _ & _ & _ & Hext & _); [reflexivity|].
  exists info, e. split; [exact Hrun|]. split; [exact Hmsg | exact Hext].
Defined.

Lemma ConnectInfo_config_witness :
  ∃ info,
    (run (ConnectInfo baseGroup "uuid-1")
       (mockWithDetails (inl (detailsWith twoOfEachKind)))).1.1 = (info, None) ∧
    provider.OS (provider.ConnectInfo_ConnectorConfig info) = "linux" ∧
    provider.Arch (provider.ConnectInfo_ConnectorConfig info) = "amd64" ∧
    provider.Protocol (provider.ConnectInfo_ConnectorConfig info) = "ssh".
Proof.
  destruct (ConnectInfo_config baseGroup "uuid-1"
              (mockWithDetails (inl (detailsWith twoOfEachKind)))
              (mockWithDetails (inl (detailsWith twoOfEachKind)))
              (detailsWith twoOfEachKind))
    as (info & Hrun & _ & Hcfg & _); [reflexivity|].
  exists info. rewrite Hrun, Hcfg. repeat split.
Defined.

Lemma ConnectInfo_reads_routable_witness :
  (run (ConnectInfo privateGroup "uuid-1")
     (mockWithDetails (inl (detailsWith twoOfEachKind)))).1.1
  = (run (ConnectInfo privateGroup "uuid-1")
       (mockWithDetails (inl (detailsWith routableOnly)))).1.1.
Proof.
  apply (ConnectInfo_reads_routable privateGroup "uuid-1" _
           (mockWithDetails (inl (detailsWith twoOfEachKind))) _
           (mockWithDetails (inl (detailsWith routableOnly)))
           (detailsWith twoOfEachKind) (detailsWith routableOnly));
    reflexivity.
Defined.

(** ** Init *)

(** [validate] does not read the settings. *)
Lemma validate_set_settings (g : InstanceGroup) (st : provider.Settings) :
  validate (set_settings g st)
    = ((validate g).1, set_settings (validate g).2 st).
Proof.
  unfold validate.
  change (Token (set_settings g st)) with (Token g).
  change (Username (set_settings g st)) with (Username g).
  change (Password (set_settings g st)) with (Password g).
  change (Zone (set_settings g st)) with (Zone g).
  change (Template (set_settings g st)) with (Template g).
  change (Name (set_settings g st)) with (Name g).
  destruct (isEmpty (Token g) && (isEmpty (Username g) || isEmpty (Password g)));
    [reflexivity|].
  destruct (isEmpty (Zone g)); [reflexivity|].
  destruct (isEmpty (Template g)); [reflexivity|].
  destruct (isEmpty (Name g)); [reflexivity|].
  change (Plan (set_settings g st)) with (Plan g).
  destruct (isEmpty (Plan g)).
  - change (NamePrefix (set_Plan (set_settings g st) defaultPlan)) with (NamePrefix g).
    change (NamePrefix (set_Plan g defaultPlan)) with (NamePrefix g).
    destruct (isEmpty (NamePrefix g));
      cbn [MaxSize set_NamePrefix set_Plan set_settings];
      destruct (bool_decide (MaxSize g = 0)); reflexivity.
  - change (NamePrefix (set_settings g st)) with (NamePrefix g).
    destruct (isEmpty (NamePrefix g));
      cbn [MaxSize set_NamePrefix set_Plan set_settings];
      destruct (bool_decide (MaxSize g = 0)); reflexivity.
Qed.


Lemma key_check (authorizedKey : list Byte.byte → string + error)
    (st : provider.Settings) :
  parsedKey authorizedKey st =
    if bool_decide
         (0 < Z.of_nat (length (provider.Key (provider.Settings_ConnectorConfig st))))
    then Some (authorizedKey (provider.Key (provider.Settings_ConnectorConfig st)))
    else None.
Proof.
  unfold parsedKey.
  destruct (provider.Key (provider.Settings_ConnectorConfig st)); reflexivity.
Qed.

Section InitProperties.
Context {S : Type} `{!Env S}.
Variable authorizedKey : list Byte.byte → string + error.
Variable version : VersionInfo.

Lemma run_Init_connect (g : InstanceGroup) (s : S) :
  run (Init_connect version g) s =
    let '(r, s1) := getAccount s in
    match r with
    | inr err =>
        ((noProviderInfo, Some (Errorf_w "authenticating with UpCloud API: " err), g),
         s1, [EvGetAccount (inr err)])
    | inl a =>
        (({| ProviderInfo_ID := "upcloud/" +:+ Zone g +:+ "/" +:+ Name g;
             ProviderInfo_MaxSize := MaxSize g;
             ProviderInfo_Version := VersionInfo_Version version;
             ProviderInfo_BuildInfo :=
               VersionInfo_Name version +:+ "@" +:+ VersionInfo_Revision version
                 +:+ " built " +:+ VersionInfo_BuiltAt version |}, None, g),
         s1,
         [EvGetAccount (inl a);
          EvLog LevelInfo "initialized"
            [LStr "zone"; LStr (Zone g); LStr "group"; LStr (Name g);
             LStr "plan"; LStr (Plan g)]])
    end.
Proof.
  unfold Init_connect. rewrite run_bind. cbn [run call handle].
  destruct (getAccount s) as [[a | err] s1]; [|reflexivity].
  rewrite run_bind. reflexivity.
Qed.

(** What [Init] does once [validate] has accepted the group. *)
Lemma run_Init_accepted (g g' : InstanceGroup) (st : provider.Settings) (s : S) :
  validate g = (None, g') →
  run (Init authorizedKey version g st) s =
    match parsedKey authorizedKey st with
    | Some (inr err) =>
        ((noProviderInfo,
          Some (Errorf_w "parsing SSH private key from connector_config: " err),
          set_settings g' st), s, [])
    | Some (inl pk) => run (Init_connect version (initialized g' st (Some pk))) s
    | None =>
        let '(res, s1, tr) := run (Init_connect version (initialized g' st None)) s in
        (res, s1, EvLog LevelWarn noKeyWarning [] :: tr)
    end.
Proof.
  intros Hok. unfold Init. rewrite validate_set_settings, Hok. cbn [fst snd].
  rewrite key_check. case_bool_decide.
  - destruct (authorizedKey _) as [pk | err]; reflexivity.
  - rewrite run_bind. cbn [run log call handle initialized].
    destruct (run (Init_connect version (set_settings g' st)) s) as [[res s1] tr].
    reflexivity.
Qed.


(** X10: when the group is valid but the configured SSH key cannot be
    parsed, [Init] returns the parser's error wrapped under "parsing SSH
    private key from connector_config: "; the service is not called and
    nothing is logged, and the public key of the group is left as it was. *)
Theorem Init_bad_key (g g' : InstanceGroup) (st : provider.Settings) (err : error)
    (s : S) :
  validate g = (None, g') →
  parsedKey authorizedKey st = Some (inr err) →
  ∃ e,
    run (Init authorizedKey version g st) s
      = ((noProviderInfo, Some e, set_settings g' st), s, []) ∧
    Error e = "parsing SSH private key from connector_config: " +:+ Error err ∧
    errors_Is e err = true ∧
    publicKey (set_settings g' st) = publicKey g.
Proof.
  intros Hok Hkey. eexists. split.
  { rewrite (run_Init_accepted g g' st s Hok), Hkey. reflexivity. }
  split; [reflexivity|]. split.
  - cbn [Errorf_w errors_Is]. rewrite errors_Is_refl. apply orb_true_r.
  - apply validate_success in Hok as [_ ->]. reflexivity.
Qed.

(** X11: when the group is valid and the key, if any, parses, but the
    service refuses [GetAccount], [Init] returns that error wrapped under
    "authenticating with UpCloud API: ", with the empty provider info;
    [GetAccount] is the only call made to the service. *)
Theorem Init_denied (g g' : InstanceGroup) (st : provider.Settings) (err : error)
    (s s1 : S) :
  validate g = (None, g') →
  (∀ e, parsedKey authorizedKey st ≠ Some (inr e)) →
  getAccount s = (inr err, s1) →
  ∃ e gfinal tr,
    run (Init authorizedKey version g st) s = ((noProviderInfo, Some e, gfinal), s1, tr) ∧
    Error e = "authenticating with UpCloud API: " +:+ Error err ∧
    errors_Is e err = true ∧
    providerCalls tr = [EvGetAccount (inr err)].
Proof.
  intros Hok Hkey Hget.
  assert (Herr : errors_Is (Errorf_w "authenticating with UpCloud API: " err) err = true).
  { cbn [Errorf_w errors_Is]. rewrite errors_Is_refl. apply orb_true_r. }
  rewrite (run_Init_accepted g g' st s Hok).
  destruct (parsedKey authorizedKey st) as [[pk | e] |].
  - rewrite run_Init_connect, Hget. eexists _, _, _. split; [reflexivity|].
    split; [reflexivity|]. split; [exact Herr | reflexivity].
  - destruct (Hkey e). reflexivity.
  - rewrite run_Init_connect, Hget. eexists _, _, _. split; [reflexivity|].
    split; [reflexivity|]. split; [exact Herr | reflexivity].
Qed.

(** X12: when the group is valid, the key, if any, parses and
    [GetAccount] succeeds, [Init] succeeds: the provider id is
    "upcloud/<zone>/<name>", the maximum size is the configured one, or 100
    when none is configured, and so never 0; the group is left validated,
    holding the settings and, when a key is configured, its public key;
    [GetAccount] is the only call to the service; and the warning about the
    missing key is logged exactly when no key is configured. *)
Theorem Init_success (g g' : InstanceGroup) (st : provider.Settings)
    (a : upcloud.Account) (s s1 : S) :
  validate g = (None, g') →
  (∀ e, parsedKey authorizedKey st ≠ Some (inr e)) →
  getAccount s = (inl a, s1) →
  ∃ info gfinal tr,
    run (Init authorizedKey version g st) s = ((info, None, gfinal), s1, tr) ∧
    ProviderInfo_ID info = "upcloud/" +:+ Zone g +:+ "/" +:+ Name g ∧
    ProviderInfo_MaxSize info = (if decide (MaxSize g = 0) then 100 else MaxSize g) ∧
    ProviderInfo_MaxSize info ≠ 0 ∧
    ProviderInfo_Version info = VersionInfo_Version version ∧
    gfinal = initialized g' st
               (match parsedKey authorizedKey st with
                | Some (inl pk) => Some pk
                | _ => None
                end) ∧
    providerCalls tr = [EvGetAccount (inl a)] ∧
    (EvLog LevelWarn noKeyWarning [] ∈ tr
     ↔ provider.Key (provider.Settings_ConnectorConfig st) = []).
Proof.
  intros Hok Hkey Hget.
  pose proof (validate_success g g' Hok) as [_ Hg'].
  assert (Hsize : MaxSize g' = if decide (MaxSize g = 0) then 100 else MaxSize g).
  { rewrite Hg'. reflexivity. }
  assert (Hzone : Zone g' = Zone g) by (rewrite Hg'; reflexivity).
  assert (Hname : Name g' = Name g) by (rewrite Hg'; reflexivity).
  assert (Hpos : MaxSize g' ≠ 0).
  { rewrite Hsize. case_decide; [discriminate | assumption]. }
  rewrite (run_Init_accepted g g' st s Hok).
  destruct (parsedKey authorizedKey st) as [[pk | e] |] eqn:Hparsed.
  - rewrite run_Init_connect, Hget. eexists _, _, _. split; [reflexivity|].
    cbn [ProviderInfo_ID ProviderInfo_MaxSize ProviderInfo_Version].
    change (Zone (initialized g' st (Some pk))) with (Zone g').
    change (Name (initialized g' st (Some pk))) with (Name g').
    change (MaxSize (initialized g' st (Some pk))) with (MaxSize g').
    rewrite Hzone, Hname. repeat split; try assumption.
    + intros Hin. exfalso.
      repeat (apply elem_of_cons in Hin as [Hin | Hin]; [discriminate|]).
      inversion Hin.
    + intros Hnone. exfalso. unfold parsedKey in Hparsed. rewrite Hnone in Hparsed.
      discriminate.
  - destruct (Hkey e). reflexivity.
  - rewrite run_Init_connect, Hget. eexists _, _, _. split; [reflexivity|].
    cbn [ProviderInfo_ID ProviderInfo_MaxSize ProviderInfo_Version].
    change (Zone (initialized g' st None)) with (Zone g').
    change (Name (initialized g' st None)) with (Name g').
    change (MaxSize (initialized g' st None)) with (MaxSize g').
    rewrite Hzone, Hname. repeat split; try assumption.
    + intros _. unfold parsedKey in Hparsed.
      destruct (decide (provider.Key (provider.Settings_ConnectorConfig st) = []));
        [assumption | discriminate].
    + intros _. left.
Qed.

(** X13: [Init] followed by [Increase]: every server requested after a
    successful [Init] has a non-empty plan, the zone of the group and the
    label [Update] lists by; and it has a login user, named as in the
    settings given to [Init] and holding the public key derived there,
    exactly when that key is not empty. *)
Theorem Init_then_Increase (g g' : InstanceGroup) (st : provider.Settings)
    (a : upcloud.Account) (s s1 : S) (n : Z) :
  validate g = (None, g') →
  (∀ e, parsedKey authorizedKey st ≠ Some (inr e)) →
  getAccount s = (inl a, s1) →
  let gfinal := (run (Init authorizedKey version g st) s).1.1.2 in
  let key := match parsedKey authorizedKey st with
             | Some (inl pk) => pk
             | _ => publicKey g
             end in
  Forall (fun c =>
            request.Plan c.1 ≠ "" ∧
            request.Zone c.1 = Zone g ∧
            request.Labels c.1 = Some (filterLabels (listReq g)) ∧
            request.CreateServerRequest_LoginUser c.1
              = if decide (key = "") then None
                else Some {| request.LoginUser_Username :=
                               provider.Username (provider.Settings_ConnectorConfig st);
                             request.SSHKeys := [key] |})
    (createAttempts (run (Increase gfinal n) s1).2).
Proof.
  intros Hok Hkey Hget gfinal key.
  pose proof (validate_success g g' Hok) as [_ Hg'].
  assert (Hfinal : gfinal = initialized g' st
                     (match parsedKey authorizedKey st with
                      | Some (inl pk) => Some pk
                      | _ => None
                      end)).
  { unfold gfinal. rewrite (run_Init_accepted g g' st s Hok).
    destruct (parsedKey authorizedKey st) as [[pk | e] |].
    - rewrite run_Init_connect, Hget. reflexivity.
    - destruct (Hkey e). reflexivity.
    - rewrite run_Init_connect, Hget. reflexivity. }
  assert (Hplan : Plan gfinal ≠ "").
  { rewrite Hfinal, Hg'.
    destruct (parsedKey authorizedKey st) as [[pk | e] |]; cbn;
      case_decide; first [discriminate | assumption]. }
  assert (Hpk : publicKey gfinal = key).
  { rewrite Hfinal, Hg'. unfold key.
    destruct (parsedKey authorizedKey st) as [[pk | e] |]; reflexivity. }
  assert (Hst : settings gfinal = st).
  { rewrite Hfinal. destruct (parsedKey authorizedKey st) as [[pk | e] |]; reflexivity. }
  assert (Hzone : Zone gfinal = Zone g).
  { rewrite Hfinal, Hg'.
    destruct (parsedKey authorizedKey st) as [[pk | e] |]; reflexivity. }
  assert (Hname : Name gfinal = Name g).
  { rewrite Hfinal, Hg'.
    destruct (parsedKey authorizedKey st) as [[pk | e] |]; reflexivity. }
  eapply Forall_impl; [apply run_Increase_own|].
  intros [r res] (suffix & _ & Hr). cbn [fst] in *. subst r.
  unfold createReq, listReq, filterLabels.
  cbn [request.Plan request.Zone request.Labels request.CreateServerRequest_LoginUser
       request.Filters fmap list_fmap].
  rewrite Hpk, Hst, Hzone, Hname. repeat split; [exact Hplan|].
  unfold isEmpty. destruct (decide (key = "")) as [-> | Hne].
  - reflexivity.
  - rewrite bool_decide_eq_false_2 by exact Hne. reflexivity.
Qed.

End InitProperties.


Lemma Init_bad_key_witness :
  ∃ e,
    run (Init mockAuthorizedKey devVersion tokenOnly (keySettings notAKey)) newMockSvc
      = ((noProviderInfo, Some e,
          set_settings (defaulted tokenOnly) (keySettings notAKey)), newMockSvc, []) ∧
    Error e = "parsing SSH private key from connector_config: ssh: no key found".
Proof.
  destruct (Init_bad_key mockAuthorizedKey devVersion tokenOnly (defaulted tokenOnly)
              (keySettings notAKey) (errorString "ssh: no key found") newMockSvc)
    as (e & Hrun & Hmsg & _); [reflexivity | reflexivity |].
  exists e. split; [exact Hrun | exact Hmsg].
Defined.

Lemma Init_denied_witness :
  ∃ e gfinal tr,
    run (Init mockAuthorizedKey devVersion tokenOnly (keySettings [])) LockedOut
      = ((noProviderInfo, Some e, gfinal), LockedOut, tr) ∧
    Error e = "authenticating with UpCloud API: invalid credentials" ∧
    providerCalls tr = [EvGetAccount (inr invalidCredentials)].
Proof.
  destruct (Init_denied mockAuthorizedKey devVersion tokenOnly (defaulted tokenOnly)
              (keySettings []) invalidCredentials LockedOut LockedOut)
    as (e & gfinal & tr & Hrun & Hmsg & _ & Hcalls);
    [reflexivity | discriminate | reflexivity |].
  exists e, gfinal, tr. split; [exact Hrun|]. split; [exact Hmsg | exact Hcalls].
Defined.

Lemma Init_success_witness :
  ∃ info gfinal tr,
    run (Init mockAuthorizedKey devVersion tokenOnly (keySettings someKey)) newMockSvc
      = ((info, None, gfinal), newMockSvc, tr) ∧
    ProviderInfo_ID info = "upcloud/z/n" ∧
    ProviderInfo_MaxSize info = 100 ∧
    publicKey gfinal = testPublicKey.
Proof.
  destruct (Init_success mockAuthorizedKey devVersion tokenOnly (defaulted tokenOnly)
              (keySettings someKey) {| upcloud.UserName := "test" |}
              newMockSvc newMockSvc)
    as (info & gfinal & tr & Hrun & Hid & Hsize & _ & _ & Hfinal & _);
    [reflexivity | discriminate | reflexivity |].
  exists info, gfinal, tr. split; [exact Hrun|]. split; [exact Hid|].
  split; [exact Hsize|]. rewrite Hfinal. reflexivity.
Defined.

Lemma Init_then_Increase_witness :
  Forall (fun c =>
            request.CreateServerRequest_LoginUser c.1
              = Some {| request.LoginUser_Username := "root";
                        request.SSHKeys := [testPublicKey] |})
    (createAttempts
       (run (Increase
               (run (Init mockAuthorizedKey devVersion tokenOnly (keySettings someKey))
                  newMockSvc).1.1.2 2) newMockSvc).2).
Proof.
  eapply Forall_impl.
  - apply (Init_then_Increase mockAuthorizedKey devVersion tokenOnly (defaulted tokenOnly)
             (keySettings someKey) {| upcloud.UserName := "test" |}
             newMockSvc newMockSvc 2); [reflexivity | discriminate | reflexivity].
  - intros c (_ & _ & _ & Hlogin). exact Hlogin.
Defined.

Section Moments.
Context {S : Type} `{!Env S}.

(** ** Decrease, at every moment *)

Lemma one_holder {A : Type} (P : A → bool) (l : list A) (i j : nat) (x y : A) :
  (length (filter (fun t => P t = true) l) ≤ 1)%nat →
  l !! i = Some x → l !! j = Some y → P x = true → P y = true → i = j.
Proof.
  revert i j. induction l as [| z l IH]; intros i j Hlen Hi Hj Hx Hy; [discriminate|].
  assert (Hnone : P z = true → ∀ k w, l !! k = Some w → P w = true → False).
  { intros Hz k w Hk Hw. rewrite filter_cons_True in Hlen by exact Hz.
    cbn [length] in Hlen.
    assert (Hin : w ∈ filter (fun t => P t = true) l).
    { apply list_elem_of_filter. split; [exact Hw|]. eapply list_elem_of_lookup_2, Hk. }
    destruct (filter (fun t => P t = true) l); [inversion Hin | cbn in Hlen; lia]. }
  destruct i as [| i], j as [| j]; cbn in Hi, Hj.
  - reflexivity.
  - injection Hi as ->. destruct (Hnone Hx j y Hj Hy).
  - injection Hj as ->. destruct (Hnone Hy i x Hi Hx).
  - f_equal. apply IH; try assumption.
    rewrite filter_cons in Hlen. case_decide; cbn [length] in Hlen; lia.
Qed.

Lemma uuids_weaker (P Q : Task → bool) (ts : list Task) :
  (∀ t, P t = true → Q t = true) →
  (filter (fun t => P t = true) ts).*1 ⊆+ (filter (fun t => Q t = true) ts).*1.
Proof.
  intros HPQ. apply fmap_submseteq.
  induction ts as [| t ts IH]; [reflexivity|].
  rewrite !filter_cons. repeat case_decide;
    first [ apply submseteq_skip, IH | apply submseteq_cons, IH | exact IH | idtac ].
  exfalso. auto.
Qed.

Lemma uuids_within (P : Task → bool) (ts : list Task) :
  (filter (fun t => P t = true) ts).*1 ⊆+ ts.*1.
Proof. apply fmap_submseteq, sublist_submseteq, sublist_filter. Qed.

Lemma spawn_uuids (g : InstanceGroup) (instances : list string) (s : S) :
  (tasks (spawn g instances s)).*1 = instances.
Proof.
  cbn. induction instances as [| u l IH]; [reflexivity|]. cbn. f_equal. exact IH.
Qed.

(** X14: mutual exclusion.  In every state [Decrease] can reach, under any
    schedule, at most one goroutine is between its [mu.Lock()] and its
    [mu.Unlock()]: two tasks that are both inside are the same task; and the
    mutex is locked exactly when some task is inside. *)
Theorem Decrease_mutual_exclusion (g : InstanceGroup) (instances : list string)
    (sched : list nat) (s : S) :
  let st := exec sched (spawn g instances s) in
  (mu (shared st) = true ↔ Exists (fun t => holdsMu t = true) (tasks st)) ∧
  (∀ i j ti tj,
     tasks st !! i = Some ti → tasks st !! j = Some tj →
     holdsMu ti = true → holdsMu tj = true → i = j).
Proof.
  intros st.
  pose proof (inv_mu _ _ (exec_inv sched _ (spawn_inv g instances s))) as Hmu.
  fold st in Hmu. split.
  - rewrite Exists_exists. split.
    + intros Hlocked. rewrite Hlocked in Hmu.
      destruct (filter (fun t => holdsMu t = true) (tasks st)) as [| t l] eqn:Hf;
        [discriminate|].
      assert (Hin : t ∈ filter (fun t => holdsMu t = true) (tasks st))
        by (rewrite Hf; left).
      apply list_elem_of_filter in Hin as [Hholds Hin]. exists t. split; assumption.
    + intros (t & Hin & Hholds).
      assert (Hin' : t ∈ filter (fun t => holdsMu t = true) (tasks st))
        by (apply list_elem_of_filter; split; assumption).
      destruct (mu (shared st)); [reflexivity|].
      destruct (filter (fun t => holdsMu t = true) (tasks st));
        [inversion Hin' | discriminate].
  - intros i j ti tj. apply one_holder. rewrite Hmu. destruct (mu (shared st)); lia.
Qed.

(** X15: at every moment of [Decrease], under any schedule, [succeeded]
    holds only instances the trace already shows deleted, none more often
    than it was deleted; and the deletions and failed removals shown so far
    are among the instances asked for, none shown more often than it was
    asked for. *)
Theorem Decrease_reports_only_deleted (g : InstanceGroup) (instances : list string)
    (sched : list nat) (s : S) :
  let sh := shared (exec sched (spawn g instances s)) in
  succeeded sh ⊆+ deleted (trace sh) ∧
  deleted (trace sh) ++ failedRemovals (trace sh) ⊆+ instances.
Proof.
  intros sh.
  pose proof (exec_inv sched _ (spawn_inv g instances s)) as [_ Hsucc _ _ _ _].
  pose proof (exec_trace_inv g sched _ (spawn_trace_inv g instances s))
    as [_ Hdel Hfail].
  fold sh in Hsucc, Hdel, Hfail. split.
  - rewrite Hsucc, Hdel. apply uuids_weaker.
    intros [uuid pt] Happ. destruct pt as [| | | | | | | | | | [err|]];
      first [discriminate Happ | reflexivity].
  - rewrite Hdel, Hfail.
    trans (tasks (exec sched (spawn g instances s))).*1;
      [|rewrite exec_uuids, spawn_uuids; reflexivity].
    generalize (tasks (exec sched (spawn g instances s))). clear.
    intros l. induction l as [| [uuid pt] l IH]; [reflexivity|].
    rewrite !filter_cons.
    destruct (pastDelete (uuid, pt)) eqn:Hd, (pastFailure (uuid, pt)) eqn:Hf;
      repeat case_decide; try congruence; cbn [fmap list_fmap fst app].
    + exfalso. destruct pt as [[[e|]|[] k] | | | | | | | | | | [e|]]; discriminate.
    + apply submseteq_skip, IH.
    + rewrite <- Permutation_middle. apply submseteq_skip, IH.
    + apply submseteq_cons, IH.
Qed.

(** *** The calls account for the tasks *)

Lemma flow_step (P : Task → bool) (l1 l2 : list Task) (t t' : Task)
    (A A' B B' : list string) :
  t'.1 = t.1 →
  A' = A ++ (if P t then [] else if P t' then [t.1] else []) →
  B' = B ++ (if P t then if P t' then [] else [t.1] else []) →
  A ≡ₚ B ++ (filter (fun t => P t = true) (l1 ++ t :: l2)).*1 →
  A' ≡ₚ B' ++ (filter (fun t => P t = true) (l1 ++ t' :: l2)).*1.
Proof.
  intros Hid -> ->. rewrite !uuids_focus, Hid. intros HA.
  destruct (P t), (P t'); rewrite ?app_nil_r; cbn [app] in *.
  - exact HA.
  - rewrite HA, <- (assoc_L (++) B). apply Permutation_app_head.
    rewrite <- Permutation_middle. reflexivity.
  - rewrite HA, <- Permutation_cons_append, !(assoc_L (++) B).
    apply Permutation_middle.
  - exact HA.
Qed.

Lemma call_inv_step (ids : list string) (sh sh' : Shared S) (t t' : Task)
    (l1 l2 : list Task) :
  t'.1 = t.1 →
  (atStop t = false → atStop t' = false) →
  stopCalls (trace sh') =
    stopCalls (trace sh) ++ (if atStop t then if atStop t' then [] else [t.1] else []) →
  stopped (trace sh') =
    stopped (trace sh) ++ (if atWait t then [] else if atWait t' then [t.1] else []) →
  waitCalls (trace sh') =
    waitCalls (trace sh) ++ (if atWait t then if atWait t' then [] else [t.1] else []) →
  awaited (trace sh') =
    awaited (trace sh) ++ (if atDelete t then [] else if atDelete t' then [t.1] else []) →
  deleteCalls (trace sh') =
    deleteCalls (trace sh)
    ++ (if atDelete t then if atDelete t' then [] else [t.1] else []) →
  CallInv ids sh (l1 ++ t :: l2) → CallInv ids sh' (l1 ++ t' :: l2).
Proof.
  intros Hid Hstart Hstops Hstopped Hwaits Hawaited Hdeletes [I1 I2 I3]. split.
  - eapply (flow_step atStop); [exact Hid | | exact Hstops | exact I1].
    destruct (atStop t); [|rewrite Hstart by reflexivity]; rewrite app_nil_r; reflexivity.
  - eapply (flow_step atWait); [exact Hid | exact Hstopped | exact Hwaits | exact I2].
  - eapply (flow_step atDelete); [exact Hid | exact Hawaited | exact Hdeletes | exact I3].
Qed.

Lemma calls_snoc (f : Event → option string) (tr : list Event) (ev : Event) :
  omap f (tr ++ [ev]) = omap f tr ++ from_option (fun u => [u]) [] (f ev).
Proof. rewrite omap_app. cbn. destruct (f ev); reflexivity. Qed.

Ltac quiet Hinv :=
  eapply call_inv_step; [.. | exact Hinv];
  cbn [fst snd atStop atWait atDelete trace set_mu set_succeeded set_firstErr];
  rewrite ?app_nil_r;
  first [reflexivity | done].

Ltac called :=
  let Htr := fresh "Htr" in
  let x := fresh "x" in
  let sh1 := fresh "sh1" in
  match goal with
  | Hadv : context [@perform _ _ ?sh ?a] |- _ =>
      pose proof (perform_trace sh a) as Htr;
      destruct (perform sh a) as [x sh1];
      cbn [fst snd] in Htr
  end;
  match goal with
  | Hadv : (_, _) = (_, _) |- _ => injection Hadv as <- <-
  end.

Ltac counted Hinv Htr :=
  eapply call_inv_step; [.. | exact Hinv];
  unfold stopCalls, stopped, waitCalls, awaited, deleteCalls;
  rewrite ?Htr, ?calls_snoc;
  cbn [fst snd atStop atWait atDelete trace event from_option
       stopCallOf stoppedOf waitCallOf awaitedOf deleteCallOf
       stopReq waitReq deleteReq waitStage deleteStage afterDelete
       mbind Prog_bind bind call log
       request.StopServerRequest_UUID request.WaitForServerStateRequest_UUID
       request.DeleteServerAndStoragesRequest_UUID];
  rewrite ?app_nil_r;
  first [reflexivity | done].

Lemma advance_call_inv (g : InstanceGroup) (ids : list string) (sh sh' : Shared S)
    (t t' : Task) (l1 l2 : list Task) :
  advance sh t = (sh', t') → wellStaged g t →
  CallInv ids sh (l1 ++ t :: l2) → CallInv ids sh' (l1 ++ t' :: l2).
Proof.
  intros Hadv Hstaged Hinv. destruct t as [uuid pt].
  destruct pt as [p | err | err | err | err | err | | | old | | r];
    unfold advance in Hadv; cbv beta iota in Hadv.
  - cbn in Hstaged. destruct Hstaged as [-> | [-> | [-> | [-> | [r ->]]]]].
    + unfold stopAndDelete in Hadv. cbn [mbind Prog_bind bind call] in Hadv.
      called. destruct x as [d | err]; counted Hinv Htr.
    + unfold waitStage in Hadv. cbn [mbind Prog_bind bind call] in Hadv.
      called. destruct x as [d | err]; counted Hinv Htr.
    + unfold deleteStage in Hadv. cbn [mbind Prog_bind bind call] in Hadv.
      called. destruct x as [err |]; counted Hinv Htr.
    + unfold afterDelete in Hadv. cbn [mbind Prog_bind bind call log] in Hadv.
      called. counted Hinv Htr.
    + destruct r as [err|]; injection Hadv as <- <-; quiet Hinv.
  - called. counted Hinv Htr.
  - destruct (mu sh); injection Hadv as <- <-; [exact Hinv | quiet Hinv].
  - destruct (firstErr sh); injection Hadv as <- <-; quiet Hinv.
  - injection Hadv as <- <-; quiet Hinv.
  - injection Hadv as <- <-; quiet Hinv.
  - destruct (mu sh); injection Hadv as <- <-; [exact Hinv | quiet Hinv].
  - injection Hadv as <- <-; quiet Hinv.
  - injection Hadv as <- <-; quiet Hinv.
  - injection Hadv as <- <-; quiet Hinv.
  - injection Hadv as <- <-. exact Hinv.
Qed.

Lemma step_call_inv (g : InstanceGroup) (ids : list string) (i : nat) (st : Pool S) :
  TraceInv g (shared st) (tasks st) →
  CallInv ids (shared st) (tasks st) →
  CallInv ids (shared (step i st)) (tasks (step i st)).
Proof.
  intros Hstaged Hinv. destruct (tasks st !! i) as [t|] eqn:Hi.
  - destruct (step_focus i st t Hi) as (l1 & l2 & Hts & _ & ->). cbn.
    rewrite Hts in Hinv. eapply (advance_call_inv g); [| |exact Hinv].
    + destruct (advance (shared st) t); reflexivity.
    + destruct Hstaged as [Hall _ _]. rewrite Hts in Hall.
      apply Forall_focus in Hall. tauto.
  - rewrite step_idle by exact Hi. exact Hinv.
Qed.

Lemma exec_call_inv (g : InstanceGroup) (ids : list string) (sched : list nat)
    (st : Pool S) :
  TraceInv g (shared st) (tasks st) →
  CallInv ids (shared st) (tasks st) →
  CallInv ids (shared (exec sched st)) (tasks (exec sched st)).
Proof.
  revert st. induction sched as [| i sched IH]; intros st Hstaged Hinv; [exact Hinv|].
  cbn [exec fold_left]. fold (exec sched (step i st)).
  apply IH; [apply step_trace_inv, Hstaged | apply (step_call_inv g), Hinv; exact Hstaged].
Qed.

Lemma spawn_call_inv (g : InstanceGroup) (instances : list string) (s : S) :
  CallInv instances (shared (spawn g instances s)) (tasks (spawn g instances s)).
Proof.
  unfold spawn. split; cbn [shared tasks trace];
    [change (stopCalls []) with (@nil string)
    |change (stopped []) with (@nil string); change (waitCalls []) with (@nil string)
    |change (awaited []) with (@nil string); change (deleteCalls []) with (@nil string)];
    cbn [app].
  - induction instances as [| uuid l IH]; [reflexivity|].
    cbn [map]. rewrite filter_cons_True by reflexivity.
    rewrite fmap_cons. apply Permutation_skip, IH.
  - induction instances as [| uuid l IH]; [reflexivity|].
    cbn [map]. rewrite filter_cons_False by discriminate. exact IH.
  - induction instances as [| uuid l IH]; [reflexivity|].
    cbn [map]. rewrite filter_cons_False by discriminate. exact IH.
Qed.

Lemma finished_calls (P : Task → bool) (ts : list Task) :
  (∀ t, isDone t = true → P t = false) →
  Forall (fun t => isDone t = true) ts →
  (filter (fun t => P t = true) ts).*1 = [].
Proof.
  intros Hnot. induction 1 as [| t ts Hdone _ IH]; [reflexivity|].
  rewrite filter_cons_False; [exact IH|]. rewrite (Hnot t Hdone). discriminate.
Qed.

Lemma done_calls (t : Task) :
  isDone t = true → atStop t = false ∧ atWait t = false ∧ atDelete t = false.
Proof. destruct t as [uuid []]; try discriminate. repeat split. Qed.

(** X16: at every moment of [Decrease], under any schedule, the stop calls
    made so far are among the instances asked for, one per instance at most;
    every wait call made so far follows a successful stop of its instance,
    and every delete call a successful wait: no server is waited for before
    it was stopped, or deleted before it was awaited, one call for one. *)
Theorem Decrease_call_order (g : InstanceGroup) (instances : list string)
    (sched : list nat) (s : S) :
  let tr := trace (shared (exec sched (spawn g instances s))) in
  stopCalls tr ⊆+ instances ∧
  waitCalls tr ⊆+ stopped tr ∧
  deleteCalls tr ⊆+ awaited tr.
Proof.
  intros tr.
  destruct (exec_call_inv g instances sched _
              (spawn_trace_inv g instances s) (spawn_call_inv g instances s))
    as [I1 I2 I3].
  fold tr in I1, I2, I3.
  split; [|split].
  - rewrite I1. apply submseteq_inserts_r. reflexivity.
  - rewrite I2. apply submseteq_inserts_r. reflexivity.
  - rewrite I3. apply submseteq_inserts_r. reflexivity.
Qed.

(** X17: when [Decrease] returns, every instance asked for has had exactly
    one stop call, whatever became of the others; the wait calls are exactly
    the successful stops and the delete calls exactly the successful waits;
    and every instance returned was asked for, stopped, awaited and
    deleted. *)
Theorem Decrease_calls (g : InstanceGroup) (instances : list string)
    (sched : list nat) (s s' : S) (succ : list string) (err : option error)
    (tr : list Event) :
  Decrease g instances sched s = Some (succ, err, s', tr) →
  stopCalls tr ≡ₚ instances ∧
  waitCalls tr ≡ₚ stopped tr ∧
  deleteCalls tr ≡ₚ awaited tr ∧
  (∀ uuid, uuid ∈ succ →
     uuid ∈ instances ∧ uuid ∈ stopped tr ∧ uuid ∈ awaited tr ∧ uuid ∈ deleted tr).
Proof.
  unfold Decrease.
  destruct (finished (exec sched (spawn g instances s))) eqn:Hfin; [|discriminate].
  intros [= <- <- <- <-]. apply finished_Forall in Hfin.
  destruct (exec_call_inv g instances sched _
              (spawn_trace_inv g instances s) (spawn_call_inv g instances s))
    as [I1 I2 I3].
  rewrite (finished_calls atStop) in I1
    by (first [exact Hfin | intros t Ht; apply (done_calls t Ht)]).
  rewrite (finished_calls atWait) in I2
    by (first [exact Hfin | intros t Ht; apply (done_calls t Ht)]).
  rewrite (finished_calls atDelete) in I3
    by (first [exact Hfin | intros t Ht; apply (done_calls t Ht)]).
  rewrite app_nil_r in I1, I2, I3.
  split; [symmetry; exact I1|]. split; [symmetry; exact I2|].
  split; [symmetry; exact I3|].
  intros uuid Hin.
  pose proof (exec_inv sched _ (spawn_inv g instances s)) as [_ Hsucc _ _ _ _].
  pose proof (exec_trace_inv g sched _ (spawn_trace_inv g instances s))
    as [_ Hdel _].
  set (st := exec sched (spawn g instances s)) in *.
  assert (Hdeleted : uuid ∈ deleted (trace (shared st))).
  { rewrite Hdel. rewrite Hsucc in Hin.
    eapply elem_of_submseteq; [exact Hin|]. apply uuids_weaker.
    intros [u pt] Happ. destruct pt as [| | | | | | | | | | [e|]];
      first [discriminate Happ | reflexivity]. }
  assert (Hsub : ∀ tr0 : list Event, deleted tr0 ⊆+ deleteCalls tr0).
  { clear. induction tr0 as [| ev tr0 IH]; [reflexivity|].
    destruct ev as [| | | | | r [e|] | | | |]; cbn;
      first [exact IH | apply submseteq_cons, IH | apply submseteq_skip, IH]. }
  assert (Hawaited : uuid ∈ awaited (trace (shared st))).
  { rewrite I3. eapply elem_of_submseteq; [exact Hdeleted | apply Hsub]. }
  assert (Hsub2 : ∀ tr0 : list Event, awaited tr0 ⊆+ waitCalls tr0).
  { clear. induction tr0 as [| ev tr0 IH]; [reflexivity|].
    destruct ev as [| | | | r [d|e] | | | | |]; cbn;
      first [exact IH | apply submseteq_cons, IH | apply submseteq_skip, IH]. }
  assert (Hstopped : uuid ∈ stopped (trace (shared st))).
  { rewrite I2. eapply elem_of_submseteq; [exact Hawaited | apply Hsub2]. }
  assert (Hsub3 : ∀ tr0 : list Event, stopped tr0 ⊆+ stopCalls tr0).
  { clear. induction tr0 as [| ev tr0 IH]; [reflexivity|].
    destruct ev as [| | | r [d|e] | | | | | |]; cbn;
      first [exact IH | apply submseteq_cons, IH | apply submseteq_skip, IH]. }
  repeat split; try assumption.
  rewrite I1. eapply elem_of_submseteq; [exact Hstopped | apply Hsub3].
Qed.

(** *** The log accounts for the tasks *)

Lemma log_inv_step (sh sh' : Shared S) (t t' : Task) (l1 l2 : list Task) :
  t'.1 = t.1 →
  (hasLoggedRemoval t = true → hasLoggedRemoval t' = true) →
  (hasLoggedFailure t = true → hasLoggedFailure t' = true) →
  removalLogs (trace sh') =
    removalLogs (trace sh)
    ++ (if hasLoggedRemoval t then [] else if hasLoggedRemoval t' then [t.1] else []) →
  failureLogs (trace sh') =
    failureLogs (trace sh)
    ++ (if hasLoggedFailure t then [] else if hasLoggedFailure t' then [t.1] else []) →
  LogInv sh (l1 ++ t :: l2) → LogInv sh' (l1 ++ t' :: l2).
Proof.
  intros Hid Hkeep1 Hkeep2 Hremoval Hfailure [I1 I2]. split.
  - apply (flow_step hasLoggedRemoval l1 l2 t t'
             (removalLogs (trace sh)) (removalLogs (trace sh')) [] []);
      [exact Hid | exact Hremoval | | exact I1].
    destruct (hasLoggedRemoval t); [rewrite Hkeep1 by reflexivity|]; reflexivity.
  - apply (flow_step hasLoggedFailure l1 l2 t t'
             (failureLogs (trace sh)) (failureLogs (trace sh')) [] []);
      [exact Hid | exact Hfailure | | exact I2].
    destruct (hasLoggedFailure t); [rewrite Hkeep2 by reflexivity|]; reflexivity.
Qed.

Ltac unlogged Hinv :=
  eapply log_inv_step; [.. | exact Hinv];
  cbn [fst snd hasLoggedRemoval hasLoggedFailure trace set_mu set_succeeded set_firstErr];
  rewrite ?app_nil_r;
  first [reflexivity | done | intros; discriminate].

Ltac logged Hinv Htr :=
  eapply log_inv_step; [.. | exact Hinv];
  unfold removalLogs, failureLogs;
  rewrite ?Htr, ?calls_snoc;
  cbn [fst snd hasLoggedRemoval hasLoggedFailure trace event from_option
       removalLogOf failureLogOf waitStage deleteStage afterDelete
       mbind mret Prog_bind Prog_ret bind call log];
  rewrite ?app_nil_r;
  first [reflexivity | done | intros; discriminate].

Lemma advance_log_inv (g : InstanceGroup) (sh sh' : Shared S)
    (t t' : Task) (l1 l2 : list Task) :
  advance sh t = (sh', t') → wellStaged g t →
  LogInv sh (l1 ++ t :: l2) → LogInv sh' (l1 ++ t' :: l2).
Proof.
  intros Hadv Hstaged Hinv. destruct t as [uuid pt].
  destruct pt as [p | err | err | err | err | err | | | old | | r];
    unfold advance in Hadv; cbv beta iota in Hadv.
  - cbn in Hstaged. destruct Hstaged as [-> | [-> | [-> | [-> | [r ->]]]]].
    + unfold stopAndDelete in Hadv. cbn [mbind Prog_bind bind call] in Hadv.
      called. destruct x as [d | err]; logged Hinv Htr.
    + unfold waitStage in Hadv. cbn [mbind Prog_bind bind call] in Hadv.
      called. destruct x as [d | err]; logged Hinv Htr.
    + unfold deleteStage in Hadv. cbn [mbind Prog_bind bind call] in Hadv.
      called. destruct x as [err |]; logged Hinv Htr.
    + unfold afterDelete in Hadv. cbn [mbind Prog_bind bind call log] in Hadv.
      called. logged Hinv Htr.
    + destruct r as [err|]; injection Hadv as <- <-; unlogged Hinv.
  - called. logged Hinv Htr.
  - destruct (mu sh); injection Hadv as <- <-; [exact Hinv | unlogged Hinv].
  - destruct (firstErr sh); injection Hadv as <- <-; unlogged Hinv.
  - injection Hadv as <- <-; unlogged Hinv.
  - injection Hadv as <- <-; unlogged Hinv.
  - destruct (mu sh); injection Hadv as <- <-; [exact Hinv | unlogged Hinv].
  - injection Hadv as <- <-; unlogged Hinv.
  - injection Hadv as <- <-; unlogged Hinv.
  - injection Hadv as <- <-; unlogged Hinv.
  - injection Hadv as <- <-. exact Hinv.
Qed.

Lemma step_log_inv (g : InstanceGroup) (i : nat) (st : Pool S) :
  TraceInv g (shared st) (tasks st) →
  LogInv (shared st) (tasks st) →
  LogInv (shared (step i st)) (tasks (step i st)).
Proof.
  intros Hstaged Hinv. destruct (tasks st !! i) as [t|] eqn:Hi.
  - destruct (step_focus i st t Hi) as (l1 & l2 & Hts & _ & ->). cbn.
    rewrite Hts in Hinv. eapply (advance_log_inv g); [| |exact Hinv].
    + destruct (advance (shared st) t); reflexivity.
    + destruct Hstaged as [Hall _ _]. rewrite Hts in Hall.
      apply Forall_focus in Hall. tauto.
  - rewrite step_idle by exact Hi. exact Hinv.
Qed.

Lemma exec_log_inv (g : InstanceGroup) (sched : list nat) (st : Pool S) :
  TraceInv g (shared st) (tasks st) →
  LogInv (shared st) (tasks st) →
  LogInv (shared (exec sched st)) (tasks (exec sched st)).
Proof.
  revert st. induction sched as [| i sched IH]; intros st Hstaged Hinv; [exact Hinv|].
  cbn [exec fold_left]. fold (exec sched (step i st)).
  apply IH; [apply step_trace_inv, Hstaged | apply (step_log_inv g), Hinv; exact Hstaged].
Qed.

Lemma spawn_log_inv (g : InstanceGroup) (instances : list string) (s : S) :
  LogInv (shared (spawn g instances s)) (tasks (spawn g instances s)).
Proof.
  unfold spawn. split; cbn [shared tasks trace];
    [change (removalLogs []) with (@nil string)
    |change (failureLogs []) with (@nil string)].
  - induction instances as [| uuid l IH]; [reflexivity|].
    cbn [map]. rewrite filter_cons_False by discriminate. exact IH.
  - induction instances as [| uuid l IH]; [reflexivity|].
    cbn [map]. rewrite filter_cons_False by discriminate. exact IH.
Qed.

Lemma finished_same (P Q : Task → bool) (ts : list Task) :
  (∀ t, isDone t = true → P t = Q t) →
  Forall (fun t => isDone t = true) ts →
  filter (fun t => P t = true) ts = filter (fun t => Q t = true) ts.
Proof.
  intros Hsame. induction 1 as [| t ts Hdone _ IH]; [reflexivity|].
  rewrite !filter_cons, IH, (Hsame t Hdone). reflexivity.
Qed.

(** X18: when [Decrease] returns, the log accounts for every instance
    exactly once: the instances logged as removed are, up to order, the
    instances returned; the instances logged as failed to remove are those
    with a failed stop, wait or delete; and together they are the instances
    asked for. *)
Theorem Decrease_logs (g : InstanceGroup) (instances : list string)
    (sched : list nat) (s s' : S) (succ : list string) (err : option error)
    (tr : list Event) :
  Decrease g instances sched s = Some (succ, err, s', tr) →
  removalLogs tr ≡ₚ succ ∧
  failureLogs tr ≡ₚ failedRemovals tr ∧
  instances ≡ₚ removalLogs tr ++ failureLogs tr.
Proof.
  unfold Decrease.
  destruct (finished (exec sched (spawn g instances s))) eqn:Hfin; [|discriminate].
  intros [= <- <- <- <-]. apply finished_Forall in Hfin.
  destruct (exec_log_inv g sched _
              (spawn_trace_inv g instances s) (spawn_log_inv g instances s))
    as [L1 L2].
  pose proof (exec_inv sched _ (spawn_inv g instances s)) as [_ Hsucc _ _ _ _].
  pose proof (exec_trace_inv g sched _ (spawn_trace_inv g instances s))
    as [_ Hdel Hfail].
  pose proof (exec_uuids sched (spawn g instances s)) as Hids.
  rewrite spawn_uuids in Hids.
  set (st := exec sched (spawn g instances s)) in *.
  assert (Hremoved : removalLogs (trace (shared st)) ≡ₚ succeeded (shared st)).
  { rewrite L1, Hsucc, (finished_same hasLoggedRemoval hasAppended (tasks st));
      [reflexivity | | exact Hfin].
    intros [u pt] Hdone. destruct pt as [| | | | | | | | | | [e|]];
      first [discriminate Hdone | reflexivity]. }
  assert (Hfailed : failureLogs (trace (shared st)) ≡ₚ failedRemovals (trace (shared st))).
  { rewrite L2, Hfail, (finished_same hasLoggedFailure pastFailure (tasks st));
      [reflexivity | | exact Hfin].
    intros [u pt] Hdone. destruct pt as [| | | | | | | | | | [e|]];
      first [discriminate Hdone | reflexivity]. }
  split; [exact Hremoved|]. split; [exact Hfailed|].
  rewrite <- Hids, L1, L2. clear -Hfin.
  induction Hfin as [| [u pt] ts Hdone _ IH]; [reflexivity|].
  rewrite !filter_cons.
  destruct pt as [| | | | | | | | | | [e|]]; try discriminate Hdone;
    repeat case_decide;
    try discriminate;
    try (exfalso;
         match goal with Hno : _ ≠ true |- _ => apply Hno; reflexivity end);
    cbn [fmap list_fmap fst app].
  - rewrite <- Permutation_middle. apply Permutation_skip, IH.
  - apply Permutation_skip, IH.
Qed.

End Moments.

Lemma Decrease_mutual_exclusion_witness :
  let st := exec (replicate 6 0%nat) (spawn baseGroup okAndBad mockRemovals) in
  mu (shared st) = true ∧ Exists (fun t => holdsMu t = true) (tasks st).
Proof.
  intros st.
  destruct (Decrease_mutual_exclusion baseGroup okAndBad (replicate 6 0%nat) mockRemovals)
    as [Hiff _].
  fold st in Hiff.
  assert (Hlocked : mu (shared st) = true) by (vm_compute; reflexivity).
  split; [exact Hlocked | apply Hiff, Hlocked].
Defined.

Lemma Decrease_calls_witness :
  let tr := trace (shared (exec takingTurns (spawn baseGroup okAndHang mockRemovals))) in
  stopCalls tr ≡ₚ okAndHang ∧
  waitCalls tr ≡ₚ stopped tr ∧
  deleteCalls tr = ["uuid-ok"].
Proof.
  intros tr.
  destruct (Decrease_calls baseGroup okAndHang takingTurns mockRemovals mockRemovals
              ["uuid-ok"]
              (Some (wrapError "waiting for server uuid-hang to stop: wait failed"
                       (errorString "wait failed")))
              tr)
    as (Hstops & Hwaits & _ & _).
  - vm_compute. reflexivity.
  - split; [exact Hstops|]. split; [exact Hwaits|]. vm_compute. reflexivity.
Defined.

Lemma Decrease_logs_witness :
  let tr := trace (shared (exec takingTurns (spawn baseGroup okAndHang mockRemovals))) in
  removalLogs tr ≡ₚ ["uuid-ok"] ∧ failureLogs tr ≡ₚ failedRemovals tr.
Proof.
  intros tr.
  destruct (Decrease_logs baseGroup okAndHang takingTurns mockRemovals mockRemovals
              ["uuid-ok"]
              (Some (wrapError "waiting for server uuid-hang to stop: wait failed"
                       (errorString "wait failed")))
              tr)
    as (Hremoved & Hfailed & _).
  - vm_compute. reflexivity.
  - split; [exact Hremoved | exact Hfailed].
Defined.
